(** * Helpdesk ticket service: a shallow embedding of the ticket routes

    The development follows the layout of the repository:

    - [JS]: the JavaScript values that cross the HTTP boundary (request
      bodies are JSON objects), truthiness and strict equality;
    - [Mongoose]: the few behaviours of the document layer that the
      routes rely on (casting on assignment, change tracking, errors);
    - [Ticket], [Comment], [Timeline]: the three schemas under
      [models/], with the ticket's [pre('save')] hook and
      [checkSLABreaches];
    - the route handlers of [routes/tickets.js], as functions from a
      database to a response and a database;
    - [authenticate], [authorize], [errorHandler],
      [idempotencyMiddleware] and the middleware order of the server
      entry point.

    Conventions.

    - Dates are integers (milliseconds since the epoch).  A handler
      receives the clock reading [now]; every [new Date()] and [Date.now()]
      executed while serving one request sees that instant.
    - Strings are sequences of one-byte characters; [length], [trim] and
      the case functions are the ASCII ones.
    - ObjectIds are their 24-digit lower-case hexadecimal text.  The id of
      a new document is an input of the operation that creates it.
    - A parsed JSON object has one entry per key.
    - Handlers run one at a time: the interleaving of concurrent requests
      is not part of the embedding.
    - Path matching is left to Express: each handler is embedded as the
      function it is, and [dispatch] selects it by route.

    The document layer.  A document remembers which paths were assigned a
    value different from the one they held ([isModified]); [save] validates
    the modified paths (all paths of a new document), runs the schema's
    hook and writes the document when some path is modified; a value that
    cannot be cast to the type of its path makes [save] fail with a
    validation error; [updateMany] writes without loading documents and
    without running the hook.  A null sent for a String path is refused at
    the cast (the library's treatment of it is outside this repository). *)

From stdpp Require Import gmap strings list fin_maps pretty sorting.
From Stdlib Require Import ZArith Lia Ascii.

Local Open Scope Z_scope.

(** ObjectId, as printed by [toString()]. *)
Definition oid := string.

(* ===================================================================== *)
(** ** JavaScript values *)
(* ===================================================================== *)

Module JS.

(** The values met in request bodies and document fields.  Arrays are arrays
    of strings (the only arrays the routes handle: [tags], [ticketIds]);
    [JOid] is an ObjectId object held by a document. *)
Inductive val :=
| JUndefined
| JNull
| JBool (b : bool)
| JNum (n : Z)
| JStr (s : string)
| JOid (o : oid)
| JArr (l : list string).

#[global] Instance val_eq_dec : EqDecision val.
Proof. solve_decision. Defined.

(** [if (v)], [!v], [v || w]. *)
Definition truthy (v : val) : bool :=
  match v with
  | JUndefined | JNull => false
  | JBool b => b
  | JNum n => negb (n =? 0)
  | JStr s => negb (bool_decide (s = ""))
  | JOid _ | JArr _ => true
  end.

Definition or (v w : val) : val := if truthy v then v else w.

(** [v === w].  Objects are compared by reference: an ObjectId or array
    held by a document is never the object parsed from a request body, and
    that is the only way the routes compare them. *)
Definition strict_eq (v w : val) : bool :=
  match v, w with
  | JUndefined, JUndefined | JNull, JNull => true
  | JBool a, JBool b => bool_decide (a = b)
  | JNum a, JNum b => bool_decide (a = b)
  | JStr a, JStr b => bool_decide (a = b)
  | _, _ => false
  end.

(** [arr.includes(v)] for an array of string literals. *)
Definition includes (arr : list string) (v : val) : bool :=
  match v with
  | JStr s => bool_decide (s ∈ arr)
  | _ => false
  end.

(** A parsed JSON object: keys in insertion order. *)
Definition obj := list (string * val).

(** [o[k]] *)
Fixpoint get (o : obj) (k : string) : val :=
  match o with
  | [] => JUndefined
  | (k', v) :: o' => if bool_decide (k' = k) then v else get o' k
  end.

(** [o[k] = v]: an existing key keeps its position. *)
Fixpoint set (o : obj) (k : string) (v : val) : obj :=
  match o with
  | [] => [(k, v)]
  | (k', v') :: o' =>
      if bool_decide (k' = k) then (k, v) :: o' else (k', v') :: set o' k v
  end.

(** [Object.keys(o)] *)
Definition keys (o : obj) : list string := o.*1.

(** [const { k, ...rest } = o]: the rest object. *)
Definition without (o : obj) (k : string) : obj :=
  filter (λ kv, kv.1 ≠ k) o.

(** [s.charAt(0).toUpperCase() + s.slice(1)] on ASCII letters. *)
Definition upper_char (a : ascii) : ascii :=
  let n := nat_of_ascii a in
  if (bool_decide (97 ≤ n ≤ 122))%nat then ascii_of_nat (n - 32) else a.

Definition capitalize (s : string) : string :=
  match s with
  | EmptyString => EmptyString
  | String a s' => String (upper_char a) s'
  end.

(** [s.trim()], on the ASCII white space characters. *)
Definition is_ws (a : ascii) : bool :=
  let n := nat_of_ascii a in
  bool_decide (n = 32 ∨ 9 ≤ n ≤ 13)%nat.

Fixpoint trim_start (s : string) : string :=
  match s with
  | EmptyString => EmptyString
  | String a s' => if is_ws a then trim_start s' else s
  end.

Definition trim (s : string) : string :=
  String.rev (trim_start (String.rev (trim_start s))).

End JS.

Import JS (val(..)).

(* ===================================================================== *)
(** ** The document layer *)
(* ===================================================================== *)

Module Mongoose.

(** The errors a model operation throws and [errorHandler] tells apart.
    [ValidationError] carries the first failing path and its message. *)
Inductive message :=
| Msg (s : string)   (** a text written in this repository *)
| LibraryMsg.        (** a text produced by the library *)

Inductive error :=
| ValidationError (field : string) (m : message)
| CastError (path : string)
| DuplicateKey (field : string)
| OtherError.                 (** any other exception, e.g. a TypeError *)

#[global] Instance message_eq_dec : EqDecision message.
Proof. solve_decision. Defined.
#[global] Instance error_eq_dec : EqDecision error.
Proof. solve_decision. Defined.

(** A reference path ([assignedTo]) holds nothing, null or an ObjectId. *)
Inductive ref :=
| Unset
| Null
| Ref (o : oid).

#[global] Instance ref_eq_dec : EqDecision ref.
Proof. solve_decision. Defined.

Definition ref_val (r : ref) : val :=
  match r with
  | Unset => JUndefined
  | Null => JNull
  | Ref o => JOid o
  end.

(** Casting to ObjectId: 24 hexadecimal digits, printed back in lower
    case. *)
Definition is_hex (a : ascii) : bool :=
  let n := nat_of_ascii a in
  bool_decide (48 ≤ n ≤ 57 ∨ 65 ≤ n ≤ 70 ∨ 97 ≤ n ≤ 102)%nat.

Definition lower_hex (a : ascii) : ascii :=
  let n := nat_of_ascii a in
  if (bool_decide (65 ≤ n ≤ 70))%nat then ascii_of_nat (n + 32) else a.

Fixpoint map_string (f : ascii → ascii) (s : string) : string :=
  match s with
  | EmptyString => EmptyString
  | String a s' => String (f a) (map_string f s')
  end.

Fixpoint all_string (f : ascii → bool) (s : string) : bool :=
  match s with
  | EmptyString => true
  | String a s' => f a && all_string f s'
  end.

Definition cast_oid_string (s : string) : option oid :=
  if bool_decide (String.length s = 24%nat) && all_string is_hex s
  then Some (map_string lower_hex s) else None.

(** Casting a value assigned to an ObjectId path.  [None] is a cast
    failure; [null] stays null. *)
Definition cast_ref (v : val) : option ref :=
  match v with
  | JUndefined => Some Unset
  | JNull => Some Null
  | JOid o => Some (Ref o)
  | JStr s => Ref <$> cast_oid_string s
  | JBool _ | JNum _ | JArr _ => None
  end.

(** Casting a value used as an [_id] in a query ([findById]). *)
Definition cast_id (v : val) : option oid :=
  match v with
  | JOid o => Some o
  | JStr s => cast_oid_string s
  | _ => None
  end.

(** Casting a value assigned to a String path: strings are kept, numbers
    and booleans are printed.  A null or an array is refused here (what the
    library does with a null on a String path is not fixed by this
    repository). *)
Definition cast_string (v : val) : option string :=
  match v with
  | JStr s => Some s
  | JNum n => Some (pretty n)
  | JBool b => Some (if b then "true" else "false")
  | JOid o => Some o
  | JUndefined | JNull | JArr _ => None
  end.

(** Casting a value assigned to an array-of-String path whose items are
    trimmed. *)
Definition cast_strings (v : val) : option (list string) :=
  match v with
  | JArr l => Some (JS.trim <$> l)
  | JStr s => Some [JS.trim s]
  | _ => None
  end.

End Mongoose.

Import Mongoose (ref(..), error(..), message(..)).

(* ===================================================================== *)
(** ** models/Ticket.js *)
(* ===================================================================== *)

Module Ticket.

Record sla := {
  responseTime : Z;                    (* in hours *)
  resolutionTime : Z;                  (* in hours *)
  responseDeadline : option Z;
  resolutionDeadline : option Z;
  isResponseBreached : bool;
  isResolutionBreached : bool
}.

Record t := {
  _id : oid;
  title : string;
  description : string;
  status : string;
  priority : string;
  category : string;
  createdBy : oid;
  assignedTo : ref;
  sla_ : sla;
  tags : list string;
  version : Z;                         (* optimistic locking *)
  createdAt : Z;
  updatedAt : Z;
  firstResponseAt : option Z;
  resolvedAt : option Z;
  closedAt : option Z
}.

#[global] Instance sla_eq_dec : EqDecision sla.
Proof. solve_decision. Defined.
#[global] Instance t_eq_dec : EqDecision t.
Proof. solve_decision. Defined.

(** Field assignment, one function per path the code writes. *)
Definition with_title (v : string) (x : t) : t :=
  {| _id := _id x; title := v; description := description x;
     status := status x; priority := priority x; category := category x;
     createdBy := createdBy x; assignedTo := assignedTo x; sla_ := sla_ x;
     tags := tags x; version := version x; createdAt := createdAt x;
     updatedAt := updatedAt x; firstResponseAt := firstResponseAt x;
     resolvedAt := resolvedAt x; closedAt := closedAt x |}.

Definition with_description (v : string) (x : t) : t :=
  {| _id := _id x; title := title x; description := v;
     status := status x; priority := priority x; category := category x;
     createdBy := createdBy x; assignedTo := assignedTo x; sla_ := sla_ x;
     tags := tags x; version := version x; createdAt := createdAt x;
     updatedAt := updatedAt x; firstResponseAt := firstResponseAt x;
     resolvedAt := resolvedAt x; closedAt := closedAt x |}.

Definition with_status (v : string) (x : t) : t :=
  {| _id := _id x; title := title x; description := description x;
     status := v; priority := priority x; category := category x;
     createdBy := createdBy x; assignedTo := assignedTo x; sla_ := sla_ x;
     tags := tags x; version := version x; createdAt := createdAt x;
     updatedAt := updatedAt x; firstResponseAt := firstResponseAt x;
     resolvedAt := resolvedAt x; closedAt := closedAt x |}.

Definition with_priority (v : string) (x : t) : t :=
  {| _id := _id x; title := title x; description := description x;
     status := status x; priority := v; category := category x;
     createdBy := createdBy x; assignedTo := assignedTo x; sla_ := sla_ x;
     tags := tags x; version := version x; createdAt := createdAt x;
     updatedAt := updatedAt x; firstResponseAt := firstResponseAt x;
     resolvedAt := resolvedAt x; closedAt := closedAt x |}.

Definition with_category (v : string) (x : t) : t :=
  {| _id := _id x; title := title x; description := description x;
     status := status x; priority := priority x; category := v;
     createdBy := createdBy x; assignedTo := assignedTo x; sla_ := sla_ x;
     tags := tags x; version := version x; createdAt := createdAt x;
     updatedAt := updatedAt x; firstResponseAt := firstResponseAt x;
     resolvedAt := resolvedAt x; closedAt := closedAt x |}.

Definition with_createdBy (v : oid) (x : t) : t :=
  {| _id := _id x; title := title x; description := description x;
     status := status x; priority := priority x; category := category x;
     createdBy := v; assignedTo := assignedTo x; sla_ := sla_ x;
     tags := tags x; version := version x; createdAt := createdAt x;
     updatedAt := updatedAt x; firstResponseAt := firstResponseAt x;
     resolvedAt := resolvedAt x; closedAt := closedAt x |}.

Definition with_assignedTo (v : ref) (x : t) : t :=
  {| _id := _id x; title := title x; description := description x;
     status := status x; priority := priority x; category := category x;
     createdBy := createdBy x; assignedTo := v; sla_ := sla_ x;
     tags := tags x; version := version x; createdAt := createdAt x;
     updatedAt := updatedAt x; firstResponseAt := firstResponseAt x;
     resolvedAt := resolvedAt x; closedAt := closedAt x |}.

Definition with_sla (v : sla) (x : t) : t :=
  {| _id := _id x; title := title x; description := description x;
     status := status x; priority := priority x; category := category x;
     createdBy := createdBy x; assignedTo := assignedTo x; sla_ := v;
     tags := tags x; version := version x; createdAt := createdAt x;
     updatedAt := updatedAt x; firstResponseAt := firstResponseAt x;
     resolvedAt := resolvedAt x; closedAt := closedAt x |}.

Definition with_tags (v : list string) (x : t) : t :=
  {| _id := _id x; title := title x; description := description x;
     status := status x; priority := priority x; category := category x;
     createdBy := createdBy x; assignedTo := assignedTo x; sla_ := sla_ x;
     tags := v; version := version x; createdAt := createdAt x;
     updatedAt := updatedAt x; firstResponseAt := firstResponseAt x;
     resolvedAt := resolvedAt x; closedAt := closedAt x |}.

Definition with_version (v : Z) (x : t) : t :=
  {| _id := _id x; title := title x; description := description x;
     status := status x; priority := priority x; category := category x;
     createdBy := createdBy x; assignedTo := assignedTo x; sla_ := sla_ x;
     tags := tags x; version := v; createdAt := createdAt x;
     updatedAt := updatedAt x; firstResponseAt := firstResponseAt x;
     resolvedAt := resolvedAt x; closedAt := closedAt x |}.

Definition with_updatedAt (v : Z) (x : t) : t :=
  {| _id := _id x; title := title x; description := description x;
     status := status x; priority := priority x; category := category x;
     createdBy := createdBy x; assignedTo := assignedTo x; sla_ := sla_ x;
     tags := tags x; version := version x; createdAt := createdAt x;
     updatedAt := v; firstResponseAt := firstResponseAt x;
     resolvedAt := resolvedAt x; closedAt := closedAt x |}.

Definition with_firstResponseAt (v : option Z) (x : t) : t :=
  {| _id := _id x; title := title x; description := description x;
     status := status x; priority := priority x; category := category x;
     createdBy := createdBy x; assignedTo := assignedTo x; sla_ := sla_ x;
     tags := tags x; version := version x; createdAt := createdAt x;
     updatedAt := updatedAt x; firstResponseAt := v;
     resolvedAt := resolvedAt x; closedAt := closedAt x |}.

Definition with_resolvedAt (v : option Z) (x : t) : t :=
  {| _id := _id x; title := title x; description := description x;
     status := status x; priority := priority x; category := category x;
     createdBy := createdBy x; assignedTo := assignedTo x; sla_ := sla_ x;
     tags := tags x; version := version x; createdAt := createdAt x;
     updatedAt := updatedAt x; firstResponseAt := firstResponseAt x;
     resolvedAt := v; closedAt := closedAt x |}.

Definition with_closedAt (v : option Z) (x : t) : t :=
  {| _id := _id x; title := title x; description := description x;
     status := status x; priority := priority x; category := category x;
     createdBy := createdBy x; assignedTo := assignedTo x; sla_ := sla_ x;
     tags := tags x; version := version x; createdAt := createdAt x;
     updatedAt := updatedAt x; firstResponseAt := firstResponseAt x;
     resolvedAt := resolvedAt x; closedAt := v |}.

Definition with_deadlines (rd sd : option Z) (s : sla) : sla :=
  {| responseTime := responseTime s; resolutionTime := resolutionTime s;
     responseDeadline := rd; resolutionDeadline := sd;
     isResponseBreached := isResponseBreached s;
     isResolutionBreached := isResolutionBreached s |}.

Definition with_times (rt st : Z) (s : sla) : sla :=
  {| responseTime := rt; resolutionTime := st;
     responseDeadline := responseDeadline s;
     resolutionDeadline := resolutionDeadline s;
     isResponseBreached := isResponseBreached s;
     isResolutionBreached := isResolutionBreached s |}.

Definition with_isResponseBreached (b : bool) (s : sla) : sla :=
  {| responseTime := responseTime s; resolutionTime := resolutionTime s;
     responseDeadline := responseDeadline s;
     resolutionDeadline := resolutionDeadline s;
     isResponseBreached := b;
     isResolutionBreached := isResolutionBreached s |}.

Definition with_isResolutionBreached (b : bool) (s : sla) : sla :=
  {| responseTime := responseTime s; resolutionTime := resolutionTime s;
     responseDeadline := responseDeadline s;
     resolutionDeadline := resolutionDeadline s;
     isResponseBreached := isResponseBreached s;
     isResolutionBreached := b |}.

(** The schema's enums. *)
Definition status_enum : list string :=
  ["open"; "in_progress"; "pending"; "resolved"; "closed"].
Definition priority_enum : list string := ["low"; "medium"; "high"; "urgent"].
Definition category_enum : list string :=
  ["technical"; "billing"; "general"; "feature_request"].

(** [priorityMap[p] || dflt] *)
Fixpoint priorityMap_get (m : list (string * Z)) (p : string) (dflt : Z) : Z :=
  match m with
  | [] => dflt
  | (k, h) :: m' =>
      if bool_decide (k = p) then (if h =? 0 then dflt else h)
      else priorityMap_get m' p dflt
  end.

(** The [default] functions of [sla.responseTime] and
    [sla.resolutionTime]. *)
Definition responseTime_default (p : string) : Z :=
  priorityMap_get [("low", 48); ("medium", 24); ("high", 8); ("urgent", 2)] p 24.

Definition resolutionTime_default (p : string) : Z :=
  priorityMap_get [("low", 168); ("medium", 72); ("high", 24); ("urgent", 8)] p 72.

(** The paths a request can assign. *)
Inductive path := Title | Description | Status | Priority | Category | AssignedTo | Tags.

#[global] Instance path_eq_dec : EqDecision path.
Proof. solve_decision. Defined.

Definition name (p : path) : string :=
  match p with
  | Title => "title" | Description => "description" | Status => "status"
  | Priority => "priority" | Category => "category"
  | AssignedTo => "assignedTo" | Tags => "tags"
  end.

Definition all_paths : list path :=
  [Title; Description; Status; Priority; Category; AssignedTo; Tags].

Definition of_key (k : string) : option path :=
  list_find (λ p, name p = k) all_paths ≫= λ ip, Some ip.2.

(** [ticket[key]] for a schema path. *)
Definition read (p : path) (x : t) : val :=
  match p with
  | Title => JStr (title x)
  | Description => JStr (description x)
  | Status => JStr (status x)
  | Priority => JStr (priority x)
  | Category => JStr (category x)
  | AssignedTo => Mongoose.ref_val (assignedTo x)
  | Tags => JArr (tags x)
  end.

(** The value a path holds after [ticket[key] = v]: cast, then the
    schema's setters ([trim] on [title] and on each tag).  [None]: the
    cast failed. *)
Definition put (p : path) (v : val) (x : t) : option t :=
  match p with
  | Title => s ← Mongoose.cast_string v; Some (with_title (JS.trim s) x)
  | Description => s ← Mongoose.cast_string v; Some (with_description s x)
  | Status => s ← Mongoose.cast_string v; Some (with_status s x)
  | Priority => s ← Mongoose.cast_string v; Some (with_priority s x)
  | Category => s ← Mongoose.cast_string v; Some (with_category s x)
  | AssignedTo => r ← Mongoose.cast_ref v; Some (with_assignedTo r x)
  | Tags => l ← Mongoose.cast_strings v; Some (with_tags l x)
  end.

(** A document in memory: its data, whether it was built by the
    constructor ([isNew]) or loaded, the paths marked modified and the
    paths whose last assignment failed to cast. *)
Record doc := {
  data : t;
  isNew : bool;
  modified : list string;
  invalid : list string
}.

Definition loaded (x : t) : doc :=
  {| data := x; isNew := false; modified := []; invalid := [] |}.

Definition mark (k : string) (d : doc) : doc :=
  {| data := data d; isNew := isNew d;
     modified := if bool_decide (k ∈ modified d) then modified d
                 else modified d ++ [k];
     invalid := invalid d |}.

Definition with_data (x : t) (d : doc) : doc :=
  {| data := x; isNew := isNew d; modified := modified d; invalid := invalid d |}.

(** [doc[p] = v].  A path of a loaded document is marked modified only when
    the cast value differs from the one it holds; on a new document every
    assignment marks it. *)
Definition assign (p : path) (v : val) (d : doc) : doc :=
  match put p v (data d) with
  | None =>
      {| data := data d; isNew := isNew d; modified := modified d;
         invalid := invalid d ++ [name p] |}
  | Some x' =>
      if isNew d || negb (bool_decide (x' = data d))
      then mark (name p) (with_data x' d)
      else d
  end.

(** [this.isModified()] and [this.isModified(path)] *)
Definition isModified (d : doc) : bool := negb (bool_decide (modified d = [])).
Definition isModified_path (k : string) (d : doc) : bool :=
  bool_decide (k ∈ modified d).

(** The schema's validators, per path: the first failure. *)
Definition validate_path (x : t) (k : string) : option error :=
  if bool_decide (k = "title") then
    if bool_decide (title x = "") then
      Some (ValidationError "title" (Msg "Title is required"))
    else if bool_decide (200 < String.length (title x))%nat then
      Some (ValidationError "title" (Msg "Title cannot exceed 200 characters"))
    else None
  else if bool_decide (k = "description") then
    if bool_decide (description x = "") then
      Some (ValidationError "description" (Msg "Description is required"))
    else if bool_decide (2000 < String.length (description x))%nat then
      Some (ValidationError "description"
              (Msg "Description cannot exceed 2000 characters"))
    else None
  else if bool_decide (k = "status") then
    if bool_decide (status x ∈ status_enum) then None
    else Some (ValidationError "status" LibraryMsg)
  else if bool_decide (k = "priority") then
    if bool_decide (priority x ∈ priority_enum) then None
    else Some (ValidationError "priority" LibraryMsg)
  else if bool_decide (k = "category") then
    if bool_decide (category x ∈ category_enum) then None
    else Some (ValidationError "category" LibraryMsg)
  else None.

Fixpoint first_error (x : t) (ks : list string) : option error :=
  match ks with
  | [] => None
  | k :: ks' =>
      match validate_path x k with
      | Some e => Some e
      | None => first_error x ks'
      end
  end.

(** Validation before save: a failed cast is reported first; a new
    document is validated on every path, a loaded one on its modified
    paths. *)
Definition validate (d : doc) : option error :=
  match invalid d with
  | k :: _ => Some (ValidationError k LibraryMsg)
  | [] =>
      first_error (data d)
        (if isNew d then name <$> all_paths else modified d)
  end.

Definition hours (h : Z) : Z := h * 60 * 60 * 1000.

(** [ticketSchema.pre('save', ...)] *)
Definition pre_save (now : Z) (d : doc) : doc :=
  (* Calculate SLA deadlines before saving *)
  let d1 :=
    if isNew d then
      let s := sla_ (data d) in
      with_data
        (with_sla
           (with_deadlines (Some (now + hours (responseTime s)))
                           (Some (now + hours (resolutionTime s))) s)
           (data d)) d
    else d in
  (* Update updatedAt *)
  let d2 :=
    if isModified d1 && negb (isNew d1) then
      mark "version"
        (with_data (with_version (version (data d1) + 1)
                      (with_updatedAt now (data d1)))
           (mark "updatedAt" d1))
    else d1 in
  (* Update status-specific timestamps *)
  if isModified_path "status" d2 then
    let d3 :=
      if bool_decide (status (data d2) = "resolved")
         && negb (bool_decide (is_Some (resolvedAt (data d2)))) then
        mark "resolvedAt" (with_data (with_resolvedAt (Some now) (data d2)) d2)
      else d2 in
    if bool_decide (status (data d3) = "closed")
       && negb (bool_decide (is_Some (closedAt (data d3)))) then
      mark "closedAt" (with_data (with_closedAt (Some now) (data d3)) d3)
    else d3
  else d2.

(** [now > deadline], false when the deadline is absent. *)
Definition past (now : Z) (deadline : option Z) : bool :=
  match deadline with
  | Some dl => dl <? now
  | None => false
  end.

(** [ticketSchema.methods.checkSLABreaches] *)
Definition checkSLABreaches (now : Z) (x : t) : t :=
  let x1 :=
    if negb (bool_decide (is_Some (firstResponseAt x)))
       && past now (responseDeadline (sla_ x))
    then with_sla (with_isResponseBreached true (sla_ x)) x
    else x in
  if negb (bool_decide (is_Some (resolvedAt x1)))
     && past now (resolutionDeadline (sla_ x1))
  then with_sla (with_isResolutionBreached true (sla_ x1)) x1
  else x1.

(** [new Ticket({title, description, priority, category, createdBy})]:
    plain defaults, then the given paths, then the function defaults of
    [sla.responseTime] and [sla.resolutionTime], which read the priority
    just set. *)
Definition blank (id : oid) (now : Z) : t :=
  {| _id := id; title := ""; description := ""; status := "open";
     priority := "medium"; category := "general"; createdBy := "";
     assignedTo := Unset;
     sla_ := {| responseTime := 0; resolutionTime := 0;
                responseDeadline := None; resolutionDeadline := None;
                isResponseBreached := false; isResolutionBreached := false |};
     tags := []; version := 0; createdAt := now; updatedAt := now;
     firstResponseAt := None; resolvedAt := None; closedAt := None |}.

Definition construct (id : oid) (now : Z)
    (title description priority category : val) (createdBy : oid) : doc :=
  let d0 := {| data := blank id now; isNew := true;
               modified := []; invalid := [] |} in
  let d1 := assign Title title d0 in
  let d2 := assign Description description d1 in
  let d3 := assign Priority priority d2 in
  let d4 := assign Category category d3 in
  let d5 := mark "createdBy" (with_data (with_createdBy createdBy (data d4)) d4) in
  let p := Ticket.priority (data d5) in
  with_data
    (with_sla (with_times (responseTime_default p) (resolutionTime_default p)
                 (sla_ (data d5))) (data d5)) d5.

End Ticket.

(* ===================================================================== *)
(** ** models/Comment.js, models/Timeline.js, the user directory *)
(* ===================================================================== *)

Module Comment.

(** [attachments] (always empty on the routes embedded here) is left
    out. *)
Record t := {
  ticket : oid;
  author : oid;
  content : string;
  type : string;
  isFirstResponse : bool;
  createdAt : Z;
  updatedAt : Z
}.

#[global] Instance t_eq_dec : EqDecision t.
Proof. solve_decision. Defined.

Definition type_enum : list string := ["comment"; "internal_note"].

(** The validators run by [Comment.create]. *)
Definition validate (c : t) : option error :=
  if bool_decide (content c = "") then
    Some (ValidationError "content" (Msg "Comment content is required"))
  else if bool_decide (2000 < String.length (content c))%nat then
    Some (ValidationError "content" (Msg "Comment cannot exceed 2000 characters"))
  else if bool_decide (type c ∈ type_enum) then None
  else Some (ValidationError "type" LibraryMsg).

End Comment.

Module Timeline.

Record t := {
  ticket : oid;
  user : oid;
  action : string;
  details : JS.obj;
  description : string;
  createdAt : Z
}.

#[global] Instance t_eq_dec : EqDecision t.
Proof. solve_decision. Defined.

Definition action_enum : list string :=
  ["created"; "updated"; "assigned"; "unassigned"; "status_changed";
   "priority_changed"; "commented"; "resolved"; "closed"; "reopened";
   "sla_breach"].

(** The validators run by [Timeline.create]. *)
Definition validate (e : t) : option error :=
  if bool_decide (action e ∈ action_enum) then
    if bool_decide (description e = "") then
      Some (ValidationError "description" LibraryMsg)
    else if bool_decide (500 < String.length (description e))%nat then
      Some (ValidationError "description"
              (Msg "Description cannot exceed 500 characters"))
    else None
  else Some (ValidationError "action" LibraryMsg).

End Timeline.

Module User.

(** Modelled from the spec: [models/User.js] is not among the sources.  The
    routes read an identity, a display name, a role (one of [user],
    [agent], [admin]) and an active flag; [authenticate] writes
    [lastLoginAt]. *)
Record t := {
  _id : oid;
  name : string;
  role : string;
  isActive : bool;
  lastLoginAt : option Z
}.

#[global] Instance t_eq_dec : EqDecision t.
Proof. solve_decision. Defined.

Definition with_lastLoginAt (v : option Z) (u : t) : t :=
  {| _id := _id u; name := name u; role := role u; isActive := isActive u;
     lastLoginAt := v |}.

End User.

(* ===================================================================== *)
(** ** The database and the handler monad *)
(* ===================================================================== *)

Record db := {
  tickets : gmap oid Ticket.t;
  comments : list Comment.t;           (* in creation order *)
  timeline : list Timeline.t;          (* in creation order *)
  users : gmap oid User.t
}.

Definition with_tickets (m : gmap oid Ticket.t) (s : db) : db :=
  {| tickets := m; comments := comments s; timeline := timeline s;
     users := users s |}.
Definition with_comments (l : list Comment.t) (s : db) : db :=
  {| tickets := tickets s; comments := l; timeline := timeline s;
     users := users s |}.
Definition with_timeline (l : list Timeline.t) (s : db) : db :=
  {| tickets := tickets s; comments := comments s; timeline := l;
     users := users s |}.
Definition with_users (m : gmap oid User.t) (s : db) : db :=
  {| tickets := tickets s; comments := comments s; timeline := timeline s;
     users := m |}.

(** An [async] step of a handler: it reads and writes the database and
    either yields a value or throws.  What was written before a throw
    stays written. *)
Definition M (A : Type) : Type := db → db * (error + A).

Definition ret {A} (a : A) : M A := λ s, (s, inr a).
Definition throw {A} (e : error) : M A := λ s, (s, inl e).
Definition bind {A B} (m : M A) (k : A → M B) : M B :=
  λ s, match m s with
       | (s', inr a) => k a s'
       | (s', inl e) => (s', inl e)
       end.

Declare Scope handler_scope.
Delimit Scope handler_scope with handler.
Notation "'let*' x := m 'in' k" := (bind m (λ x, k))
  (at level 10, x name, m at level 100, k at level 200) : handler_scope.
Notation "m ;; k" := (bind m (λ _, k))
  (at level 100, k at level 200, right associativity) : handler_scope.

(** The JSON bodies the routes send. *)
Inductive body :=
| Failure (code : string) (field : option string) (m : message)
| TicketOk (x : Ticket.t)
| CommentOk (c : Comment.t)
| BulkOk (msg : string) (modifiedCount : Z)
| DetailOk (x : Ticket.t) (cs : list Comment.t) (tl : list Timeline.t).

Record response := { statusCode : Z; payload : body }.

#[global] Instance body_eq_dec : EqDecision body.
Proof. solve_decision. Defined.
#[global] Instance response_eq_dec : EqDecision response.
Proof. solve_decision. Defined.

(** [res.status(c).json(b)] *)
Definition respond (c : Z) (b : body) : M response :=
  ret {| statusCode := c; payload := b |}.

(** [middleware/errorHandler.js]: the branches for the errors the ticket
    routes can raise. *)
Definition errorHandler (e : error) : response :=
  match e with
  | ValidationError f m =>
      {| statusCode := 400; payload := Failure "VALIDATION_ERROR" (Some f) m |}
  | DuplicateKey f =>
      {| statusCode := 400;
         payload := Failure "DUPLICATE_FIELD" (Some f)
                      (Msg (JS.capitalize f +:+ " already exists")) |}
  | CastError p =>
      {| statusCode := 400;
         payload := Failure "INVALID_ID" (Some p) (Msg "Invalid ID format") |}
  | OtherError =>
      {| statusCode := 500;
         payload := Failure "INTERNAL_ERROR" None (Msg "Something went wrong") |}
  end.

(** [try { ... } catch (error) { next(error) }] around a handler body. *)
Definition run (h : M response) (s : db) : response * db :=
  match h s with
  | (s', inr r) => (r, s')
  | (s', inl e) => (errorHandler e, s')
  end.

Definition is_success (r : response) : bool := bool_decide (statusCode r < 400).

(* ===================================================================== *)
(** ** Model operations *)
(* ===================================================================== *)

Local Open Scope handler_scope.

(** [String(v)], as a template literal prints a value. *)
Fixpoint join (l : list string) : string :=
  match l with
  | [] => ""
  | [s] => s
  | s :: l' => s +:+ "," +:+ join l'
  end.

Definition to_string (v : val) : string :=
  match v with
  | JUndefined => "undefined"
  | JNull => "null"
  | JBool b => if b then "true" else "false"
  | JNum n => pretty n
  | JStr s => s
  | JOid o => o
  | JArr l => join l
  end.

(** [Ticket.findById(id)] and [User.findById(id)]: the id is cast first. *)
Definition Ticket_findById (id : val) : M (option Ticket.doc) :=
  λ s, match Mongoose.cast_id id with
       | None => (s, inl (CastError "_id"))
       | Some o => (s, inr (Ticket.loaded <$> tickets s !! o))
       end.

Definition User_findById (id : val) : M (option User.t) :=
  λ s, match Mongoose.cast_id id with
       | None => (s, inl (CastError "_id"))
       | Some o => (s, inr (users s !! o))
       end.

(** [await ticket.save()]: validation, the [pre('save')] hook, then the
    write.  A loaded document without modified paths is not written. *)
Definition committed (d : Ticket.doc) : Ticket.doc :=
  {| Ticket.data := Ticket.data d; Ticket.isNew := false;
     Ticket.modified := []; Ticket.invalid := [] |}.

Definition save (now : Z) (d : Ticket.doc) : M Ticket.doc :=
  λ s, match Ticket.validate d with
       | Some e => (s, inl e)
       | None =>
           let d' := Ticket.pre_save now d in
           let id := Ticket._id (Ticket.data d') in
           if Ticket.isNew d' then
             if bool_decide (is_Some (tickets s !! id))
             then (s, inl (DuplicateKey "_id"))
             else (with_tickets (<[id := Ticket.data d']> (tickets s)) s,
                   inr (committed d'))
           else if Ticket.isModified d' then
             (with_tickets (<[id := Ticket.data d']> (tickets s)) s,
              inr (committed d'))
           else (s, inr d')
       end.

(** [Ticket.create({...})] *)
Definition Ticket_create (id : oid) (now : Z)
    (title description priority category : val) (createdBy : oid)
  : M Ticket.doc :=
  save now (Ticket.construct id now title description priority category createdBy).

(** [Comment.countDocuments({ ticket, type: 'comment' })] *)
Definition Comment_count (ticket : oid) (type : string) : M Z :=
  λ s, (s, inr (Z.of_nat (length
         (filter (λ c, Comment.ticket c = ticket ∧ Comment.type c = type)
            (comments s))))).

(** [Comment.create({ ticket, author, content, type, isFirstResponse })] *)
Definition Comment_create (now : Z) (ticket author : oid) (content type : val)
    (isFirstResponse : bool) : M Comment.t :=
  λ s, match Mongoose.cast_string content, Mongoose.cast_string type with
       | None, _ => (s, inl (ValidationError "content" LibraryMsg))
       | _, None => (s, inl (ValidationError "type" LibraryMsg))
       | Some c, Some ty =>
           let cm := {| Comment.ticket := ticket; Comment.author := author;
                        Comment.content := c; Comment.type := ty;
                        Comment.isFirstResponse := isFirstResponse;
                        Comment.createdAt := now; Comment.updatedAt := now |} in
           match Comment.validate cm with
           | Some e => (s, inl e)
           | None => (with_comments (comments s ++ [cm]) s, inr cm)
           end
       end.

(** [createTimelineEntry(ticketId, userId, action, description, details)] *)
Definition createTimelineEntry (now : Z) (ticketId : val) (userId : oid)
    (action description : string) (details : JS.obj) : M unit :=
  λ s, match Mongoose.cast_id ticketId with
       | None => (s, inl (ValidationError "ticket" LibraryMsg))
       | Some tid =>
           let e := {| Timeline.ticket := tid; Timeline.user := userId;
                       Timeline.action := action; Timeline.details := details;
                       Timeline.description := description;
                       Timeline.createdAt := now |} in
           match Timeline.validate e with
           | Some err => (s, inl err)
           | None => (with_timeline (timeline s ++ [e]) s, inr ())
           end
       end.

(** [u?.name || dflt] *)
Definition name_or (u : option User.t) (dflt : string) : string :=
  match u with
  | Some u => if bool_decide (User.name u = "") then dflt else User.name u
  | None => dflt
  end.

(** [u?.name] as a value of a details object. *)
Definition name_val (u : option User.t) : val :=
  match u with
  | Some u => JStr (User.name u)
  | None => JUndefined
  end.

Definition forbidden (m : string) : M response :=
  respond 403 (Failure "FORBIDDEN" None (Msg m)).

Definition not_found : M response :=
  respond 404 (Failure "TICKET_NOT_FOUND" None (Msg "Ticket not found")).

Definition isAgentOrAdmin (u : User.t) : bool :=
  bool_decide (User.role u ∈ ["agent"; "admin"]).

(* ===================================================================== *)
(** ** middleware/auth.js: authorize *)
(* ===================================================================== *)

(** [authorize(...roles)] in front of a handler. *)
Definition authorize (roles : list string) (user : option User.t)
    (next : User.t → M response) : M response :=
  match user with
  | None =>
      respond 401 (Failure "UNAUTHORIZED" None (Msg "Authentication required"))
  | Some u =>
      if negb (bool_decide (User.role u ∈ roles)) then
        forbidden "Insufficient permissions"
      else next u
  end.

(* ===================================================================== *)
(** ** routes/tickets.js *)
(* ===================================================================== *)

(** [for (const x of l) { await f(x) }] *)
Fixpoint for_each {A} (l : list A) (f : A → M unit) : M unit :=
  match l with
  | [] => ret ()
  | x :: l' => f x ;; for_each l' f
  end.

(** POST /api/tickets.  [new_id] is the ObjectId the driver generates for
    the new document. *)
Definition post_ticket (now : Z) (new_id : oid) (user : User.t)
    (body : JS.obj) : M response :=
  let title := JS.get body "title" in
  let description := JS.get body "description" in
  let priority := JS.get body "priority" in
  let category := JS.get body "category" in
  if negb (JS.truthy title) then
    respond 400 (Failure "FIELD_REQUIRED" (Some "title") (Msg "Title is required"))
  else if negb (JS.truthy description) then
    respond 400 (Failure "FIELD_REQUIRED" (Some "description")
                   (Msg "Description is required"))
  else
    let* ticket := Ticket_create new_id now title description
                     (JS.or priority (JStr "medium"))
                     (JS.or category (JStr "general")) (User._id user) in
    createTimelineEntry now (JOid (Ticket._id (Ticket.data ticket)))
      (User._id user) "created" ("Ticket created by " +:+ User.name user) [] ;;
    respond 201 (TicketOk (Ticket.data ticket)).

(** GET /api/tickets/:id.  [populate] replaces [createdBy] by the creator's
    user document, or by null when there is none, in which case reading
    [ticket.createdBy._id] throws.  The two lists are returned in creation
    order (comments) and reverse creation order (timeline), which is their
    order by [createdAt] under a clock that does not go back. *)
Definition get_ticket (now : Z) (user : User.t) (id : string) : M response :=
  let* found := Ticket_findById (JStr id) in
  match found with
  | None => not_found
  | Some ticket =>
      let x := Ticket.data ticket in
      let* creator := User_findById (JOid (Ticket.createdBy x)) in
      (* Check permissions - users can only see their own tickets *)
      let* denied :=
        (if bool_decide (User.role user = "user") then
           match creator with
           | None => throw OtherError
           | Some creator =>
               ret (negb (bool_decide (User._id creator = User._id user)))
           end
         else ret false) in
      if denied : bool then forbidden "Access denied"
      else
        λ s,
          let cs := filter (λ c, Comment.ticket c = Ticket._id x) (comments s) in
          let tl := reverse
            (filter (λ e, Timeline.ticket e = Ticket._id x) (timeline s)) in
          (* Check SLA breaches *)
          respond 200 (DetailOk (Ticket.checkSLABreaches now x) cs tl) s
  end.

(** PATCH /api/tickets/:id *)
Record change := { field : string; oldValue : val; newValue : val }.

(** [ticket[key]] *)
Definition ticket_get (x : Ticket.t) (key : string) : val :=
  match Ticket.of_key key with
  | Some p => Ticket.read p x
  | None => JUndefined
  end.

Definition agent_fields : list string :=
  ["status"; "priority"; "assignedTo"; "title"; "description"; "category"; "tags"].
Definition user_fields : list string := ["title"; "description"].

(** Filter updates to only allowed fields *)
Definition filter_updates (allowedFields : list string) (updates : JS.obj)
  : JS.obj :=
  foldl (λ filteredUpdates key,
           if bool_decide (key ∈ allowedFields)
           then JS.set filteredUpdates key (JS.get updates key)
           else filteredUpdates)
        [] (JS.keys updates).

(** Track changes for timeline *)
Definition track_changes (x : Ticket.t) (filteredUpdates : JS.obj)
  : list change :=
  foldl (λ changes key,
           if negb (JS.strict_eq (ticket_get x key) (JS.get filteredUpdates key))
           then changes ++ [{| field := key; oldValue := ticket_get x key;
                               newValue := JS.get filteredUpdates key |}]
           else changes)
        [] (JS.keys filteredUpdates).

(** [Object.assign(ticket, filteredUpdates)] *)
Definition assign_all (filteredUpdates : JS.obj) (d : Ticket.doc) : Ticket.doc :=
  foldl (λ d kv, match Ticket.of_key kv.1 with
                 | Some p => Ticket.assign p kv.2 d
                 | None => d
                 end)
        d filteredUpdates.

Definition change_description (c : change) : M string :=
  if bool_decide (field c = "status") then
    ret ("Status changed from " +:+ to_string (oldValue c) +:+ " to "
           +:+ to_string (newValue c))
  else if bool_decide (field c = "priority") then
    ret ("Priority changed from " +:+ to_string (oldValue c) +:+ " to "
           +:+ to_string (newValue c))
  else if bool_decide (field c = "assignedTo") then
    let* oldUser := (if JS.truthy (oldValue c)
                     then User_findById (oldValue c) else ret None) in
    let* newUser := (if JS.truthy (newValue c)
                     then User_findById (newValue c) else ret None) in
    ret ("Assignment changed from " +:+ name_or oldUser "unassigned" +:+ " to "
           +:+ name_or newUser "unassigned")
  else
    ret (JS.capitalize (field c) +:+ " updated").

Definition stale_update : M response :=
  respond 409 (Failure "STALE_UPDATE" None
    (Msg "Ticket has been modified by another user. Please refresh and try again.")).

Definition patch_ticket (now : Z) (user : User.t) (id : string)
    (body : JS.obj) : M response :=
  let version := JS.get body "version" in
  let updates := JS.without body "version" in
  let* found := Ticket_findById (JStr id) in
  match found with
  | None => not_found
  | Some ticket =>
      let x := Ticket.data ticket in
      (* Optimistic locking check *)
      if negb (JS.strict_eq version JUndefined)
         && negb (JS.strict_eq (JNum (Ticket.version x)) version) then
        stale_update
      else
        (* Permission checks *)
        let isOwner := bool_decide (Ticket.createdBy x = User._id user) in
        if negb isOwner && negb (isAgentOrAdmin user) then
          forbidden "Access denied"
        else
          let allowedFields :=
            if isAgentOrAdmin user then agent_fields else user_fields in
          let filteredUpdates := filter_updates allowedFields updates in
          let changes := track_changes x filteredUpdates in
          (* Update ticket *)
          let* ticket := save now (assign_all filteredUpdates ticket) in
          (* Create timeline entries for changes *)
          for_each changes (λ c,
            let* description := change_description c in
            createTimelineEntry now (JOid (Ticket._id x)) (User._id user)
              "updated" description
              [("field", JStr (field c)); ("oldValue", oldValue c);
               ("newValue", newValue c)]) ;;
          respond 200 (TicketOk (Ticket.data ticket))
  end.

(** POST /api/tickets/:id/comments *)
Definition post_comment (now : Z) (user : User.t) (id : string)
    (body : JS.obj) : M response :=
  let content := JS.get body "content" in
  let type := if JS.strict_eq (JS.get body "type") JUndefined
              then JStr "comment" else JS.get body "type" in
  if negb (JS.truthy content) then
    respond 400 (Failure "FIELD_REQUIRED" (Some "content")
                   (Msg "Comment content is required"))
  else
    let* found := Ticket_findById (JStr id) in
    match found with
    | None => not_found
    | Some ticket =>
        let x := Ticket.data ticket in
        (* Check permissions *)
        let isOwner := bool_decide (Ticket.createdBy x = User._id user) in
        if negb isOwner && negb (isAgentOrAdmin user) then
          forbidden "Access denied"
        (* Users cannot create internal notes *)
        else if JS.strict_eq type (JStr "internal_note")
                && bool_decide (User.role user = "user") then
          forbidden "Users cannot create internal notes"
        else
          (* Check if this is the first response *)
          let* existingComments := Comment_count (Ticket._id x) "comment" in
          let isFirstResponse :=
            bool_decide (existingComments = 0)
            && JS.strict_eq type (JStr "comment") in
          let* comment := Comment_create now (Ticket._id x) (User._id user)
                            content type isFirstResponse in
          (* Update ticket's first response timestamp *)
          (if isFirstResponse then
             let t' := Ticket.with_firstResponseAt (Some now) x in
             let ticket' :=
               if bool_decide (t' = x) then ticket
               else Ticket.mark "firstResponseAt" (Ticket.with_data t' ticket) in
             save now ticket' ;; ret ()
           else ret ()) ;;
          createTimelineEntry now (JOid (Ticket._id x)) (User._id user)
            "commented"
            ((if JS.strict_eq type (JStr "internal_note")
              then "Internal note" else "Comment")
               +:+ " added by " +:+ User.name user) [] ;;
          respond 201 (CommentOk comment)
    end.

Definition invalid_assignee : M response :=
  respond 400 (Failure "INVALID_ASSIGNEE" None
                 (Msg "Can only assign to agents or admins")).

(** Verify assignee is an agent or admin: [true] when the check fails. *)
Definition not_assignable (assignee : option User.t) : bool :=
  match assignee with
  | None => true
  | Some a => negb (isAgentOrAdmin a)
  end.

(** POST /api/tickets/:id/assign, behind [authorize('agent', 'admin')] *)
Definition post_assign (now : Z) (user : User.t) (id : string)
    (body : JS.obj) : M response :=
  let assignedTo := JS.get body "assignedTo" in
  let* found := Ticket_findById (JStr id) in
  match found with
  | None => not_found
  | Some ticket =>
      let x := Ticket.data ticket in
      (* Agents can only assign to themselves, admins can assign to anyone *)
      if bool_decide (User.role user = "agent") && JS.truthy assignedTo
         && negb (JS.strict_eq assignedTo (JStr (User._id user))) then
        forbidden "Agents can only assign tickets to themselves"
      else
        (* Verify assignee is an agent or admin *)
        let* assignee := (if JS.truthy assignedTo
                          then User_findById assignedTo else ret None) in
        if JS.truthy assignedTo && not_assignable assignee then
          invalid_assignee
        else
          let oldAssignee := Mongoose.ref_val (Ticket.assignedTo x) in
          let* ticket :=
            save now (Ticket.assign Ticket.AssignedTo (JS.or assignedTo JNull) ticket) in
          (* Create timeline entry *)
          let* oldUser := (if JS.truthy oldAssignee
                           then User_findById oldAssignee else ret None) in
          let* newUser := (if JS.truthy assignedTo
                           then User_findById assignedTo else ret None) in
          createTimelineEntry now (JOid (Ticket._id x)) (User._id user)
            "assigned"
            ("Ticket "
               +:+ (if JS.truthy assignedTo then "assigned to" else "unassigned from")
               +:+ " " +:+ name_or newUser (name_or oldUser "agent"))
            [("oldAssignee", name_val oldUser); ("newAssignee", name_val newUser)] ;;
          respond 200 (TicketOk (Ticket.data ticket))
  end.

(** POST /api/tickets/:id/status, behind [authorize('agent', 'admin')] *)
Definition post_status (now : Z) (user : User.t) (id : string)
    (body : JS.obj) : M response :=
  let status := JS.get body "status" in
  if negb (JS.includes Ticket.status_enum status) then
    respond 400 (Failure "INVALID_STATUS" (Some "status")
                   (Msg "Invalid status value"))
  else
    let* found := Ticket_findById (JStr id) in
    match found with
    | None => not_found
    | Some ticket =>
        let x := Ticket.data ticket in
        let oldStatus := Ticket.status x in
        let* ticket := save now (Ticket.assign Ticket.Status status ticket) in
        (* Create timeline entry *)
        createTimelineEntry now (JOid (Ticket._id x)) (User._id user)
          "status_changed"
          ("Status changed from " +:+ oldStatus +:+ " to " +:+ to_string status
             +:+ " by " +:+ User.name user)
          [("oldStatus", JStr oldStatus); ("newStatus", status)] ;;
        respond 200 (TicketOk (Ticket.data ticket))
    end.

(** POST /api/tickets/:id/priority, behind [authorize('agent', 'admin')] *)
Definition post_priority (now : Z) (user : User.t) (id : string)
    (body : JS.obj) : M response :=
  let priority := JS.get body "priority" in
  if negb (JS.includes Ticket.priority_enum priority) then
    respond 400 (Failure "INVALID_PRIORITY" (Some "priority")
                   (Msg "Invalid priority value"))
  else
    let* found := Ticket_findById (JStr id) in
    match found with
    | None => not_found
    | Some ticket =>
        let x := Ticket.data ticket in
        let oldPriority := Ticket.priority x in
        (* SLA will be recomputed automatically by the pre-save hook *)
        let* ticket := save now (Ticket.assign Ticket.Priority priority ticket) in
        (* Create timeline entry *)
        createTimelineEntry now (JOid (Ticket._id x)) (User._id user)
          "priority_changed"
          ("Priority changed from " +:+ oldPriority +:+ " to "
             +:+ to_string priority +:+ " by " +:+ User.name user
             +:+ " (SLA deadlines recomputed)")
          [("oldPriority", JStr oldPriority); ("newPriority", priority)] ;;
        respond 200 (TicketOk (Ticket.data ticket))
    end.

(** [Ticket.updateMany({ _id: { $in: ids } }, { assignedTo: r })]: a plain
    update of the matching documents (no document is loaded, no save hook
    runs); the result counts the documents whose value changed. *)
Fixpoint cast_ids (l : list string) : option (list oid) :=
  match l with
  | [] => Some []
  | s :: l' =>
      match Mongoose.cast_oid_string s, cast_ids l' with
      | Some o, Some os => Some (o :: os)
      | _, _ => None
      end
  end.

Definition Ticket_updateMany_assignedTo (ids : list string) (v : val) : M Z :=
  λ s, match cast_ids ids, Mongoose.cast_ref v with
       | Some os, Some r =>
           let hit (id : oid) (x : Ticket.t) : bool :=
             bool_decide (id ∈ os)
             && negb (bool_decide (Ticket.assignedTo x = r)) in
           let n := length (filter (λ kx, hit kx.1 kx.2 = true)
                              (map_to_list (tickets s))) in
           (with_tickets
              (map_imap (λ id x, Some (if hit id x
                                       then Ticket.with_assignedTo r x else x))
                 (tickets s)) s,
            inr (Z.of_nat n))
       | None, _ => (s, inl (CastError "_id"))
       | _, None => (s, inl (CastError "assignedTo"))
       end.

(** POST /api/tickets/bulk/assign, behind [authorize('admin')] *)
Definition post_bulk_assign (now : Z) (user : User.t) (body : JS.obj)
  : M response :=
  let assignedTo := JS.get body "assignedTo" in
  match (match JS.get body "ticketIds" with JArr l => Some l | _ => None end) with
  | None | Some [] =>
      respond 400 (Failure "INVALID_INPUT" None
                     (Msg "ticketIds must be a non-empty array"))
  | Some ticketIds =>
      (* Verify assignee exists and is agent/admin *)
      let* assignee := (if JS.truthy assignedTo
                        then User_findById assignedTo else ret None) in
      if JS.truthy assignedTo && not_assignable assignee then
        invalid_assignee
      else
        (* Update tickets *)
        let* modifiedCount :=
          Ticket_updateMany_assignedTo ticketIds (JS.or assignedTo JNull) in
        (* Create timeline entries *)
        for_each ticketIds (λ ticketId,
          let* ticket := Ticket_findById (JStr ticketId) in
          match ticket with
          | Some _ =>
              let* newUser := (if JS.truthy assignedTo
                               then User_findById assignedTo else ret None) in
              createTimelineEntry now (JStr ticketId) (User._id user)
                "assigned"
                ("Ticket "
                   +:+ (if JS.truthy assignedTo then "assigned to"
                        else "unassigned from")
                   +:+ " " +:+ name_or newUser "agent" +:+ " (bulk operation)")
                [("newAssignee", name_val newUser)]
          | None => ret ()
          end) ;;
        respond 200 (BulkOk (pretty modifiedCount +:+ " tickets updated")
                       modifiedCount)
  end.

(* ===================================================================== *)
(** ** Requests, authentication, the idempotency cache, the server *)
(* ===================================================================== *)

(** What [jwt.verify] makes of the Authorization header: no bearer token,
    a token that does not verify, or a token whose payload carries [id]. *)
Inductive authorization :=
| NoBearer
| InvalidBearer
| Bearer (id : string).

(** The ticket routes. *)
Inductive route :=
| CreateTicket (body : JS.obj)                 (* POST / *)
| GetTicket (id : string)                      (* GET /:id *)
| PatchTicket (id : string) (body : JS.obj)    (* PATCH /:id *)
| AddComment (id : string) (body : JS.obj)     (* POST /:id/comments *)
| Assign (id : string) (body : JS.obj)         (* POST /:id/assign *)
| SetStatus (id : string) (body : JS.obj)      (* POST /:id/status *)
| SetPriority (id : string) (body : JS.obj)    (* POST /:id/priority *)
| BulkAssign (body : JS.obj).                  (* POST /bulk/assign *)

Record request := {
  auth : authorization;
  idempotency_key : option string;     (* the Idempotency-Key header *)
  target : route
}.

(** [req.method] *)
Definition method (req : request) : string :=
  match target req with
  | GetTicket _ => "GET"
  | PatchTicket _ _ => "PATCH"
  | _ => "POST"
  end.

Definition invalid_token : M response :=
  respond 401 (Failure "INVALID_TOKEN" None (Msg "Invalid or expired token")).

(** [authenticate]: resolves the bearer token to [req.user]. *)
Definition authenticate (now : Z) (a : authorization)
    (next : User.t → M response) : M response :=
  match a with
  | NoBearer =>
      respond 401 (Failure "NO_TOKEN" None (Msg "Access token is required"))
  | InvalidBearer => invalid_token
  | Bearer id =>
      λ s, match Mongoose.cast_id (JStr id) with
           | None => invalid_token s
           | Some o =>
               match users s !! o with
               | None => invalid_token s
               | Some user =>
                   if negb (User.isActive user) then invalid_token s
                   else
                     (* Update last login *)
                     let user := User.with_lastLoginAt (Some now) user in
                     next user (with_users (<[o := user]> (users s)) s)
               end
           end
  end.

(** The route table of the ticket router, with the [authorize] guards the
    routes are registered with.  Each handler is reached by its own route
    constructor.  (In the router as registered, '/:id/assign' comes before
    '/bulk/assign' and its pattern also matches that path; which handler
    Express hands a path to is not part of this embedding.) *)
Definition dispatch (now : Z) (new_id : oid) (user : User.t) (rt : route)
  : M response :=
  match rt with
  | CreateTicket body => post_ticket now new_id user body
  | GetTicket id => get_ticket now user id
  | PatchTicket id body => patch_ticket now user id body
  | AddComment id body => post_comment now user id body
  | Assign id body =>
      authorize ["agent"; "admin"] (Some user) (λ u, post_assign now u id body)
  | SetStatus id body =>
      authorize ["agent"; "admin"] (Some user) (λ u, post_status now u id body)
  | SetPriority id body =>
      authorize ["agent"; "admin"] (Some user) (λ u, post_priority now u id body)
  | BulkAssign body =>
      authorize ["admin"] (Some user) (λ u, post_bulk_assign now u body)
  end.

(** The ticket router: [router.use(authenticate)], then the route. *)
Definition router (now : Z) (new_id : oid) (req : request) : M response :=
  authenticate now (auth req) (λ user, dispatch now new_id user (target req)).

(** An entry of [idempotencyStore]. *)
Record cached := { cachedStatus : Z; cachedBody : body; timestamp : Z }.

(** The process: the database and the in-memory idempotency map. *)
Record world := {
  store : db;
  idempotencyStore : gmap string cached
}.

(** [idempotencyMiddleware(req, res, next)].  [user] is [req.user] as the
    middleware finds it; [next] is the rest of the chain, whose single
    [res.status(..).json(..)] goes through the wrapped [res.json], which
    records it. *)
Definition idempotencyMiddleware (now : Z) (user : option User.t)
    (req : request) (next : db → response * db) (w : world)
  : response * world :=
  (* Only apply to POST requests *)
  if negb (bool_decide (method req = "POST")) then
    let '(r, s') := next (store w) in
    (r, {| store := s'; idempotencyStore := idempotencyStore w |})
  else
    match idempotency_key req with
    | None | Some "" =>
        let '(r, s') := next (store w) in
        (r, {| store := s'; idempotencyStore := idempotencyStore w |})
    | Some idempotencyKey =>
        (* Create a unique key combining user ID and idempotency key *)
        let userKey := match user with
                       | Some u => User._id u
                       | None => "anonymous"
                       end in
        let storeKey := userKey +:+ ":" +:+ idempotencyKey in
        (* Check if we've seen this request before *)
        match idempotencyStore w !! storeKey with
        | Some c =>
            ({| statusCode := cachedStatus c; payload := cachedBody c |}, w)
        | None =>
            let '(r, s') := next (store w) in
            (r, {| store := s';
                   idempotencyStore :=
                     <[storeKey := {| cachedStatus := statusCode r;
                                      cachedBody := payload r;
                                      timestamp := now |}]>
                       (idempotencyStore w) |})
        end
    end.


(** The server entry point mounts [idempotencyMiddleware] with [app.use]
    before the routers, and [authenticate] is installed inside each router:
    when the idempotency middleware runs, nothing has set [req.user]
    yet. *)
Definition app (now : Z) (new_id : oid) (req : request) (w : world)
  : response * world :=
  idempotencyMiddleware now None req (run (router now new_id req)) w.

(* ===================================================================== *)
(** ** Sample data *)
(* ===================================================================== *)

Module Sample.

Definition admin_id : oid := "aaaaaaaaaaaaaaaaaaaaaaaa".
Definition agent_id : oid := "bbbbbbbbbbbbbbbbbbbbbbbb".
Definition john_id : oid := "cccccccccccccccccccccccc".
Definition jane_id : oid := "dddddddddddddddddddddddd".

Definition person (id : oid) (name role : string) : User.t :=
  {| User._id := id; User.name := name; User.role := role;
     User.isActive := true; User.lastLoginAt := None |}.

Definition admin := person admin_id "Admin User" "admin".
Definition agent := person agent_id "Agent Smith" "agent".
Definition john := person john_id "John Doe" "user".
Definition jane := person jane_id "Jane Smith" "user".

Definition directory : gmap oid User.t :=
  <[admin_id := admin]> (<[agent_id := agent]>
    (<[john_id := john]> (<[jane_id := jane]> ∅))).

Definition empty_db : db :=
  {| tickets := ∅; comments := []; timeline := []; users := directory |}.

Definition hour : Z := 60 * 60 * 1000.
Definition T0 : Z := 1700000000000.

Definition t1 : oid := "111111111111111111111111".
Definition t2 : oid := "222222222222222222222222".

(** John files an urgent ticket at [T0]. *)
Definition urgent_body : JS.obj :=
  [("title", JStr "Printer on fire"); ("description", JStr "Smoke in room 4");
   ("priority", JStr "urgent")].

Definition db1 : db := (run (post_ticket T0 t1 john urgent_body) empty_db).2.

(** The ticket as stored in [db1]. *)
Definition ticket1 : Ticket.t :=
  {| Ticket._id := t1; Ticket.title := "Printer on fire";
     Ticket.description := "Smoke in room 4"; Ticket.status := "open";
     Ticket.priority := "urgent"; Ticket.category := "general";
     Ticket.createdBy := john_id; Ticket.assignedTo := Unset;
     Ticket.sla_ :=
       {| Ticket.responseTime := 2; Ticket.resolutionTime := 8;
          Ticket.responseDeadline := Some (T0 + 2 * hour);
          Ticket.resolutionDeadline := Some (T0 + 8 * hour);
          Ticket.isResponseBreached := false;
          Ticket.isResolutionBreached := false |};
     Ticket.tags := []; Ticket.version := 0; Ticket.createdAt := T0;
     Ticket.updatedAt := T0; Ticket.firstResponseAt := None;
     Ticket.resolvedAt := None; Ticket.closedAt := None |}.

(** The admin assigns it to the agent through the assign route. *)
Definition db2 : db :=
  (run (post_assign (T0 + 1) admin t1 [("assignedTo", JStr agent_id)]) db1).2.


Definition post (who : oid) (key : string) (rt : route) : request :=
  {| auth := Bearer who; idempotency_key := Some key; target := rt |}.

Definition fresh_world : world :=
  {| store := empty_db; idempotencyStore := ∅ |}.

End Sample.

(* ===================================================================== *)
(** ** Vocabulary of the statements *)
(* ===================================================================== *)

(** The fields no request path can reach. *)
Definition same_core (x y : Ticket.t) : Prop :=
  Ticket._id y = Ticket._id x
  ∧ Ticket.version y = Ticket.version x
  ∧ Ticket.sla_ y = Ticket.sla_ x
  ∧ Ticket.createdBy y = Ticket.createdBy x
  ∧ Ticket.createdAt y = Ticket.createdAt x
  ∧ Ticket.updatedAt y = Ticket.updatedAt x
  ∧ Ticket.firstResponseAt y = Ticket.firstResponseAt x
  ∧ Ticket.resolvedAt y = Ticket.resolvedAt x
  ∧ Ticket.closedAt y = Ticket.closedAt x.

(** [s'] is [s] with the timeline entries [es], all about ticket [tid],
    appended. *)
Definition logged (tid : oid) (es : list Timeline.t) (s s' : db) : Prop :=
  s' = with_timeline (timeline s ++ es) s
  ∧ Forall (λ e, Timeline.ticket e = tid) es.

(** The fields of an update request that survive the role filter. *)
Definition allowed_updates (user : User.t) (body : JS.obj) : JS.obj :=
  filter_updates (if isAgentOrAdmin user then agent_fields else user_fields)
    (JS.without body "version").

(** The timeline entries written for the tracked changes of an update. *)
Definition log_changes (now : Z) (user : User.t) (x : Ticket.t)
    (changes : list change) : M unit :=
  for_each changes (λ c,
    let* description := change_description c in
    createTimelineEntry now (JOid (Ticket._id x)) (User._id user)
      "updated" description
      [("field", JStr (field c)); ("oldValue", oldValue c);
       ("newValue", newValue c)]).

(** The stored title is in the form the schema's [trim] setter gives. *)
Definition trimmed (x : Ticket.t) : Prop := JS.trim (Ticket.title x) = Ticket.title x.

(** Every response the handler sends itself (as opposed to the one
    [errorHandler] sends for a throw) satisfies [P]. *)
Definition answers (P : response → Prop) (h : M response) : Prop :=
  ∀ s s' r, h s = (s', inr r) → P r.


(** The 400 of the assignee check. *)
Definition invalid_assignee_response : response :=
  {| statusCode := 400;
     payload := Failure "INVALID_ASSIGNEE" None
                  (Msg "Can only assign to agents or admins") |}.

(** No comment of type [comment] on ticket [o] among [cs]. *)
Definition unanswered (o : oid) (cs : list Comment.t) : Prop :=
  ∀ c, c ∈ cs → Comment.ticket c = o → Comment.type c ≠ "comment".

(** In the comment collection [cs] (in creation order), the comments of
    ticket [o] carry the first-response flag exactly where they should: on
    a comment of type [comment] that no comment of type [comment] on the
    same ticket precedes. *)
Definition first_flagged (o : oid) (cs : list Comment.t) : Prop :=
  ∀ before c after, cs = before ++ c :: after → Comment.ticket c = o →
    (Comment.isFirstResponse c = true
     ↔ Comment.type c = "comment" ∧ unanswered o before).

(** The ticket a single-ticket mutation route names. *)
Definition route_ticket (rt : route) : option string :=
  match rt with
  | PatchTicket id _ | AddComment id _ | Assign id _ | SetStatus id _
  | SetPriority id _ => Some id
  | CreateTicket _ | GetTicket _ | BulkAssign _ => None
  end.

(** A branch in which the handler has already sent a response that is
    not the successful one under study. *)
Ltac early H :=
  cbv [forbidden not_found invalid_assignee stale_update respond ret] in H;
  injection H as <- <-; done.

(** Neither breach flag of the ticket is raised. *)
Definition flags_clear (x : Ticket.t) : Prop :=
  Ticket.isResponseBreached (Ticket.sla_ x) = false
  ∧ Ticket.isResolutionBreached (Ticket.sla_ x) = false.

(** No stored ticket has a raised breach flag. *)
Definition no_stored_flag (s : db) : Prop :=
  ∀ o x, tickets s !! o = Some x → flags_clear x.

(** The step [m] keeps [no_stored_flag], whether it returns or throws, and
    the value it returns satisfies [Q]. *)
Definition keeps {A} (m : M A) (Q : A → Prop) : Prop :=
  ∀ s s' r, no_stored_flag s → m s = (s', r) →
    no_stored_flag s' ∧ ∀ a, r = inr a → Q a.

(** The worlds the server can be in: it starts without tickets and serves
    requests one after the other. *)
Inductive reachable : world → Prop :=
| reachable_start w : tickets (store w) = ∅ → reachable w
| reachable_step w now new_id req :
    reachable w → reachable (app now new_id req w).2.

(* ===================================================================== *)
(** ** Stored data: well-formedness and evolution *)
(* ===================================================================== *)

(** Every validator of the ticket schema passes on [x], its title is in
    trimmed form, both deadlines are set, and a resolved (closed) ticket
    carries its [resolvedAt] ([closedAt]) stamp. *)
Definition schema_valid (x : Ticket.t) : Prop :=
  Ticket.first_error x (Ticket.name <$> Ticket.all_paths) = None
  ∧ trimmed x
  ∧ is_Some (Ticket.responseDeadline (Ticket.sla_ x))
  ∧ is_Some (Ticket.resolutionDeadline (Ticket.sla_ x))
  ∧ 0 ≤ Ticket.version x
  ∧ (Ticket.status x = "resolved" → is_Some (Ticket.resolvedAt x))
  ∧ (Ticket.status x = "closed" → is_Some (Ticket.closedAt x)).

(** The collections agree with each other: documents are filed under their
    own [_id], tickets are valid and created by a known user, a ticket with
    a first-response stamp has a comment of type [comment], and comments and
    timeline entries refer to stored tickets. *)
Definition well_formed (s : db) : Prop :=
  (∀ o x, tickets s !! o = Some x →
     Ticket._id x = o ∧ schema_valid x
     ∧ is_Some (users s !! Ticket.createdBy x)
     ∧ (is_Some (Ticket.firstResponseAt x) →
        ∃ c, c ∈ comments s ∧ Comment.ticket c = o ∧ Comment.type c = "comment"))
  ∧ (∀ o u, users s !! o = Some u → User._id u = o)
  ∧ (∀ c, c ∈ comments s → is_Some (tickets s !! Comment.ticket c))
  ∧ (∀ e, e ∈ timeline s → is_Some (tickets s !! Timeline.ticket e)).

(** What a later version [y] of a stored ticket [x] can differ in: the
    identity, the creator, the creation time and the SLA sub-record are
    fixed, the version does not decrease, and a stamp once set stays. *)
Definition grows (x y : Ticket.t) : Prop :=
  Ticket._id y = Ticket._id x
  ∧ Ticket.createdBy y = Ticket.createdBy x
  ∧ Ticket.createdAt y = Ticket.createdAt x
  ∧ Ticket.sla_ y = Ticket.sla_ x
  ∧ Ticket.version x ≤ Ticket.version y
  ∧ (∀ t, Ticket.firstResponseAt x = Some t → Ticket.firstResponseAt y = Some t)
  ∧ (∀ t, Ticket.resolvedAt x = Some t → Ticket.resolvedAt y = Some t)
  ∧ (∀ t, Ticket.closedAt x = Some t → Ticket.closedAt y = Some t).

(** Two user documents that differ at most in [lastLoginAt]. *)
Definition same_account (u v : User.t) : Prop :=
  User._id v = User._id u ∧ User.name v = User.name u
  ∧ User.role v = User.role u ∧ User.isActive v = User.isActive u.

(** The database [s'] is a later state of [s]: the timeline and the
    comments were only appended to, no ticket was removed and each one
    [grows], and the user directory changed in [lastLoginAt] only. *)
Definition evolves (s s' : db) : Prop :=
  timeline s `prefix_of` timeline s'
  ∧ comments s `prefix_of` comments s'
  ∧ (∀ o x, tickets s !! o = Some x → ∃ y, tickets s' !! o = Some y ∧ grows x y)
  ∧ (∀ o u, users s !! o = Some u →
       ∃ v, users s' !! o = Some v ∧ same_account u v)
  ∧ (∀ o, users s !! o = None → users s' !! o = None).

(** The step [m], run in a well-formed database satisfying [P], ends in a
    well-formed later state of it, whether it returns or throws, and the
    value it returns satisfies [Q] there. *)
Definition sound {A} (P : db → Prop) (m : M A) (Q : A → db → Prop) : Prop :=
  ∀ s s' r, well_formed s → P s → m s = (s', r) →
    well_formed s' ∧ evolves s s' ∧ ∀ a, r = inr a → Q a s'.

(** A loaded document [d] of the stored ticket [x0], after assignments:
    the fields no request reaches are those of [x0], and a path either is
    marked modified or holds the value it was loaded with. *)
Definition tracked (x0 : Ticket.t) (d : Ticket.doc) : Prop :=
  Ticket.isNew d = false
  ∧ Ticket._id (Ticket.data d) = Ticket._id x0
  ∧ Ticket.createdBy (Ticket.data d) = Ticket.createdBy x0
  ∧ Ticket.createdAt (Ticket.data d) = Ticket.createdAt x0
  ∧ Ticket.sla_ (Ticket.data d) = Ticket.sla_ x0
  ∧ Ticket.version (Ticket.data d) = Ticket.version x0
  ∧ Ticket.resolvedAt (Ticket.data d) = Ticket.resolvedAt x0
  ∧ Ticket.closedAt (Ticket.data d) = Ticket.closedAt x0
  ∧ (Ticket.firstResponseAt (Ticket.data d) = Ticket.firstResponseAt x0
     ∨ Ticket.firstResponseAt x0 = None)
  ∧ (trimmed x0 → trimmed (Ticket.data d))
  ∧ (∀ p, Ticket.name p ∈ Ticket.modified d
          ∨ Ticket.read p (Ticket.data d) = Ticket.read p x0).

(** The worlds the server goes through from [w], one request after the
    other. *)
Inductive serves (w : world) : world → Prop :=
| serves_refl : serves w w
| serves_step w' now new_id req :
    serves w w' → serves w (app now new_id req w').2.

(** The answer a route gives when it succeeds. *)
Definition success_shape (rt : route) (r : response) : Prop :=
  match rt, payload r with
  | CreateTicket _, TicketOk _ => statusCode r = 201
  | GetTicket _, DetailOk _ _ _ => statusCode r = 200
  | (PatchTicket _ _ | Assign _ _ | SetStatus _ _ | SetPriority _ _), TicketOk _ =>
      statusCode r = 200
  | AddComment _ _, CommentOk _ => statusCode r = 201
  | BulkAssign _, BulkOk msg n =>
      statusCode r = 200 ∧ msg = pretty n +:+ " tickets updated"
  | _, _ => False
  end.

(** The error codes with the status each one is sent with: those of
    [authenticate], those the ticket routes and [authorize] send
    themselves, and those [errorHandler] sends for an error thrown by the
    document layer or the handler. *)
Definition auth_codes : list (string * Z) :=
  [("NO_TOKEN", 401); ("INVALID_TOKEN", 401)].

Definition handler_codes : list (string * Z) :=
  [("FORBIDDEN", 403); ("TICKET_NOT_FOUND", 404); ("STALE_UPDATE", 409);
   ("FIELD_REQUIRED", 400); ("INVALID_STATUS", 400); ("INVALID_PRIORITY", 400);
   ("INVALID_INPUT", 400); ("INVALID_ASSIGNEE", 400)].

Definition thrown_codes : list (string * Z) :=
  [("VALIDATION_ERROR", 400); ("DUPLICATE_FIELD", 400); ("INVALID_ID", 400);
   ("INTERNAL_ERROR", 500)].

Definition failure_shape (codes : list (string * Z)) (r : response) : Prop :=
  ∃ code field m, payload r = Failure code field m
                  ∧ (code, statusCode r) ∈ codes.



(** A response that turns the request down: not authenticated, not
    allowed, no such ticket, stale version. *)
Definition refusal (r : response) : Prop :=
  statusCode r ∈ [401; 403; 404; 409].

(** A handler that has written nothing when it turns the request down. *)
Definition quiet (h : M response) : Prop :=
  ∀ s s' r, h s = (s', inr r) → refusal r → s' = s.

(** The timeline entries POST /bulk/assign writes, one per listed id that
    names a stored ticket. *)
Definition log_bulk (now : Z) (user : User.t) (assignedTo : val)
    (ticketIds : list string) : M unit :=
  for_each ticketIds (λ ticketId,
    let* ticket := Ticket_findById (JStr ticketId) in
    match ticket with
    | Some _ =>
        let* newUser := (if JS.truthy assignedTo
                         then User_findById assignedTo else ret None) in
        createTimelineEntry now (JStr ticketId) (User._id user)
          "assigned"
          ("Ticket "
             +:+ (if JS.truthy assignedTo then "assigned to"
                  else "unassigned from")
             +:+ " " +:+ name_or newUser "agent" +:+ " (bulk operation)")
          [("newAssignee", name_val newUser)]
    | None => ret ()
    end).


(* ===================================================================== *)
(** ** The read side: virtuals, breach listing, agent dashboard *)
(* ===================================================================== *)

(** [ticketSchema.virtual('timeToResponse')] and
    [ticketSchema.virtual('timeToResolution')]: null ([None]) once the
    ticket is answered (resolved), otherwise the milliseconds left until
    the deadline, never negative.  Calling [getTime()] on a deadline that is
    not set throws a TypeError. *)
Definition timeToResponse (now : Z) (x : Ticket.t) : error + option Z :=
  if bool_decide (is_Some (Ticket.firstResponseAt x)) then inr None
  else match Ticket.responseDeadline (Ticket.sla_ x) with
       | Some dl => inr (Some (Z.max 0 (dl - now)))
       | None => inl OtherError
       end.

Definition timeToResolution (now : Z) (x : Ticket.t) : error + option Z :=
  if bool_decide (is_Some (Ticket.resolvedAt x)) then inr None
  else match Ticket.resolutionDeadline (Ticket.sla_ x) with
       | Some dl => inr (Some (Z.max 0 (dl - now)))
       | None => inl OtherError
       end.

(** [Ticket.find(q)] and [Ticket.countDocuments(q)], for a filter [q] on
    the documents of the collection. *)
Definition Ticket_find (q : Ticket.t → bool) (s : db) : list Ticket.t :=
  filter (λ x, q x = true) (map_to_list (tickets s)).*2.

Definition Ticket_countDocuments (q : Ticket.t → bool) (s : db) : Z :=
  Z.of_nat (length (Ticket_find q s)).

(** [.sort({ 'sla.resolutionDeadline': 1 })]: ascending, documents without
    the field first. *)
Definition deadline_leb (x y : Ticket.t) : bool :=
  match Ticket.resolutionDeadline (Ticket.sla_ x),
        Ticket.resolutionDeadline (Ticket.sla_ y) with
  | None, _ => true
  | Some _, None => false
  | Some a, Some b => a <=? b
  end.

Definition deadline_le (x y : Ticket.t) : Prop := deadline_leb x y = true.

#[global] Instance deadline_le_dec : RelDecision deadline_le.
Proof. intros x y. unfold deadline_le. apply _. Defined.

(** GET /api/tickets/sla/breached: the handler registered behind
    [authorize('agent', 'admin')]; it answers 200 with the list.
    ([populate] fills in the two user references of each ticket and drops
    none; it is left out.) *)
Definition get_sla_breached : M (list Ticket.t) :=
  λ s, (s, inr (merge_sort deadline_le
                  (Ticket_find
                     (λ x, Ticket.isResponseBreached (Ticket.sla_ x)
                           || Ticket.isResolutionBreached (Ticket.sla_ x)) s))).

(** GET /api/tickets/agent/dashboard: the handler registered behind
    [authorize('agent', 'admin')]; it answers 200 with the five counts.
    [startOfToday] is [new Date().setHours(0, 0, 0, 0)], the last local
    midnight.  A filter [{ path: null }] matches the documents in which
    the path is not set, [{ path: { $lt: d } }] those in which it is set
    and earlier than [d]. *)
Record stats := {
  assignedToMe : Z;
  inProgress : Z;
  breached : Z;
  pendingResponse : Z;
  resolvedToday : Z
}.

Definition is_unset {A} (v : option A) : bool := negb (bool_decide (is_Some v)).

Definition get_agent_dashboard (now startOfToday : Z) (user : User.t) : M stats :=
  λ s,
    let agentId := User._id user in
    let mine (x : Ticket.t) := bool_decide (Ticket.assignedTo x = Ref agentId) in
    (s, inr
      {| assignedToMe :=
           Ticket_countDocuments
             (λ x, mine x
                   && negb (bool_decide (Ticket.status x ∈ ["closed"; "resolved"]))) s;
         inProgress :=
           Ticket_countDocuments
             (λ x, mine x && bool_decide (Ticket.status x = "in_progress")) s;
         breached :=
           Ticket_countDocuments
             (λ x, mine x
                   && negb (bool_decide (Ticket.status x ∈ ["closed"; "resolved"]))
                   && ((is_unset (Ticket.firstResponseAt x)
                        && Ticket.past now (Ticket.responseDeadline (Ticket.sla_ x)))
                       || (is_unset (Ticket.resolvedAt x)
                           && Ticket.past now
                                (Ticket.resolutionDeadline (Ticket.sla_ x))))) s;
         pendingResponse :=
           Ticket_countDocuments
             (λ x, mine x
                   && bool_decide (Ticket.status x ∈ ["open"; "pending"])
                   && is_unset (Ticket.firstResponseAt x)) s;
         resolvedToday :=
           Ticket_countDocuments
             (λ x, mine x
                   && bool_decide (Ticket.status x = "resolved")
                   && match Ticket.resolvedAt x with
                      | Some t => startOfToday <=? t
                      | None => false
                      end) s |}).

(* ===================================================================== *)
(** ** Failed requests *)
(* ===================================================================== *)





(* ===================================================================== *)
(** ** The audit trail *)
(* ===================================================================== *)

(** The action under which a route files its timeline entries; reading a
    ticket files none. *)
Definition route_action (rt : route) : option string :=
  match rt with
  | CreateTicket _ => Some "created"
  | GetTicket _ => None
  | PatchTicket _ _ => Some "updated"
  | AddComment _ _ => Some "commented"
  | Assign _ _ | BulkAssign _ => Some "assigned"
  | SetStatus _ _ => Some "status_changed"
  | SetPriority _ _ => Some "priority_changed"
  end.

(** A timeline entry filed at [now] by [uid] under [action], and valid. *)
Definition filed (now : Z) (uid : oid) (action : option string)
    (e : Timeline.t) : Prop :=
  Some (Timeline.action e) = action ∧ Timeline.user e = uid
  ∧ Timeline.createdAt e = now ∧ Timeline.validate e = None.

(** A step that only appends to the timeline, and appends entries
    satisfying [P], whether it returns or throws. *)
Definition logs {A} (P : Timeline.t → Prop) (m : M A) : Prop :=
  ∀ s s' r, m s = (s', r) →
    ∃ es, timeline s' = timeline s ++ es ∧ Forall P es.

(* ===================================================================== *)
(** ** The order of registration *)
(* ===================================================================== *)

(** A path pattern of [router.post(pattern, ...)], segment by segment: a
    literal or a [:name] parameter.  Under the router's default options a
    literal is compared without regard to case and a parameter matches any
    non-empty segment. *)
Inductive segment :=
| Lit (s : string)
| Param.

Definition lower_char (a : ascii) : ascii :=
  let n := nat_of_ascii a in
  if (bool_decide (65 ≤ n ≤ 90))%nat then ascii_of_nat (n + 32) else a.

Definition lower (s : string) : string := Mongoose.map_string lower_char s.

(** The parameters a path gives a pattern, if the pattern matches it. *)
Fixpoint match_path (p : list segment) (path : list string)
  : option (list string) :=
  match p, path with
  | [], [] => Some []
  | Lit s :: p', x :: path' =>
      if bool_decide (lower x = lower s) then match_path p' path' else None
  | Param :: p', x :: path' =>
      if bool_decide (x = "") then None else (x ::.) <$> match_path p' path'
  | _, _ => None
  end.

(** The POST routes of the ticket router in the order in which
    [routes/tickets.js] registers them: '/', '/:id/comments',
    '/:id/assign', '/:id/status', '/:id/priority', '/bulk/assign'. *)
Definition post_routes : list (list segment * (list string → JS.obj → route)) :=
  [ ([], λ _ body, CreateTicket body);
    ([Param; Lit "comments"], λ ps body, AddComment (hd "" ps) body);
    ([Param; Lit "assign"], λ ps body, Assign (hd "" ps) body);
    ([Param; Lit "status"], λ ps body, SetStatus (hd "" ps) body);
    ([Param; Lit "priority"], λ ps body, SetPriority (hd "" ps) body);
    ([Lit "bulk"; Lit "assign"], λ _ body, BulkAssign body) ].

(** The router hands a request to the first registered route that matches
    its path; a route whose handler answers, or passes an error on, does
    not hand the request to a later one. *)
Fixpoint first_match (table : list (list segment * (list string → JS.obj → route)))
    (path : list string) (body : JS.obj) : option route :=
  match table with
  | [] => None
  | (p, h) :: table' =>
      match match_path p path with
      | Some ps => Some (h ps body)
      | None => first_match table' path body
      end
  end.

Definition resolve_post (path : list string) (body : JS.obj) : option route :=
  first_match post_routes path body.

(* ===================================================================== *)
(** ** routes/users.js: the role and the status of an account *)
(* ===================================================================== *)










(* ===================================================================== *)
(** * Properties *)
(* ===================================================================== *)

(** ** SLA breach check *)

(** The check only raises flags: each flag after the check is the flag
    before it, or-ed with the breach condition. *)
Lemma checkSLABreaches_flags now x :
  let y := Ticket.checkSLABreaches now x in
  Ticket.isResponseBreached (Ticket.sla_ y)
  = Ticket.isResponseBreached (Ticket.sla_ x)
    || (negb (bool_decide (is_Some (Ticket.firstResponseAt x)))
        && Ticket.past now (Ticket.responseDeadline (Ticket.sla_ x)))
  ∧ Ticket.isResolutionBreached (Ticket.sla_ y)
  = Ticket.isResolutionBreached (Ticket.sla_ x)
    || (negb (bool_decide (is_Some (Ticket.resolvedAt x)))
        && Ticket.past now (Ticket.resolutionDeadline (Ticket.sla_ x))).
Proof.
  unfold Ticket.checkSLABreaches.
  destruct x as [? ? ? ? ? ? ? ? [? ? rd sd rb sb] ? ? ? ? fr rs ?]; simpl.
  destruct (negb (bool_decide (is_Some fr)) && Ticket.past now rd); simpl;
    destruct (negb (bool_decide (is_Some rs)) && Ticket.past now sd); simpl;
    destruct rb, sb; auto.
Qed.





(** ** The handler monad *)

Lemma bind_inv {A B} (m : M A) (k : A → M B) s s' r :
  bind m k s = (s', r) →
  (∃ s1 a, m s = (s1, inr a) ∧ k a s1 = (s', r))
  ∨ (∃ e, m s = (s', inl e) ∧ r = inl e).
Proof.
  unfold bind. destruct (m s) as [s1 [e|a]]; intros H.
  - right. exists e. by simplify_eq.
  - left. by exists s1, a.
Qed.

Lemma run_inv (h : M response) s r s' :
  run h s = (r, s') →
  h s = (s', inr r) ∨ ∃ e, h s = (s', inl e) ∧ r = errorHandler e.
Proof.
  unfold run. destruct (h s) as [s1 [e|a]]; intros H; simplify_eq; eauto.
Qed.

Lemma errorHandler_failure e : is_success (errorHandler e) = false.
Proof. by destruct e. Qed.

Lemma run_success (h : M response) s r s' :
  run h s = (r, s') → is_success r = true → h s = (s', inr r).
Proof.
  intros [H|(e & _ & ->)]%run_inv Hs; [done|].
  by rewrite errorHandler_failure in Hs.
Qed.

Lemma Ticket_findById_spec id o s :
  Mongoose.cast_id (JStr id) = Some o →
  Ticket_findById (JStr id) s = (s, inr (Ticket.loaded <$> tickets s !! o)).
Proof. unfold Ticket_findById. by intros ->. Qed.

Lemma User_findById_state v s s' r : User_findById v s = (s', r) → s' = s.
Proof. unfold User_findById. destruct (Mongoose.cast_id v); by intros [= <- _]. Qed.

(** ** Stale updates *)

(** C2.  An update of an existing ticket that supplies a version other than
    the stored one is answered 409 STALE_UPDATE and leaves the database as
    it was: the ticket is not written and no timeline entry is created. *)
Theorem patch_stale_version now user id body s o x :
  Mongoose.cast_id (JStr id) = Some o →
  tickets s !! o = Some x →
  JS.get body "version" ≠ JUndefined →
  JS.get body "version" ≠ JNum (Ticket.version x) →
  run (patch_ticket now user id body) s
  = ({| statusCode := 409;
        payload := Failure "STALE_UPDATE" None
          (Msg "Ticket has been modified by another user. Please refresh and try again.") |},
     s).
Proof.
  intros Hid Hx Hu Hv. unfold patch_ticket, run, bind.
  rewrite (Ticket_findById_spec _ _ _ Hid), Hx.
  destruct (JS.get body "version") as [| | | n | | |]; try done.
  simpl. rewrite bool_decide_eq_false_2; [done | congruence].
Qed.

Lemma db1_ticket : tickets Sample.db1 !! Sample.t1 = Some Sample.ticket1.
Proof. vm_compute. reflexivity. Qed.

Lemma patch_stale_version_witness :
  run (patch_ticket (Sample.T0 + 1) Sample.agent Sample.t1
         [("version", JNum 7); ("status", JStr "closed")]) Sample.db1
  = ({| statusCode := 409;
        payload := Failure "STALE_UPDATE" None
          (Msg "Ticket has been modified by another user. Please refresh and try again.") |},
     Sample.db1).
Proof.
  apply (patch_stale_version (Sample.T0 + 1) Sample.agent Sample.t1
           [("version", JNum 7); ("status", JStr "closed")]
           Sample.db1 Sample.t1 Sample.ticket1).
  - reflexivity.
  - vm_compute. reflexivity.
  - simpl. discriminate.
  - simpl. discriminate.
Defined.

(** ** SLA deadlines and priority changes *)

(** The save hook computes the deadlines of a new document only: on a
    loaded document it leaves the SLA sub-record as it is. *)
Lemma pre_save_loaded_sla now d :
  Ticket.isNew d = false →
  Ticket.sla_ (Ticket.data (Ticket.pre_save now d)) = Ticket.sla_ (Ticket.data d).
Proof.
  intros Hn. unfold Ticket.pre_save. rewrite Hn. simpl.
  repeat (case_match; simpl); reflexivity.
Qed.

(** C3: the code at the failing input.  The urgent ticket created at [T0]
    (deadlines [T0+2h] and [T0+8h]) is set to [low] at [T0+4h], through
    the priority route and through an update.  Both answer 200 and store the
    new priority, and both leave the hour figures and the two deadlines of
    the creation in place; the deadlines are not [(T0+4h)+48h] and
    [(T0+4h)+168h]. *)
Theorem priority_change_keeps_deadlines :
  let now := Sample.T0 + 4 * Sample.hour in
  let via_route :=
    run (dispatch now Sample.t2 Sample.agent
           (SetPriority Sample.t1 [("priority", JStr "low")])) Sample.db1 in
  let via_update :=
    run (dispatch now Sample.t2 Sample.agent
           (PatchTicket Sample.t1 [("priority", JStr "low")])) Sample.db1 in
  let stored :=
    Ticket.with_version 1
      (Ticket.with_updatedAt now (Ticket.with_priority "low" Sample.ticket1)) in
  statusCode via_route.1 = 200
  ∧ tickets via_route.2 !! Sample.t1 = Some stored
  ∧ statusCode via_update.1 = 200
  ∧ tickets via_update.2 !! Sample.t1 = Some stored
  ∧ Ticket.priority stored = "low"
  ∧ Ticket.responseTime (Ticket.sla_ stored) = 2
  ∧ Ticket.resolutionTime (Ticket.sla_ stored) = 8
  ∧ Ticket.responseDeadline (Ticket.sla_ stored) = Some (Sample.T0 + 2 * Sample.hour)
  ∧ Ticket.resolutionDeadline (Ticket.sla_ stored) = Some (Sample.T0 + 8 * Sample.hour)
  ∧ Ticket.responseDeadline (Ticket.sla_ stored) ≠ Some (now + 48 * Sample.hour)
  ∧ Ticket.resolutionDeadline (Ticket.sla_ stored) ≠ Some (now + 168 * Sample.hour).
Proof.
  intros now via_route via_update stored.
  split; [by vm_compute|]. split; [by vm_compute|].
  split; [by vm_compute|]. split; [by vm_compute|].
  repeat split; by vm_compute.
Qed.

(** ** The idempotency cache *)

(** The key under which [app] files a response does not mention the
    actor. *)
Lemma app_miss now new_id req w k :
  method req = "POST" → idempotency_key req = Some k → k ≠ "" →
  idempotencyStore w !! ("anonymous" +:+ ":" +:+ k) = None →
  let out := run (router now new_id req) (store w) in
  app now new_id req w
  = (out.1,
     {| store := out.2;
        idempotencyStore :=
          <["anonymous" +:+ ":" +:+ k :=
              {| cachedStatus := statusCode out.1; cachedBody := payload out.1;
                 timestamp := now |}]> (idempotencyStore w) |}).
Proof.
  intros Hm Hk Hne Hmiss. unfold app, idempotencyMiddleware.
  rewrite Hm, Hk. simpl. destruct k as [|a k]; [done|].
  simpl in Hmiss |- *. rewrite Hmiss.
  by destruct (run (router now new_id req) (store w)).
Qed.

(** A hit replays the recorded status and body and touches nothing: no
    handler runs, so no ticket is written and no version moves. *)
Lemma app_hit now new_id req w k c :
  method req = "POST" → idempotency_key req = Some k → k ≠ "" →
  idempotencyStore w !! ("anonymous" +:+ ":" +:+ k) = Some c →
  app now new_id req w
  = ({| statusCode := cachedStatus c; payload := cachedBody c |}, w).
Proof.
  intros Hm Hk Hne Hhit. unfold app, idempotencyMiddleware.
  rewrite Hm, Hk. simpl. destruct k as [|a k]; [done|].
  simpl in Hhit |- *. by rewrite Hhit.
Qed.

(** Replaying a request: the second answer is the first one, and the world
    after the replay is the world after the first request. *)
Lemma app_replay now now' new_id new_id' req w k :
  method req = "POST" → idempotency_key req = Some k → k ≠ "" →
  idempotencyStore w !! ("anonymous" +:+ ":" +:+ k) = None →
  let first := app now new_id req w in
  app now' new_id' req first.2 = first.
Proof.
  intros Hm Hk Hne Hmiss first. subst first.
  rewrite (app_miss now new_id req w k Hm Hk Hne Hmiss). simpl.
  erewrite app_hit; [| done | done | done | simpl; apply lookup_insert_eq].
  simpl. f_equal. by destruct (run (router now new_id req) (store w)).1.
Qed.

(** C4: the code at the failing input.  John and Jane, two distinct
    authenticated users, each post a new ticket with the same
    Idempotency-Key.  The entry is filed under ["anonymous:retry-1"]; Jane is
    answered with John's recorded response (the ticket John created), and
    no ticket is created for her. *)
Theorem idempotency_key_shared_between_actors :
  let johns := Sample.post Sample.john_id "retry-1" (CreateTicket Sample.urgent_body) in
  let janes := Sample.post Sample.jane_id "retry-1"
                 (CreateTicket [("title", JStr "VPN down");
                                ("description", JStr "Cannot connect")]) in
  let first := app Sample.T0 Sample.t1 johns Sample.fresh_world in
  let second := app (Sample.T0 + 1) Sample.t2 janes first.2 in
  Sample.john_id ≠ Sample.jane_id
  ∧ statusCode first.1 = 201
  ∧ (∃ x, payload first.1 = TicketOk x ∧ Ticket.createdBy x = Sample.john_id)
  ∧ dom (idempotencyStore first.2) = {["anonymous:retry-1"]}
  ∧ second.1 = first.1
  ∧ tickets (store second.2) !! Sample.t2 = None
  ∧ second.2 = first.2.
Proof.
  intros johns janes first second.
  split; [done|]. split; [by vm_compute|].
  split; [eexists; split; by vm_compute|].
  split; [by vm_compute|].
  split; [by vm_compute|]. split; by vm_compute.
Qed.

(** ** Documents: assignment, the save hook, save *)

Lemma same_core_refl x : same_core x x.
Proof. by repeat split. Qed.

Lemma same_core_trans x y z : same_core x y → same_core y z → same_core x z.
Proof. unfold same_core. intros. destruct_and!. repeat split; congruence. Qed.

Lemma put_same_core p v x x' : Ticket.put p v x = Some x' → same_core x x'.
Proof.
  destruct p; simpl; intros H; simplify_option_eq; by repeat split.
Qed.

Lemma put_status p v x x' :
  p ≠ Ticket.Status → Ticket.put p v x = Some x' → Ticket.status x' = Ticket.status x.
Proof. destruct p; simpl; intros ? H; simplify_option_eq; done. Qed.

Lemma assign_isNew p v d : Ticket.isNew (Ticket.assign p v d) = Ticket.isNew d.
Proof.
  unfold Ticket.assign. destruct (Ticket.put p v (Ticket.data d)); [|done].
  by case_match.
Qed.

Lemma assign_same_core p v d :
  same_core (Ticket.data d) (Ticket.data (Ticket.assign p v d)).
Proof.
  unfold Ticket.assign.
  destruct (Ticket.put p v (Ticket.data d)) as [x'|] eqn:E;
    [|apply same_core_refl].
  case_match; [|apply same_core_refl]. simpl. by eapply put_same_core.
Qed.

(** Assigning the value a path already holds changes nothing, provided the
    stored title is in the trimmed form the schema's setter gives it. *)
Lemma put_same_value p v x :
  JS.trim (Ticket.title x) = Ticket.title x →
  JS.strict_eq (Ticket.read p x) v = true →
  Ticket.put p v x = Some x.
Proof.
  intros Ht. destruct x; simpl in Ht.
  destruct p; simpl; destruct v; simpl; try done;
    try (intros ->%bool_decide_eq_true; simpl; rewrite ?Ht; reflexivity);
    by destruct assignedTo.
Qed.

Lemma assign_same_value p v x :
  JS.trim (Ticket.title x) = Ticket.title x →
  JS.strict_eq (Ticket.read p x) v = true →
  Ticket.assign p v (Ticket.loaded x) = Ticket.loaded x.
Proof.
  intros Ht He. unfold Ticket.assign. simpl.
  rewrite (put_same_value p v x Ht He). simpl.
  by rewrite bool_decide_eq_true_2.
Qed.

(** The save hook on a loaded document. *)
Lemma pre_save_unmodified now d :
  Ticket.isNew d = false → Ticket.modified d = [] → Ticket.pre_save now d = d.
Proof.
  destruct d as [x n m i]. simpl. intros -> ->. reflexivity.
Qed.

Lemma pre_save_modified now d :
  Ticket.isNew d = false → Ticket.modified d ≠ [] →
  let x := Ticket.data d in
  let y := Ticket.data (Ticket.pre_save now d) in
  Ticket._id y = Ticket._id x
  ∧ Ticket.version y = Ticket.version x + 1
  ∧ Ticket.updatedAt y = now
  ∧ Ticket.sla_ y = Ticket.sla_ x
  ∧ Ticket.firstResponseAt y = Ticket.firstResponseAt x
  ∧ Ticket.assignedTo y = Ticket.assignedTo x
  ∧ Ticket.status y = Ticket.status x
  ∧ Ticket.priority y = Ticket.priority x.
Proof.
  destruct d as [x n m i]. simpl. intros -> Hm.
  destruct m as [|k m]; [done|].
  unfold Ticket.pre_save, Ticket.isModified, Ticket.isModified_path. simpl.
  repeat (case_match; simpl); done.
Qed.

(** [save] on a loaded document: it throws and writes nothing, or the
    document had no modified path and nothing is written, or the document
    as the hook left it replaces the stored one. *)
Lemma save_loaded now d s s' r :
  Ticket.isNew d = false →
  save now d s = (s', r) →
  (∃ e, r = inl e ∧ s' = s)
  ∨ (Ticket.modified d = [] ∧ r = inr d ∧ s' = s)
  ∨ (Ticket.modified d ≠ [] ∧ r = inr (committed (Ticket.pre_save now d))
     ∧ s' = with_tickets
              (<[Ticket._id (Ticket.data d) := Ticket.data (Ticket.pre_save now d)]>
                 (tickets s)) s).
Proof.
  intros Hn. unfold save.
  destruct (Ticket.validate d) as [e|]; [intros [= <- <-]; eauto|].
  destruct (Ticket.modified d) as [|k ks] eqn:Hm.
  - rewrite (pre_save_unmodified now d Hn Hm), Hn.
    unfold Ticket.isModified. rewrite Hm. simpl. intros [= <- <-]. eauto.
  - assert (Ticket.modified d ≠ []) as Hne by (by rewrite Hm).
    destruct (pre_save_modified now d Hn Hne) as (Hid & _).
    assert (Ticket.isNew (Ticket.pre_save now d) = false
            ∧ Ticket.isModified (Ticket.pre_save now d) = true) as [-> ->].
    { clear Hid Hne. destruct d as [x n m i]. simpl in *. subst.
      unfold Ticket.pre_save, Ticket.isModified, Ticket.isModified_path,
        Ticket.mark. simpl.
      repeat (case_match; simpl); split; try done;
        apply negb_true_iff, bool_decide_eq_false; by destruct ks. }
    rewrite Hid. intros [= <- <-]. right. right. done.
Qed.

(** ** Objects *)

Lemma set_keys o k v :
  JS.keys (JS.set o k v)
  = if bool_decide (k ∈ JS.keys o) then JS.keys o else JS.keys o ++ [k].
Proof.
  unfold JS.keys. induction o as [|[k' v'] o IH]; [done|].
  cbn [JS.set]. destruct (bool_decide_reflect (k' = k)) as [->|Hne].
  - rewrite !fmap_cons. cbn [fst].
    rewrite bool_decide_eq_true_2; [done | apply elem_of_cons; by left].
  - rewrite !fmap_cons. cbn [fst]. rewrite IH.
    destruct (bool_decide_reflect (k ∈ o.*1)) as [Hin|Hnin].
    + rewrite bool_decide_eq_true_2; [done | apply elem_of_cons; by right].
    + rewrite bool_decide_eq_false_2; [done|].
      intros [?|?]%elem_of_cons; congruence.
Qed.

Lemma set_keys_NoDup o k v : NoDup (JS.keys o) → NoDup (JS.keys (JS.set o k v)).
Proof.
  intros Hnd. rewrite set_keys. case_bool_decide; [done|].
  apply NoDup_app. split; [done|]. split; [|apply NoDup_singleton].
  intros x Hx ->%list_elem_of_singleton. done.
Qed.

Lemma get_entry o k v : NoDup (JS.keys o) → (k, v) ∈ o → JS.get o k = v.
Proof.
  unfold JS.keys. induction o as [|[k' v'] o IH]; simpl; [by intros _ ?%elem_of_nil|].
  intros [Hnin Hnd]%NoDup_cons [Heq|Hin]%elem_of_cons.
  - simplify_eq. by rewrite bool_decide_eq_true_2.
  - rewrite bool_decide_eq_false_2; [by apply IH|].
    intros ->. apply Hnin. apply list_elem_of_fmap. by exists (k, v).
Qed.

Lemma filter_updates_fold (allowed : list string) updates acc ks :
  NoDup (JS.keys acc) →
  (∀ k, k ∈ JS.keys acc → k ∈ allowed) →
  let out := foldl (λ filteredUpdates key,
                      if bool_decide (key ∈ allowed)
                      then JS.set filteredUpdates key (JS.get updates key)
                      else filteredUpdates) acc ks in
  NoDup (JS.keys out) ∧ (∀ k, k ∈ JS.keys out → k ∈ allowed).
Proof.
  revert acc. induction ks as [|k ks IH]; intros acc Hnd Hin; simpl; [done|].
  apply IH.
  - case_bool_decide; [by apply set_keys_NoDup | done].
  - intros k'. case_bool_decide; [|by apply Hin].
    rewrite set_keys. case_bool_decide; [by apply Hin|].
    intros [?| ->%list_elem_of_singleton]%elem_of_app; [by apply Hin | done].
Qed.

Lemma filter_updates_NoDup (allowed : list string) updates :
  NoDup (JS.keys (filter_updates allowed updates)).
Proof.
  apply (filter_updates_fold allowed updates []); [apply NoDup_nil_2|].
  by intros k ?%elem_of_nil.
Qed.

Lemma filter_updates_allowed (allowed : list string) updates k :
  k ∈ JS.keys (filter_updates allowed updates) → k ∈ allowed.
Proof.
  revert k. apply (filter_updates_fold allowed updates []); [apply NoDup_nil_2|].
  by intros k ?%elem_of_nil.
Qed.

(** A request none of whose fields is allowed leaves nothing to apply. *)
Lemma filter_updates_none (allowed : list string) updates :
  (∀ k, k ∈ JS.keys updates → k ∉ allowed) →
  filter_updates allowed updates = [].
Proof.
  unfold filter_updates. generalize (JS.keys updates) as ks.
  induction ks as [|k ks IH]; intros H; simpl; [done|].
  rewrite bool_decide_eq_false_2 by (apply H, elem_of_cons; by left).
  apply IH. intros k' Hk'. apply H, elem_of_cons. by right.
Qed.

Lemma track_changes_fold x fu acc ks :
  foldl (λ changes key,
           if negb (JS.strict_eq (ticket_get x key) (JS.get fu key))
           then changes ++ [{| field := key; oldValue := ticket_get x key;
                               newValue := JS.get fu key |}]
           else changes) acc ks
  = acc ++ foldl (λ changes key,
           if negb (JS.strict_eq (ticket_get x key) (JS.get fu key))
           then changes ++ [{| field := key; oldValue := ticket_get x key;
                               newValue := JS.get fu key |}]
           else changes) [] ks.
Proof.
  revert acc. induction ks as [|k ks IH]; intros acc; simpl.
  - by rewrite app_nil_r.
  - rewrite IH. symmetry. rewrite IH. symmetry.
    destruct (JS.strict_eq _ _); simpl; [done|]. by rewrite <- app_assoc.
Qed.

(** No change is tracked exactly when every filtered field is strictly
    equal to the value the ticket holds. *)
Lemma track_changes_nil x fu :
  track_changes x fu = []
  ↔ ∀ k, k ∈ JS.keys fu → JS.strict_eq (ticket_get x k) (JS.get fu k) = true.
Proof.
  unfold track_changes. generalize (JS.keys fu) as ks.
  induction ks as [|k ks IH]; simpl.
  - split; [by intros _ k ?%elem_of_nil | done].
  - rewrite track_changes_fold.
    destruct (JS.strict_eq (ticket_get x k) (JS.get fu k)) eqn:E; simpl.
    + rewrite IH. split.
      * intros H k' [->|?]%elem_of_cons; [done | by apply H].
      * intros H k' Hk'. apply H, elem_of_cons. by right.
    + split; [done|].
      intros H. specialize (H k). rewrite E in H. discriminate H.
      apply elem_of_cons. by left.
Qed.

Lemma of_key_name k p : Ticket.of_key k = Some p → Ticket.name p = k.
Proof.
  unfold Ticket.of_key.
  destruct (list_find _ _) as [[i p']|] eqn:E; [|done].
  intros H. cbn in H. injection H as <-.
  by apply list_find_Some in E as (_ & ? & _).
Qed.

(** Applying fields that all hold their current value leaves the loaded
    document untouched: no path is marked modified. *)
Lemma assign_all_same x fu :
  JS.trim (Ticket.title x) = Ticket.title x →
  NoDup (JS.keys fu) →
  track_changes x fu = [] →
  assign_all fu (Ticket.loaded x) = Ticket.loaded x.
Proof.
  intros Ht Hnd Hch. rewrite track_changes_nil in Hch.
  assert (∀ k v, (k, v) ∈ fu → JS.strict_eq (ticket_get x k) v = true) as H.
  { intros k v Hin. rewrite <- (get_entry fu k v Hnd Hin). apply Hch.
    apply list_elem_of_fmap. by exists (k, v). }
  clear Hch Hnd. unfold assign_all.
  induction fu as [|[k v] fu IH]; simpl; [done|].
  destruct (Ticket.of_key k) as [p|] eqn:Ek.
  - rewrite assign_same_value; [apply IH; intros; apply H; set_solver | done |].
    specialize (H k v). unfold ticket_get in H. rewrite Ek in H.
    apply H. set_solver.
  - apply IH. intros. apply H. set_solver.
Qed.

(** ** The audit log *)

Lemma logged_nil tid s : logged tid [] s s.
Proof. split; [|done]. destruct s. unfold with_timeline. simpl. by rewrite app_nil_r. Qed.

Lemma logged_app tid es1 es2 s s1 s2 :
  logged tid es1 s s1 → logged tid es2 s1 s2 → logged tid (es1 ++ es2) s s2.
Proof.
  intros [-> H1] [-> H2]. split; [|by apply Forall_app].
  unfold with_timeline. simpl. by rewrite app_assoc.
Qed.

Lemma logged_tickets tid es s s' : logged tid es s s' → tickets s' = tickets s.
Proof. by intros [-> _]. Qed.

Lemma logged_timeline tid es s s' :
  logged tid es s s' → timeline s' = timeline s ++ es.
Proof. by intros [-> _]. Qed.

Lemma createTimelineEntry_inv now tv tid uid action description details s s' r :
  Mongoose.cast_id tv = Some tid →
  createTimelineEntry now tv uid action description details s = (s', r) →
  (∃ e, r = inr () ∧ logged tid [e] s s' ∧ Timeline.action e = action)
  ∨ (∃ err, r = inl err ∧ s' = s).
Proof.
  intros Hc. unfold createTimelineEntry. rewrite Hc.
  destruct (Timeline.validate _) as [err|]; intros [= <- <-]; [eauto|].
  left. eexists. split; [done|].
  split; [split; [reflexivity | by apply Forall_singleton] | reflexivity].
Qed.

Lemma maybe_find_state v s s' r :
  (if JS.truthy v then User_findById v else ret None) s = (s', r) → s' = s.
Proof.
  destruct (JS.truthy v); [apply User_findById_state | by intros [= <- _]].
Qed.

Lemma change_description_state c s s' r : change_description c s = (s', r) → s' = s.
Proof.
  unfold change_description. repeat case_bool_decide; try by intros [= <- _].
  intros [(s1 & a & Ha & [(s2 & b & Hb & Hc)|(e & Hb & _)]%bind_inv)
         |(e & Ha & _)]%bind_inv.
  - injection Hc as <- _. apply maybe_find_state in Ha as ->.
    by apply maybe_find_state in Hb.
  - apply maybe_find_state in Ha as ->. by apply maybe_find_state in Hb.
  - by apply maybe_find_state in Ha.
Qed.

(** The entries written for the tracked changes: one per change when the
    loop completes, all about the updated ticket. *)
Lemma log_changes_inv now user x changes s s' r :
  Mongoose.cast_id (JOid (Ticket._id x)) = Some (Ticket._id x) →
  log_changes now user x changes s = (s', r) →
  ∃ es, logged (Ticket._id x) es s s'
        ∧ (r = inr () → length es = length changes).
Proof.
  intros Hc. unfold log_changes. revert s.
  induction changes as [|c cs IH]; intros s; simpl.
  - intros [= <- <-]. exists []. split; [apply logged_nil | done].
  - intros [(s1 & [] & H1 & H2)|(e & H1 & ->)]%bind_inv.
    + apply bind_inv in H1 as [(s0 & desc & Hd & He)|(e & Hd & ?)]; [|done].
      apply change_description_state in Hd as ->.
      eapply createTimelineEntry_inv in He as [(e & _ & Hl & _)|(? & ? & _)];
        [|done|done].
      destruct (IH _ H2) as (es & Hes & Hlen).
      exists ([e] ++ es). split; [by eapply logged_app|].
      intros Hr. simpl. by rewrite Hlen.
    + apply bind_inv in H1 as [(s0 & desc & Hd & He)|(e' & Hd & ?)].
      * apply change_description_state in Hd as ->.
        eapply createTimelineEntry_inv in He as [(? & ? & _)|(? & _ & ->)];
          [done| |done].
        exists []. split; [apply logged_nil | done].
      * apply change_description_state in Hd as ->.
        exists []. split; [apply logged_nil | done].
Qed.

(** ** Updates (PATCH) *)

Lemma assign_all_isNew fu d :
  Ticket.isNew (assign_all fu d) = Ticket.isNew d.
Proof.
  unfold assign_all. revert d. induction fu as [|[k v] fu IH]; intros d; simpl; [done|].
  rewrite IH. destruct (Ticket.of_key k); [apply assign_isNew | done].
Qed.

Lemma assign_all_same_core fu d :
  same_core (Ticket.data d) (Ticket.data (assign_all fu d)).
Proof.
  unfold assign_all. revert d.
  induction fu as [|[k v] fu IH]; intros d; simpl; [apply same_core_refl|].
  eapply same_core_trans; [|apply IH].
  destruct (Ticket.of_key k); [apply assign_same_core | apply same_core_refl].
Qed.

Lemma gate_open x user :
  Ticket.createdBy x = User._id user ∨ isAgentOrAdmin user = true →
  negb (bool_decide (Ticket.createdBy x = User._id user))
  && negb (isAgentOrAdmin user) = false.
Proof.
  intros [Hp|Hp].
  - by rewrite (bool_decide_eq_true_2 _ Hp).
  - rewrite Hp. apply andb_false_r.
Qed.

(** The request past its two gates: a version that is absent or current,
    an actor who is the creator or an agent or admin. *)
Lemma patch_ticket_checked now user id body s o x :
  Mongoose.cast_id (JStr id) = Some o →
  tickets s !! o = Some x →
  JS.get body "version" = JUndefined
  ∨ JS.get body "version" = JNum (Ticket.version x) →
  patch_ticket now user id body s
  = (if negb (bool_decide (Ticket.createdBy x = User._id user))
        && negb (isAgentOrAdmin user)
     then forbidden "Access denied"
     else
       let* ticket := save now (assign_all (allowed_updates user body)
                                  (Ticket.loaded x)) in
       log_changes now user x (track_changes x (allowed_updates user body)) ;;
       respond 200 (TicketOk (Ticket.data ticket))) s.
Proof.
  intros Hid Hx Hv. unfold patch_ticket. unfold bind at 1.
  rewrite (Ticket_findById_spec _ _ _ Hid), Hx. simpl.
  destruct Hv as [-> | ->]; simpl; [done|].
  by rewrite bool_decide_eq_true_2.
Qed.

Lemma patch_ticket_stale now user id body s o x :
  Mongoose.cast_id (JStr id) = Some o →
  tickets s !! o = Some x →
  JS.get body "version" ≠ JUndefined →
  JS.get body "version" ≠ JNum (Ticket.version x) →
  patch_ticket now user id body s = stale_update s.
Proof.
  intros Hid Hx Hu Hv. unfold patch_ticket, bind.
  rewrite (Ticket_findById_spec _ _ _ Hid), Hx.
  destruct (JS.get body "version") as [| | | n | | |]; try done.
  simpl. rewrite bool_decide_eq_false_2; [done | congruence].
Qed.

(** What an update past its gates can do: [save] throws and nothing is
    written; or the document is saved and the entries of the tracked
    changes are appended, all of them when the answer is the 200. *)
Lemma patch_outcome now user id body s o x r s' :
  Mongoose.cast_id (JStr id) = Some o →
  tickets s !! o = Some x →
  Ticket._id x = o →
  JS.get body "version" = JUndefined
  ∨ JS.get body "version" = JNum (Ticket.version x) →
  Ticket.createdBy x = User._id user ∨ isAgentOrAdmin user = true →
  run (patch_ticket now user id body) s = (r, s') →
  let fu := allowed_updates user body in
  let d := assign_all fu (Ticket.loaded x) in
  (∃ e, save now d s = (s, inl e) ∧ r = errorHandler e ∧ s' = s)
  ∨ (∃ s1 d1 es, save now d s = (s1, inr d1) ∧ logged o es s1 s'
       ∧ (r = {| statusCode := 200; payload := TicketOk (Ticket.data d1) |}
            ∧ length es = length (track_changes x fu)
          ∨ is_success r = false)).
Proof.
  intros Hid Hx Hxo Hv Hp Hrun fu d. unfold run in Hrun.
  rewrite (patch_ticket_checked _ _ _ _ _ _ _ Hid Hx Hv) in Hrun.
  rewrite (gate_open _ _ Hp) in Hrun. fold fu d in Hrun.
  destruct (bind _ _ s) as [s2 res] eqn:Hb.
  apply bind_inv in Hb as [(s1 & d1 & Hsave & Hrest)|(e & Hsave & ->)].
  - right. exists s1, d1.
    apply bind_inv in Hrest as [(s3 & [] & Hlog & Hresp)|(e & Hlog & ->)].
    + injection Hresp as <- <-. injection Hrun as <- <-.
      eapply log_changes_inv in Hlog as (es & Hes & Hlen); [|done].
      rewrite Hxo in Hes. exists es. split; [done|]. split; [done|].
      left. split; [done|]. by apply Hlen.
    + injection Hrun as <- <-.
      eapply log_changes_inv in Hlog as (es & Hes & _); [|done].
      rewrite Hxo in Hes. exists es. split; [done|]. split; [done|].
      right. apply errorHandler_failure.
  - injection Hrun as <- <-. left. exists e.
    assert (s2 = s) as ->; [|done].
    eapply save_loaded in Hsave as [(? & _ & ->)|[(_ & ? & _)|(_ & ? & _)]];
      [done|done|done|].
    unfold d. by rewrite assign_all_isNew.
Qed.

(** An update that tracks no change and leaves the loaded document
    untouched answers 200 with the ticket as stored and leaves the
    database as it was. *)
Lemma patch_untouched now user id body s o x :
  Mongoose.cast_id (JStr id) = Some o →
  tickets s !! o = Some x →
  JS.get body "version" = JUndefined
  ∨ JS.get body "version" = JNum (Ticket.version x) →
  Ticket.createdBy x = User._id user ∨ isAgentOrAdmin user = true →
  track_changes x (allowed_updates user body) = [] →
  assign_all (allowed_updates user body) (Ticket.loaded x) = Ticket.loaded x →
  run (patch_ticket now user id body) s
  = ({| statusCode := 200; payload := TicketOk x |}, s).
Proof.
  intros Hid Hx Hv Hp Hch Hd. unfold run.
  rewrite (patch_ticket_checked _ _ _ _ _ _ _ Hid Hx Hv).
  rewrite (gate_open _ _ Hp). rewrite Hch, Hd.
  unfold bind, save. simpl. destruct s; reflexivity.
Qed.

(** An update whose allowed fields are all strictly equal to the values the
    ticket holds is such an update. *)
Lemma patch_no_change now user id body s o x :
  Mongoose.cast_id (JStr id) = Some o →
  tickets s !! o = Some x →
  trimmed x →
  JS.get body "version" = JUndefined
  ∨ JS.get body "version" = JNum (Ticket.version x) →
  Ticket.createdBy x = User._id user ∨ isAgentOrAdmin user = true →
  track_changes x (allowed_updates user body) = [] →
  run (patch_ticket now user id body) s
  = ({| statusCode := 200; payload := TicketOk x |}, s).
Proof.
  intros Hid Hx Ht Hv Hp Hch.
  apply (patch_untouched _ _ _ _ _ _ _ Hid Hx Hv Hp Hch).
  apply assign_all_same; [done | apply filter_updates_NoDup | done].
Qed.

Lemma answers_bind {A} P (m : M A) (k : A → M response) :
  (∀ a, answers P (k a)) → answers P (bind m k).
Proof.
  intros Hk s s' r [(s1 & a & _ & Hr)|(e & _ & ?)]%bind_inv; [|done].
  by eapply Hk.
Qed.

Lemma answers_respond (P : response → Prop) c b :
  P {| statusCode := c; payload := b |} → answers P (respond c b).
Proof. intros HP s s' r [= <- <-]. done. Qed.



Lemma run_ext (h h' : M response) s : h s = h' s → run h s = run h' s.
Proof. unfold run. by intros ->. Qed.





(** ** Field filtering by role *)

Lemma assign_keeps_status p v d :
  p ≠ Ticket.Status →
  Ticket.status (Ticket.data (Ticket.assign p v d)) = Ticket.status (Ticket.data d).
Proof.
  intros Hp. unfold Ticket.assign.
  destruct (Ticket.put p v (Ticket.data d)) as [x'|] eqn:E; [|done].
  case_match; [|done]. simpl. by eapply put_status.
Qed.

Lemma assign_all_keeps_status fu d :
  (∀ k, k ∈ JS.keys fu → k ≠ "status") →
  Ticket.status (Ticket.data (assign_all fu d)) = Ticket.status (Ticket.data d).
Proof.
  unfold assign_all. revert d.
  induction fu as [|[k v] fu IH]; intros d Hk; simpl; [done|].
  rewrite IH by (intros k' Hk'; apply Hk, elem_of_cons; by right).
  destruct (Ticket.of_key k) as [p|] eqn:E; [|done].
  apply assign_keeps_status. intros ->.
  apply of_key_name in E. simpl in E. subst k.
  apply (Hk "status"); [|done]. apply elem_of_cons. by left.
Qed.

Lemma without_keys body k k' :
  k ∈ JS.keys (JS.without body k') → k ∈ JS.keys body.
Proof.
  unfold JS.keys, JS.without.
  intros ([k1 v] & -> & [_ Hin]%list_elem_of_filter)%list_elem_of_fmap.
  apply list_elem_of_fmap. by exists (k1, v).
Qed.

(** C8 (as amended).  The ticket's creator, of role [user], sends an update
    that passes the version check.  Whatever the body, the stored ticket
    keeps its status: a [status] field is dropped, not applied.  And when
    the body has no field of the creator's allowed set ([title],
    [description]), the call answers 200 with the ticket as stored, and
    nothing is written and no timeline entry is created. *)
Theorem owner_update_drops_status now user id body s o x r s' :
  Mongoose.cast_id (JStr id) = Some o →
  tickets s !! o = Some x →
  Ticket._id x = o →
  User.role user = "user" →
  Ticket.createdBy x = User._id user →
  JS.get body "version" = JUndefined
  ∨ JS.get body "version" = JNum (Ticket.version x) →
  run (patch_ticket now user id body) s = (r, s') →
  (∃ x', tickets s' !! o = Some x' ∧ Ticket.status x' = Ticket.status x)
  ∧ ((∀ k, k ∈ JS.keys body → k ∉ user_fields) →
     r = {| statusCode := 200; payload := TicketOk x |} ∧ s' = s).
Proof.
  intros Hid Hx Hxo Hrole Hown Hv Hrun.
  assert (isAgentOrAdmin user = false) as Hna.
  { unfold isAgentOrAdmin. by rewrite Hrole. }
  split.
  - eapply patch_outcome in Hrun as
      [(e & _ & _ & ->)|(s1 & d1 & es & Hsave & Hlog & _)]; eauto.
    apply logged_tickets in Hlog. rewrite Hlog.
    apply save_loaded in Hsave as [(? & _ & ->)|[(_ & _ & ->)|(Hm & _ & ->)]];
      eauto; [|by rewrite assign_all_isNew].
    simpl. destruct (assign_all_same_core (allowed_updates user body)
                       (Ticket.loaded x)) as (Hi & _).
    simpl in Hi. rewrite Hi, Hxo, lookup_insert_eq. eexists. split; [done|].
    destruct (pre_save_modified now _ (assign_all_isNew _ (Ticket.loaded x)) Hm)
      as (_ & _ & _ & _ & _ & _ & -> & _).
    rewrite assign_all_keeps_status; [done|].
    intros k Hk%filter_updates_allowed. rewrite Hna in Hk.
    intros ->. by apply list_elem_of_In in Hk as [|[|[]]].
  - intros Hnone.
    assert (allowed_updates user body = []) as Hfu.
    { unfold allowed_updates. rewrite Hna. apply filter_updates_none.
      intros k Hk%without_keys. by apply Hnone. }
    erewrite patch_untouched in Hrun; eauto; [by injection Hrun as <- <-| |].
    + by rewrite Hfu.
    + by rewrite Hfu.
Qed.

Lemma owner_update_drops_status_witness :
  let body := [("status", JStr "closed")] in
  let out := run (patch_ticket (Sample.T0 + 1) Sample.john Sample.t1 body)
               Sample.db1 in
  (∃ x', tickets out.2 !! Sample.t1 = Some x'
         ∧ Ticket.status x' = Ticket.status Sample.ticket1)
  ∧ ((∀ k, k ∈ JS.keys body → k ∉ user_fields) →
     out.1 = {| statusCode := 200; payload := TicketOk Sample.ticket1 |}
     ∧ out.2 = Sample.db1).
Proof.
  intros body out.
  apply (owner_update_drops_status (Sample.T0 + 1) Sample.john Sample.t1
           body Sample.db1 Sample.t1 Sample.ticket1 out.1 out.2).
  - reflexivity.
  - vm_compute. reflexivity.
  - reflexivity.
  - reflexivity.
  - reflexivity.
  - left. reflexivity.
  - apply surjective_pairing.
Defined.

(** C8, as stated, fails in its second half: the creator's update carrying
    only [status] is not answered FORBIDDEN; the answer is the 200 with the
    unchanged ticket. *)
Lemma owner_update_without_allowed_field_succeeds :
  let body := [("status", JStr "closed")] in
  let out := run (patch_ticket (Sample.T0 + 1) Sample.john Sample.t1 body)
               Sample.db1 in
  User.role Sample.john = "user"
  ∧ Ticket.createdBy Sample.ticket1 = User._id Sample.john
  ∧ (∀ k, k ∈ JS.keys body → k ∉ user_fields)
  ∧ out.1 = {| statusCode := 200; payload := TicketOk Sample.ticket1 |}
  ∧ statusCode out.1 ≠ 403
  ∧ out.2 = Sample.db1.
Proof.
  split; [reflexivity|]. split; [reflexivity|]. split.
  { intros k [->|[]%elem_of_nil]%elem_of_cons.
    intros [|[|[]]]%list_elem_of_In; discriminate. }
  split; [by vm_compute|]. split; [by vm_compute|]. by vm_compute.
Qed.

(** ** Updates that request the current values *)

Lemma db2_ticket :
  tickets Sample.db2 !! Sample.t1
  = Some (Ticket.with_version 1
            (Ticket.with_updatedAt (Sample.T0 + 1)
               (Ticket.with_assignedTo (Ref Sample.agent_id) Sample.ticket1))).
Proof. by vm_compute. Qed.

(** C10: the code at the failing input.  The ticket is assigned to the
    agent; the admin sends an update asking for that same assignee.  The
    answer is 200 and the stored ticket is untouched (same version, same
    [updatedAt]), yet a timeline entry is written for the request: the
    document holds an ObjectId, which is never [===] to the string of the
    request body. *)
Theorem update_to_current_values_is_logged :
  let body := [("assignedTo", JStr Sample.agent_id)] in
  let out := run (patch_ticket (Sample.T0 + 2) Sample.admin Sample.t1 body)
               Sample.db2 in
  (∃ x, tickets Sample.db2 !! Sample.t1 = Some x
        ∧ Ticket.assignedTo x = Ref Sample.agent_id
        ∧ out.1 = {| statusCode := 200; payload := TicketOk x |})
  ∧ tickets out.2 = tickets Sample.db2
  ∧ timeline out.2
    = timeline Sample.db2
      ++ [ {| Timeline.ticket := Sample.t1; Timeline.user := Sample.admin_id;
              Timeline.action := "updated";
              Timeline.details :=
                [("field", JStr "assignedTo");
                 ("oldValue", JOid Sample.agent_id);
                 ("newValue", JStr Sample.agent_id)];
              Timeline.description :=
                "Assignment changed from Agent Smith to Agent Smith";
              Timeline.createdAt := Sample.T0 + 2 |} ].
Proof.
  intros body out.
  split; [eexists; split; [apply db2_ticket | split; by vm_compute]|].
  split; vm_compute; reflexivity.
Qed.

(** ** Assignee eligibility *)

Lemma cast_oid_string_truthy s o :
  Mongoose.cast_oid_string s = Some o → JS.truthy (JStr s) = true.
Proof.
  unfold Mongoose.cast_oid_string. destruct s; [done|]. done.
Qed.

Lemma cast_id_truthy v o : Mongoose.cast_id v = Some o → JS.truthy v = true.
Proof. destruct v; try done. apply cast_oid_string_truthy. Qed.

(** C9 (as amended).  On the assign route and on the bulk-assign route, a
    request naming an assignee that is no user, or a user whose role is
    neither agent nor admin, is refused and changes nothing: the database
    after the call is the database before it.  When the requester is an
    admin (and the ticket exists, respectively the id list is a non-empty
    array) the refusal is the 400 INVALID_ASSIGNEE; other requesters are
    refused earlier, with a 403. *)
Theorem ineligible_assignee_rejected now new_id user body s a :
  Mongoose.cast_id (JS.get body "assignedTo") = Some a →
  not_assignable (users s !! a) = true →
  (∀ id,
     let out := run (dispatch now new_id user (Assign id body)) s in
     out.2 = s ∧ is_success out.1 = false
     ∧ (User.role user = "admin" →
        (∃ o, Mongoose.cast_id (JStr id) = Some o ∧ is_Some (tickets s !! o)) →
        out.1 = invalid_assignee_response)
     ∧ (User.role user ≠ "admin" → out.1 ≠ invalid_assignee_response →
        statusCode out.1 = 403 ∨ statusCode out.1 = 404 ∨ statusCode out.1 = 400))
  ∧ (let out := run (dispatch now new_id user (BulkAssign body)) s in
     out.2 = s ∧ is_success out.1 = false
     ∧ (User.role user = "admin" →
        (∃ l, l ≠ [] ∧ JS.get body "ticketIds" = JArr l) →
        out.1 = invalid_assignee_response)
     ∧ (User.role user ≠ "admin" → statusCode out.1 = 403)).
Proof.
  intros Hc Hn. pose proof (cast_id_truthy _ _ Hc) as Ht. split.
  - intros id. unfold dispatch, authorize, run, bind.
    case_bool_decide as Hrole; simpl.
    2:{ split; [done|]. split; [done|]. split; [|by left].
        intros Hadm. exfalso. apply Hrole. rewrite Hadm.
        apply elem_of_cons. right. apply elem_of_cons. by left. }
    unfold post_assign, bind, Ticket_findById, User_findById.
    destruct (Mongoose.cast_id (JStr id)) as [o|] eqn:Hid; simpl.
    2:{ split; [done|]. split; [done|]. split; [|by right; right].
        simpl in Hid. intros _ (o & Ho & _). by rewrite Hid in Ho. }
    destruct (tickets s !! o) as [x|] eqn:Hx; simpl.
    2:{ split; [done|]. split; [done|]. split; [|by right; left].
        simpl in Hid. intros _ (o' & Ho & [x Hx']).
        rewrite Hid in Ho. injection Ho as <-. by rewrite Hx in Hx'. }
    rewrite Ht, andb_true_r. cbv beta iota.
    destruct (bool_decide (User.role user = "agent")) eqn:Hag; cbn [andb negb].
    + destruct (JS.strict_eq (JS.get body "assignedTo") (JStr (User._id user)));
        cbn [andb negb].
      * rewrite Hc, Hn. cbn [andb fst snd]. split; [done|]. split; [done|].
        split; [done|]. by intros _ [].
      * cbn [forbidden respond ret fst snd].
        split; [done|]. split; [done|]. split; [|by left].
        apply bool_decide_eq_true in Hag. rewrite Hag. done.
    + rewrite Hc, Hn. cbn [andb fst snd]. split; [done|]. split; [done|].
      split; [done|]. by intros _ [].
  - unfold dispatch, authorize, run, bind.
    case_bool_decide as Hrole; simpl.
    2:{ split; [done|]. split; [done|]. split; [|done].
        intros Hadm. exfalso. apply Hrole.
        rewrite Hadm. apply elem_of_cons. by left. }
    assert (User.role user = "admin") as Hadm.
    { by apply elem_of_cons in Hrole as [?|?%elem_of_nil]. }
    unfold post_bulk_assign, bind, User_findById.
    destruct (JS.get body "ticketIds") as [| | | | | |l] eqn:Hl; simpl;
      try (split; [done|]; split; [done|]; split; [|done];
           by intros _ (? & ? & ?)).
    destruct l as [|i l]; simpl.
    { split; [done|]. split; [done|]. split; [|done].
      intros _ (l' & ? & ?). by simplify_eq. }
    rewrite Ht, Hc, Hn. cbn [andb fst snd]. done.
Qed.

Lemma ineligible_assignee_rejected_witness :
  let body := [("ticketIds", JArr [Sample.t1]); ("assignedTo", JStr Sample.john_id)] in
  (∀ id,
     let out := run (dispatch (Sample.T0 + 1) Sample.t2 Sample.admin
                       (Assign id body)) Sample.db1 in
     out.2 = Sample.db1 ∧ is_success out.1 = false
     ∧ (User.role Sample.admin = "admin" →
        (∃ o, Mongoose.cast_id (JStr id) = Some o
              ∧ is_Some (tickets Sample.db1 !! o)) →
        out.1 = invalid_assignee_response)
     ∧ (User.role Sample.admin ≠ "admin" → out.1 ≠ invalid_assignee_response →
        statusCode out.1 = 403 ∨ statusCode out.1 = 404 ∨ statusCode out.1 = 400))
  ∧ (let out := run (dispatch (Sample.T0 + 1) Sample.t2 Sample.admin
                       (BulkAssign body)) Sample.db1 in
     out.2 = Sample.db1 ∧ is_success out.1 = false
     ∧ (User.role Sample.admin = "admin" →
        (∃ l, l ≠ [] ∧ JS.get body "ticketIds" = JArr l) →
        out.1 = invalid_assignee_response)
     ∧ (User.role Sample.admin ≠ "admin" → statusCode out.1 = 403)).
Proof.
  intros body.
  apply (ineligible_assignee_rejected (Sample.T0 + 1) Sample.t2 Sample.admin
           body Sample.db1 Sample.john_id).
  - reflexivity.
  - vm_compute. reflexivity.
Defined.

(** C9, as stated, fails on two counts.  On the assign route an agent who
    names a user-role identity is answered 403 FORBIDDEN, not
    INVALID_ASSIGNEE: the refusal depends on the requester's role.  And an
    update carrying [assignedTo] is not checked at all: the admin's update
    naming John, whose role is [user], is answered 200 and John becomes the
    stored assignee. *)
Lemma assignee_check_depends_on_route_and_role :
  let body := [("assignedTo", JStr Sample.john_id)] in
  let via_assign := run (dispatch (Sample.T0 + 1) Sample.t2 Sample.agent
                           (Assign Sample.t1 body)) Sample.db1 in
  let via_update := run (dispatch (Sample.T0 + 1) Sample.t2 Sample.admin
                           (PatchTicket Sample.t1 body)) Sample.db1 in
  User.role Sample.john = "user"
  ∧ via_assign.1
    = {| statusCode := 403;
         payload := Failure "FORBIDDEN" None
                      (Msg "Agents can only assign tickets to themselves") |}
  ∧ statusCode via_update.1 = 200
  ∧ (∃ x, tickets Sample.db1 !! Sample.t1 = Some x ∧ Ticket.assignedTo x = Unset)
  ∧ (∃ x, tickets via_update.2 !! Sample.t1 = Some x
          ∧ Ticket.assignedTo x = Ref Sample.john_id).
Proof.
  intros body via_assign via_update.
  split; [reflexivity|]. split; [by vm_compute|]. split; [by vm_compute|].
  split; eexists; split; by vm_compute.
Qed.

(** ** Comments and the first response *)

Lemma Comment_count_spec o s :
  ∃ n, Comment_count o "comment" s = (s, inr n)
       ∧ (n = 0 ↔ unanswered o (comments s)).
Proof.
  unfold Comment_count. eexists. split; [done|].
  unfold unanswered. generalize (comments s) as cs.
  induction cs as [|c cs IH].
  - split; [by intros _ c ?%elem_of_nil | done].
  - rewrite filter_cons. destruct (decide _) as [[Ht Hty]|Hn]; simpl.
    + split; [lia|]. intros H. exfalso.
      apply (H c); [apply elem_of_cons; by left | done | done].
    + rewrite IH. split.
      * intros H c' [->|Hin]%elem_of_cons Ht; [|by apply H].
        intros Hty. by apply Hn.
      * intros H c' Hin. apply H, elem_of_cons. by right.
Qed.

Lemma Comment_create_inv now t a content type first s s' c :
  Comment_create now t a content type first s = (s', inr c) →
  s' = with_comments (comments s ++ [c]) s
  ∧ Comment.ticket c = t
  ∧ Comment.author c = a
  ∧ Comment.isFirstResponse c = first
  ∧ Mongoose.cast_string type = Some (Comment.type c)
  ∧ Comment.type c ∈ Comment.type_enum.
Proof.
  unfold Comment_create.
  destruct (Mongoose.cast_string content) as [ct|]; [|done].
  destruct (Mongoose.cast_string type) as [ty|]; [|done].
  destruct (Comment.validate _) as [e|] eqn:Hv; [done|].
  intros [= <- <-]. repeat split; try done.
  unfold Comment.validate in Hv. simpl in Hv.
  repeat case_bool_decide; done.
Qed.

(** What a successful comment request does. *)
Lemma post_comment_created now user id body s o x c s' :
  Mongoose.cast_id (JStr id) = Some o →
  tickets s !! o = Some x →
  Ticket._id x = o →
  run (post_comment now user id body) s
  = ({| statusCode := 201; payload := CommentOk c |}, s') →
  let type := if JS.strict_eq (JS.get body "type") JUndefined
              then JStr "comment" else JS.get body "type" in
  comments s' = comments s ++ [c]
  ∧ Comment.ticket c = o
  ∧ (Comment.isFirstResponse c = true
     ↔ unanswered o (comments s) ∧ JS.strict_eq type (JStr "comment") = true)
  ∧ Mongoose.cast_string type = Some (Comment.type c)
  ∧ (Comment.isFirstResponse c = true →
     ∃ x', tickets s' !! o = Some x' ∧ Ticket.firstResponseAt x' = Some now)
  ∧ (Comment.isFirstResponse c = false → tickets s' = tickets s)
  ∧ ∃ e, timeline s' = timeline s ++ [e] ∧ Timeline.ticket e = o
         ∧ Timeline.action e = "commented".
Proof.
  intros Hid Hx Hxo Hrun type.
  apply run_success in Hrun; [|done].
  unfold post_comment in Hrun. fold type in Hrun.
  destruct (negb (JS.truthy (JS.get body "content"))); [done|].
  apply bind_inv in Hrun as [(s0 & found & Hf & Hrun)|(? & _ & ?)]; [|done].
  rewrite (Ticket_findById_spec _ _ _ Hid), Hx in Hf. injection Hf as <- <-.
  cbn [fmap option_fmap option_map Ticket.loaded Ticket.data] in Hrun.
  destruct (negb (bool_decide (Ticket.createdBy x = User._id user))
            && negb (isAgentOrAdmin user)); [done|].
  destruct (JS.strict_eq type (JStr "internal_note")
            && bool_decide (User.role user = "user")); [done|].
  apply bind_inv in Hrun as [(s0 & n & Hn & Hrun)|(? & _ & ?)]; [|done].
  rewrite Hxo in Hn, Hrun.
  destruct (Comment_count_spec o s) as (n' & Hn' & Hzero).
  rewrite Hn' in Hn. injection Hn as <- <-.
  set (first := bool_decide (n' = 0) && JS.strict_eq type (JStr "comment")) in *.
  assert (first = true
          ↔ unanswered o (comments s) ∧ JS.strict_eq type (JStr "comment") = true)
    as Hfirst_iff.
  { unfold first. by rewrite andb_true_iff, bool_decide_eq_true, Hzero. }
  clearbody first. clear Hn' Hzero n'.
  apply bind_inv in Hrun as [(s0 & cm & Hc & Hrun)|(? & _ & ?)]; [|done].
  apply Comment_create_inv in Hc as (-> & Ht & _ & Hfirst & Hty & _).
  apply bind_inv in Hrun as [(s1 & [] & Hsave & Hrun)|(? & _ & ?)]; [|done].
  apply bind_inv in Hrun as [(s2 & [] & Hlog & Hrun)|(? & _ & ?)]; [|done].
  injection Hrun as <- <-.
  eapply createTimelineEntry_inv in Hlog as [(e & _ & Hlog & Hact)|(? & ? & _)];
    [|done|done].
  pose proof (logged_tickets _ _ _ _ Hlog) as Htk.
  pose proof (logged_timeline _ _ _ _ Hlog) as Htl.
  assert (comments s2 = comments s1) as Hcm by (by destruct Hlog as [-> _]).
  assert (Timeline.ticket e = o) as He.
  { destruct Hlog as [_ He]. exact (Forall_inv He). }
  clear Hlog. rewrite Hfirst. rewrite <- Hfirst_iff. clear Hfirst_iff.
  destruct first eqn:Hfst.
  - apply bind_inv in Hsave as [(s3 & d1 & Hsave & Hret)|(? & _ & ?)]; [|done].
    injection Hret as <-.
    apply save_loaded in Hsave as [(? & ? & _)|[(Hm & _ & ->)|(Hm & _ & ->)]];
      [done| | |by case_bool_decide].
    + split; [by rewrite Hcm|]. split; [done|]. split; [done|]. split; [done|].
      split; [|split; [done|]].
      * intros _. exists x. rewrite Htk. split; [done|].
        case_bool_decide as Heq; [|done]. by rewrite <- Heq.
      * exists e. by rewrite Htl.
    + split; [by rewrite Hcm|]. split; [done|]. split; [done|]. split; [done|].
      split; [|split; [done|]].
      * intros _. rewrite Htk. cbn [tickets with_tickets].
        case_bool_decide as Heq; [done|].
        cbn [Ticket.data Ticket.mark Ticket.with_data] in *.
        replace (Ticket._id (Ticket.with_firstResponseAt (Some now) x)) with o
          by (by destruct x).
        rewrite lookup_insert_eq. eexists. split; [done|].
        by edestruct pre_save_modified as (_ & _ & _ & _ & -> & _).
      * exists e. by rewrite Htl.
  - injection Hsave as <-.
    split; [by rewrite Hcm|]. split; [done|]. split; [done|]. split; [done|].
    split; [done|]. split; [by intros _; rewrite Htk|].
    exists e. by rewrite Htl.
Qed.


(** With the flags in place, at most one comment of a ticket is flagged. *)
Lemma first_flagged_unique o before c1 between c2 after :
  first_flagged o (before ++ c1 :: between ++ c2 :: after) →
  Comment.ticket c1 = o → Comment.ticket c2 = o →
  Comment.isFirstResponse c1 = true → Comment.isFirstResponse c2 = false.
Proof.
  intros H H1 H2 Hf1.
  apply (H before c1 (between ++ c2 :: after) eq_refl H1) in Hf1 as [Hty _].
  apply not_true_is_false. intros Hf2.
  specialize (H (before ++ c1 :: between) c2 after).
  rewrite <- app_assoc in H.
  apply (H eq_refl H2) in Hf2 as [_ Hun].
  apply (Hun c1); [|done|done].
  apply elem_of_app. right. apply elem_of_cons. by left.
Qed.



(** ** Version and audit trail of a mutation *)


Lemma authorize_success roles user next s r s' :
  run (authorize roles (Some user) next) s = (r, s') →
  is_success r = true →
  run (next user) s = (r, s').
Proof.
  unfold authorize. case_bool_decide; [done|].
  intros [= <- <-]. done.
Qed.

Lemma post_status_saved now user id body s o x r s' :
  Mongoose.cast_id (JStr id) = Some o →
  tickets s !! o = Some x →
  run (post_status now user id body) s = (r, s') →
  is_success r = true →
  ∃ d s1 d1 e,
    Ticket.isNew d = false ∧ same_core x (Ticket.data d)
    ∧ save now d s = (s1, inr d1) ∧ logged (Ticket._id x) [e] s1 s'.
Proof.
  intros Hid Hx Hrun Hok. apply run_success in Hrun; [|done].
  unfold post_status in Hrun.
  destruct (negb (JS.includes _ _)); [early Hrun|].
  apply bind_inv in Hrun as [(s0 & found & Hf & Hrun)|(? & _ & ?)]; [|done].
  rewrite (Ticket_findById_spec _ _ _ Hid), Hx in Hf. injection Hf as <- <-.
  cbn [fmap option_fmap option_map Ticket.loaded Ticket.data] in Hrun.
  apply bind_inv in Hrun as [(s1 & d1 & Hsave & Hrun)|(? & _ & ?)]; [|done].
  apply bind_inv in Hrun as [(s2 & [] & Hlog & Hrun)|(? & _ & ?)]; [|done].
  injection Hrun as <- _.
  eapply createTimelineEntry_inv in Hlog as [(e & _ & Hlog & _)|(? & ? & _)];
    [|done|done].
  eexists (Ticket.assign _ _ (Ticket.loaded x)), s1, d1, e.
  split; [by rewrite assign_isNew|].
  split; [apply (assign_same_core _ _ (Ticket.loaded x))|]. done.
Qed.

Lemma post_priority_saved now user id body s o x r s' :
  Mongoose.cast_id (JStr id) = Some o →
  tickets s !! o = Some x →
  run (post_priority now user id body) s = (r, s') →
  is_success r = true →
  ∃ d s1 d1 e,
    Ticket.isNew d = false ∧ same_core x (Ticket.data d)
    ∧ save now d s = (s1, inr d1) ∧ logged (Ticket._id x) [e] s1 s'.
Proof.
  intros Hid Hx Hrun Hok. apply run_success in Hrun; [|done].
  unfold post_priority in Hrun.
  destruct (negb (JS.includes _ _)); [early Hrun|].
  apply bind_inv in Hrun as [(s0 & found & Hf & Hrun)|(? & _ & ?)]; [|done].
  rewrite (Ticket_findById_spec _ _ _ Hid), Hx in Hf. injection Hf as <- <-.
  cbn [fmap option_fmap option_map Ticket.loaded Ticket.data] in Hrun.
  apply bind_inv in Hrun as [(s1 & d1 & Hsave & Hrun)|(? & _ & ?)]; [|done].
  apply bind_inv in Hrun as [(s2 & [] & Hlog & Hrun)|(? & _ & ?)]; [|done].
  injection Hrun as <- _.
  eapply createTimelineEntry_inv in Hlog as [(e & _ & Hlog & _)|(? & ? & _)];
    [|done|done].
  eexists (Ticket.assign _ _ (Ticket.loaded x)), s1, d1, e.
  split; [by rewrite assign_isNew|].
  split; [apply (assign_same_core _ _ (Ticket.loaded x))|]. done.
Qed.

Lemma post_assign_saved now user id body s o x r s' :
  Mongoose.cast_id (JStr id) = Some o →
  tickets s !! o = Some x →
  run (post_assign now user id body) s = (r, s') →
  is_success r = true →
  ∃ d s1 d1 e,
    Ticket.isNew d = false ∧ same_core x (Ticket.data d)
    ∧ save now d s = (s1, inr d1) ∧ logged (Ticket._id x) [e] s1 s'.
Proof.
  intros Hid Hx Hrun Hok. apply run_success in Hrun; [|done].
  unfold post_assign in Hrun.
  apply bind_inv in Hrun as [(s0 & found & Hf & Hrun)|(? & _ & ?)]; [|done].
  rewrite (Ticket_findById_spec _ _ _ Hid), Hx in Hf. injection Hf as <- <-.
  cbn [fmap option_fmap option_map Ticket.loaded Ticket.data] in Hrun.
  destruct (_ && _); [early Hrun|].
  apply bind_inv in Hrun as [(s0 & assignee & Ha & Hrun)|(? & _ & ?)]; [|done].
  apply maybe_find_state in Ha as ->.
  destruct (_ && _); [early Hrun|].
  apply bind_inv in Hrun as [(s1 & d1 & Hsave & Hrun)|(? & _ & ?)]; [|done].
  apply bind_inv in Hrun as [(s2 & oldUser & Ho & Hrun)|(? & _ & ?)]; [|done].
  apply maybe_find_state in Ho as ->.
  apply bind_inv in Hrun as [(s2 & newUser & Hn & Hrun)|(? & _ & ?)]; [|done].
  apply maybe_find_state in Hn as ->.
  apply bind_inv in Hrun as [(s2 & [] & Hlog & Hrun)|(? & _ & ?)]; [|done].
  injection Hrun as <- _.
  eapply createTimelineEntry_inv in Hlog as [(e & _ & Hlog & _)|(? & ? & _)];
    [|done|done].
  eexists (Ticket.assign _ _ (Ticket.loaded x)), s1, d1, e.
  split; [by rewrite assign_isNew|].
  split; [apply (assign_same_core _ _ (Ticket.loaded x))|]. done.
Qed.





(** A successful comment request adds the comment, then either goes
    straight to its timeline entry or saves the ticket document first. *)
Lemma post_comment_saved now user id body s o x r s' :
  Mongoose.cast_id (JStr id) = Some o →
  tickets s !! o = Some x →
  run (post_comment now user id body) s = (r, s') →
  is_success r = true →
  ∃ c e, let s0 := with_comments (comments s ++ [c]) s in
    logged (Ticket._id x) [e] s0 s'
    ∨ ∃ d s1 d1,
        Ticket.isNew d = false
        ∧ Ticket._id (Ticket.data d) = Ticket._id x
        ∧ Ticket.version (Ticket.data d) = Ticket.version x
        ∧ Ticket.sla_ (Ticket.data d) = Ticket.sla_ x
        ∧ save now d s0 = (s1, inr d1)
        ∧ logged (Ticket._id x) [e] s1 s'.
Proof.
  intros Hid Hx Hrun Hok. apply run_success in Hrun; [|done].
  unfold post_comment in Hrun.
  destruct (negb (JS.truthy (JS.get body "content"))); [early Hrun|].
  apply bind_inv in Hrun as [(s0 & found & Hf & Hrun)|(? & _ & ?)]; [|done].
  rewrite (Ticket_findById_spec _ _ _ Hid), Hx in Hf. injection Hf as <- <-.
  cbn [fmap option_fmap option_map Ticket.loaded Ticket.data] in Hrun.
  destruct (negb (bool_decide (Ticket.createdBy x = User._id user))
            && negb (isAgentOrAdmin user)); [early Hrun|].
  destruct (_ && bool_decide (User.role user = "user")); [early Hrun|].
  apply bind_inv in Hrun as [(s0 & n & Hn & Hrun)|(? & _ & ?)]; [|done].
  injection Hn as <- <-.
  apply bind_inv in Hrun as [(s0 & cm & Hc & Hrun)|(? & _ & ?)]; [|done].
  apply Comment_create_inv in Hc as (-> & _).
  apply bind_inv in Hrun as [(s1 & [] & Hsave & Hrun)|(? & _ & ?)]; [|done].
  apply bind_inv in Hrun as [(s2 & [] & Hlog & Hrun)|(? & _ & ?)]; [|done].
  injection Hrun as <- _.
  eapply createTimelineEntry_inv in Hlog as [(e & _ & Hlog & _)|(? & ? & _)];
    [|done|done].
  exists cm, e. cbv zeta.
  destruct (_ && _).
  - apply bind_inv in Hsave as [(s3 & d1 & Hsave & Hret)|(? & _ & ?)]; [|done].
    injection Hret as <-. right. eexists _, s3, d1.
    split; [|split; [|split; [|split; [|by split]]]]; by case_bool_decide.
  - injection Hsave as <-. by left.
Qed.




(** ** The SLA sub-record of an existing ticket *)

Lemma saved_keeps_sla now d s s1 d1 es s' o x x' :
  Ticket.isNew d = false →
  Ticket._id (Ticket.data d) = Ticket._id x →
  Ticket.sla_ (Ticket.data d) = Ticket.sla_ x →
  Ticket._id x = o →
  tickets s !! o = Some x →
  save now d s = (s1, inr d1) →
  logged o es s1 s' →
  tickets s' !! o = Some x' →
  Ticket.sla_ x' = Ticket.sla_ x.
Proof.
  intros Hn Hid Hsla Hxo Hx Hsave Hlog Hx'.
  rewrite (logged_tickets _ _ _ _ Hlog) in Hx'.
  apply save_loaded in Hsave as [(? & ? & _)|[(_ & _ & ->)|(Hm & _ & ->)]];
    [done| | |done].
  - rewrite Hx in Hx'. by injection Hx' as <-.
  - cbn [tickets with_tickets] in Hx'.
    rewrite Hid, Hxo, lookup_insert_eq in Hx'. injection Hx' as <-.
    by rewrite pre_save_loaded_sla.
Qed.

(** No successful update, assignment, status change, priority change or
    comment touches the SLA sub-record of the ticket it names: the hour
    figures, the two deadlines and the stored flags are those of the
    creation.  In particular a priority change recomputes nothing. *)
Lemma mutation_keeps_sla now new_id user rt s r s' id o x x' :
  run (dispatch now new_id user rt) s = (r, s') →
  is_success r = true →
  route_ticket rt = Some id →
  Mongoose.cast_id (JStr id) = Some o →
  tickets s !! o = Some x →
  Ticket._id x = o →
  tickets s' !! o = Some x' →
  Ticket.sla_ x' = Ticket.sla_ x.
Proof.
  intros Hrun Hok Hrt Hid Hx Hxo Hx'.
  destruct rt as [b|i|i b|i b|i b|i b|i b|b]; try done;
    cbn [route_ticket] in Hrt; injection Hrt as ->; cbn [dispatch] in Hrun.
  - assert (JS.get b "version" = JUndefined
            ∨ JS.get b "version" = JNum (Ticket.version x)) as Hv.
    { destruct (decide (JS.get b "version" = JUndefined)) as [|Hu]; [by left|].
      destruct (decide (JS.get b "version" = JNum (Ticket.version x)))
        as [|Hs]; [by right|].
      unfold run in Hrun.
      rewrite (patch_ticket_stale _ _ _ _ _ _ _ Hid Hx Hu Hs) in Hrun.
      early Hrun. }
    assert (Ticket.createdBy x = User._id user ∨ isAgentOrAdmin user = true)
      as Hp.
    { destruct (decide (Ticket.createdBy x = User._id user)) as [|Hno];
        [by left|].
      destruct (isAgentOrAdmin user) eqn:Ha; [by right|].
      rewrite (run_ext _ _ _ (patch_ticket_checked _ _ _ _ _ _ _ Hid Hx Hv))
        in Hrun.
      rewrite Ha, bool_decide_eq_false_2 in Hrun by done.
      cbn [negb andb] in Hrun. unfold run in Hrun. early Hrun. }
    eapply patch_outcome in Hrun as
      [(e & _ & -> & _)|(s1 & d1 & es & Hsave & Hlog & _)];
      eauto; [by rewrite errorHandler_failure in Hok|].
    destruct (assign_all_same_core (allowed_updates user b) (Ticket.loaded x))
      as (Hdi & _ & Hds & _).
    eapply saved_keeps_sla; eauto. by rewrite assign_all_isNew.
  - destruct (post_comment_saved _ _ _ _ _ _ _ _ _ Hid Hx Hrun Hok)
      as (c & e & [Hlog|(d & s1 & d1 & Hn & Hdi & _ & Hds & Hsave & Hlog)]).
    + rewrite (logged_tickets _ _ _ _ Hlog) in Hx'.
      cbn [tickets with_comments] in Hx'. congruence.
    + rewrite Hxo in Hlog.
      by eapply (saved_keeps_sla now d (with_comments (comments s ++ [c]) s)).
  - apply authorize_success in Hrun; [|done].
    destruct (post_assign_saved _ _ _ _ _ _ _ _ _ Hid Hx Hrun Hok)
      as (d & s1 & d1 & e & Hn & (Hdi & _ & Hds & _) & Hsave & Hlog).
    rewrite Hxo in Hlog. by eapply saved_keeps_sla.
  - apply authorize_success in Hrun; [|done].
    destruct (post_status_saved _ _ _ _ _ _ _ _ _ Hid Hx Hrun Hok)
      as (d & s1 & d1 & e & Hn & (Hdi & _ & Hds & _) & Hsave & Hlog).
    rewrite Hxo in Hlog. by eapply saved_keeps_sla.
  - apply authorize_success in Hrun; [|done].
    destruct (post_priority_saved _ _ _ _ _ _ _ _ _ Hid Hx Hrun Hok)
      as (d & s1 & d1 & e & Hn & (Hdi & _ & Hds & _) & Hsave & Hlog).
    rewrite Hxo in Hlog. by eapply saved_keeps_sla.
Qed.

(** ** The hourly sweep of the idempotency cache *)


(** ** No route stores a raised breach flag *)

Lemma keeps_bind {A B} (m : M A) (k : A → M B) Q1 Q2 :
  keeps m Q1 → (∀ a, Q1 a → keeps (k a) Q2) → keeps (bind m k) Q2.
Proof.
  intros Hm Hk s s' r HI [(s1 & a & Hms & Hks)|(e & Hms & ->)]%bind_inv.
  - destruct (Hm _ _ _ HI Hms) as [HI1 HQ]. eapply Hk; eauto.
  - destruct (Hm _ _ _ HI Hms) as [HI1 _]. by split.
Qed.

Lemma keeps_ret {A} (a : A) (Q : A → Prop) : Q a → keeps (ret a) Q.
Proof. intros HQ s s' r HI [= <- <-]. split; [done|]. by intros ? [= <-]. Qed.

Lemma keeps_throw {A} e (Q : A → Prop) : keeps (throw e) Q.
Proof. intros s s' r HI [= <- <-]. by split. Qed.

Lemma keeps_respond c b : keeps (respond c b) (λ _, True).
Proof. by apply keeps_ret. Qed.

(** A step that leaves the ticket collection alone. *)
Lemma keeps_tickets {A} (m : M A) :
  (∀ s s' r, m s = (s', r) → tickets s' = tickets s) → keeps m (λ _, True).
Proof.
  intros Hm s s' r HI Hms. split; [|done].
  intros o x Hx. rewrite (Hm _ _ _ Hms) in Hx. by eapply HI.
Qed.

Lemma keeps_Ticket_findById v :
  keeps (Ticket_findById v)
    (λ found, ∀ d, found = Some d →
       Ticket.isNew d = false ∧ flags_clear (Ticket.data d)).
Proof.
  intros s s' r HI. unfold Ticket_findById.
  destruct (Mongoose.cast_id v) as [o|]; intros [= <- <-]; [|by split].
  split; [done|]. intros a [= <-] d Hd.
  destruct (tickets s !! o) as [x|] eqn:Hx; [|done].
  injection Hd as <-. split; [done|]. by eapply HI.
Qed.

Lemma keeps_maybe_find v :
  keeps (if JS.truthy v then User_findById v else ret None) (λ _, True).
Proof.
  apply keeps_tickets. intros s s' r H. by apply maybe_find_state in H as ->.
Qed.

Lemma keeps_User_findById v : keeps (User_findById v) (λ _, True).
Proof.
  apply keeps_tickets. intros s s' r H. by apply User_findById_state in H as ->.
Qed.

Lemma keeps_createTimelineEntry now tv uid action description details :
  keeps (createTimelineEntry now tv uid action description details) (λ _, True).
Proof.
  apply keeps_tickets. intros s s' r. unfold createTimelineEntry.
  repeat case_match; by intros [= <- _].
Qed.

Lemma keeps_Comment_create now t a content type first :
  keeps (Comment_create now t a content type first) (λ _, True).
Proof.
  apply keeps_tickets. intros s s' r. unfold Comment_create.
  repeat case_match; by intros [= <- _].
Qed.

Lemma keeps_Comment_count o ty : keeps (Comment_count o ty) (λ _, True).
Proof. apply keeps_tickets. by intros s s' r [= <- _]. Qed.

Lemma keeps_for_each {A} (l : list A) (f : A → M unit) :
  (∀ x, keeps (f x) (λ _, True)) → keeps (for_each l f) (λ _, True).
Proof.
  intros Hf. induction l as [|x l IH]; simpl; [by apply keeps_ret|].
  eapply keeps_bind; [apply Hf|]. by intros _ _.
Qed.

Lemma pre_save_flags now d :
  flags_clear (Ticket.data d) → flags_clear (Ticket.data (Ticket.pre_save now d)).
Proof.
  destruct d as [x n m i]. unfold flags_clear, Ticket.pre_save,
    Ticket.isModified, Ticket.isModified_path. simpl.
  intros [? ?]. repeat (case_match; simpl); done.
Qed.

Lemma keeps_save now d :
  flags_clear (Ticket.data d) → keeps (save now d) (λ _, True).
Proof.
  intros Hd s s' r HI. unfold save.
  repeat case_match; intros [= <- <-]; (split; [|done]); try done.
  all: intros o x; cbn [tickets with_tickets];
    intros [[_ <-]|[_ ?]]%lookup_insert_Some;
    [by apply pre_save_flags | by eapply HI].
Qed.

Lemma assign_flags p v d :
  flags_clear (Ticket.data d) → flags_clear (Ticket.data (Ticket.assign p v d)).
Proof.
  unfold flags_clear. by destruct (assign_same_core p v d) as (_ & _ & -> & _).
Qed.

Lemma assign_all_flags fu d :
  flags_clear (Ticket.data d) → flags_clear (Ticket.data (assign_all fu d)).
Proof.
  unfold flags_clear. by destruct (assign_all_same_core fu d) as (_ & _ & -> & _).
Qed.

Lemma construct_flags id now title description priority category createdBy :
  flags_clear (Ticket.data (Ticket.construct id now title description
                              priority category createdBy)).
Proof.
  unfold Ticket.construct.
  set (d0 := {| Ticket.data := Ticket.blank id now; Ticket.isNew := true;
                Ticket.modified := []; Ticket.invalid := [] |}).
  set (d4 := Ticket.assign Ticket.Category category
               (Ticket.assign Ticket.Priority priority
                  (Ticket.assign Ticket.Description description
                     (Ticket.assign Ticket.Title title d0)))).
  assert (flags_clear (Ticket.data d4)) as [? ?].
  { unfold d4. by repeat apply assign_flags. }
  by split.
Qed.

Lemma keeps_change_description c : keeps (change_description c) (λ _, True).
Proof.
  apply keeps_tickets. intros s s' r H.
  by apply change_description_state in H as ->.
Qed.

Lemma keeps_log_changes now user x changes :
  keeps (log_changes now user x changes) (λ _, True).
Proof.
  apply keeps_for_each. intros c.
  eapply keeps_bind; [apply keeps_change_description|].
  intros ? _. apply keeps_createTimelineEntry.
Qed.

Lemma keeps_updateMany ids v : keeps (Ticket_updateMany_assignedTo ids v) (λ _, True).
Proof.
  intros s s' r HI. unfold Ticket_updateMany_assignedTo.
  repeat case_match; intros [= <- <-]; (split; [|done]); try done.
  intros o x. cbn [tickets with_tickets]. rewrite map_lookup_imap.
  destruct (tickets s !! o) as [y|] eqn:Hy; [|done]. simpl.
  intros [= <-]. specialize (HI _ _ Hy). by case_match.
Qed.

Lemma keeps_post_ticket now new_id user body :
  keeps (post_ticket now new_id user body) (λ _, True).
Proof.
  unfold post_ticket. repeat case_match; try apply keeps_respond.
  eapply keeps_bind; [apply keeps_save, construct_flags|]. intros d _.
  eapply keeps_bind; [apply keeps_createTimelineEntry|]. intros ? _.
  apply keeps_respond.
Qed.

Lemma keeps_get_ticket now user id : keeps (get_ticket now user id) (λ _, True).
Proof.
  unfold get_ticket. eapply keeps_bind; [apply keeps_Ticket_findById|].
  intros [d|] _; [|apply keeps_respond].
  eapply keeps_bind; [apply keeps_User_findById|]. intros creator _.
  eapply keeps_bind with (Q1 := λ _, True).
  { repeat case_match; first [by apply keeps_ret | apply keeps_throw]. }
  intros [|] _; [apply keeps_respond|].
  apply keeps_tickets. by intros s s' r [= <- _].
Qed.

Lemma keeps_patch_ticket now user id body :
  keeps (patch_ticket now user id body) (λ _, True).
Proof.
  unfold patch_ticket. eapply keeps_bind; [apply keeps_Ticket_findById|].
  intros [d|] Hd; [|apply keeps_respond].
  destruct (Hd d eq_refl) as [_ Hf].
  case_match; [apply keeps_respond|]. case_match; [apply keeps_respond|].
  eapply keeps_bind; [by apply keeps_save, assign_all_flags|]. intros ? _.
  eapply keeps_bind; [apply keeps_log_changes|]. intros ? _.
  apply keeps_respond.
Qed.

Lemma keeps_post_comment now user id body :
  keeps (post_comment now user id body) (λ _, True).
Proof.
  unfold post_comment.
  set (type := if JS.strict_eq (JS.get body "type") JUndefined
               then JStr "comment" else JS.get body "type").
  destruct (negb (JS.truthy _)); [apply keeps_respond|].
  eapply keeps_bind; [apply keeps_Ticket_findById|].
  intros [d|] Hd; [|apply keeps_respond].
  destruct (Hd d eq_refl) as [_ Hf].
  destruct (negb (bool_decide _) && _); [apply keeps_respond|].
  destruct (JS.strict_eq type _ && _); [apply keeps_respond|].
  eapply keeps_bind; [apply keeps_Comment_count|]. intros n _.
  eapply keeps_bind; [apply keeps_Comment_create|]. intros cm _.
  eapply keeps_bind with (Q1 := λ _, True).
  { destruct (bool_decide (n = 0) && _); [|by apply keeps_ret].
    eapply keeps_bind; [|intros ? _; by apply keeps_ret].
    apply keeps_save. by case_bool_decide. }
  intros ? _. eapply keeps_bind; [apply keeps_createTimelineEntry|].
  intros ? _. apply keeps_respond.
Qed.

Lemma keeps_post_assign now user id body :
  keeps (post_assign now user id body) (λ _, True).
Proof.
  unfold post_assign. eapply keeps_bind; [apply keeps_Ticket_findById|].
  intros [d|] Hd; [|apply keeps_respond].
  destruct (Hd d eq_refl) as [_ Hf].
  case_match; [apply keeps_respond|].
  eapply keeps_bind; [apply keeps_maybe_find|]. intros assignee _.
  case_match; [apply keeps_respond|].
  eapply keeps_bind; [by apply keeps_save, assign_flags|]. intros ? _.
  eapply keeps_bind; [apply keeps_maybe_find|]. intros ? _.
  eapply keeps_bind; [apply keeps_maybe_find|]. intros ? _.
  eapply keeps_bind; [apply keeps_createTimelineEntry|]. intros ? _.
  apply keeps_respond.
Qed.

Lemma keeps_post_status now user id body :
  keeps (post_status now user id body) (λ _, True).
Proof.
  unfold post_status. case_match; [apply keeps_respond|].
  eapply keeps_bind; [apply keeps_Ticket_findById|].
  intros [d|] Hd; [|apply keeps_respond].
  destruct (Hd d eq_refl) as [_ Hf].
  eapply keeps_bind; [by apply keeps_save, assign_flags|]. intros ? _.
  eapply keeps_bind; [apply keeps_createTimelineEntry|]. intros ? _.
  apply keeps_respond.
Qed.

Lemma keeps_post_priority now user id body :
  keeps (post_priority now user id body) (λ _, True).
Proof.
  unfold post_priority. case_match; [apply keeps_respond|].
  eapply keeps_bind; [apply keeps_Ticket_findById|].
  intros [d|] Hd; [|apply keeps_respond].
  destruct (Hd d eq_refl) as [_ Hf].
  eapply keeps_bind; [by apply keeps_save, assign_flags|]. intros ? _.
  eapply keeps_bind; [apply keeps_createTimelineEntry|]. intros ? _.
  apply keeps_respond.
Qed.

Lemma keeps_post_bulk_assign now user body :
  keeps (post_bulk_assign now user body) (λ _, True).
Proof.
  unfold post_bulk_assign.
  destruct (match JS.get body "ticketIds" with JArr l => Some l | _ => None end)
    as [[|i l]|]; try apply keeps_respond.
  eapply keeps_bind; [apply keeps_maybe_find|]. intros assignee _.
  destruct (_ && _); [apply keeps_respond|].
  eapply keeps_bind; [apply keeps_updateMany|]. intros n _.
  eapply keeps_bind; [|intros ? _; apply keeps_respond].
  apply keeps_for_each. intros tid.
  eapply keeps_bind; [apply keeps_Ticket_findById|]. intros [d|] _;
    [|by apply keeps_ret].
  eapply keeps_bind; [apply keeps_maybe_find|]. intros ? _.
  apply keeps_createTimelineEntry.
Qed.

Lemma keeps_authorize roles user next :
  (∀ u, keeps (next u) (λ _, True)) → keeps (authorize roles user next) (λ _, True).
Proof.
  intros Hn. unfold authorize. repeat case_match; try apply keeps_respond.
  apply Hn.
Qed.

Lemma keeps_dispatch now new_id user rt :
  keeps (dispatch now new_id user rt) (λ _, True).
Proof.
  destruct rt; cbn [dispatch];
    first [ apply keeps_post_ticket | apply keeps_get_ticket
          | apply keeps_patch_ticket | apply keeps_post_comment
          | apply keeps_authorize; intros u ].
  - apply keeps_post_assign.
  - apply keeps_post_status.
  - apply keeps_post_priority.
  - apply keeps_post_bulk_assign.
Qed.

Lemma keeps_router now new_id req : keeps (router now new_id req) (λ _, True).
Proof.
  unfold router, authenticate.
  destruct (auth req) as [| |id]; try apply keeps_respond.
  intros s s' r HI.
  destruct (Mongoose.cast_id (JStr id)) as [o|]; [|by apply keeps_respond].
  destruct (users s !! o) as [u|]; [|by apply keeps_respond].
  destruct (negb (User.isActive u)); [by apply keeps_respond|].
  apply keeps_dispatch. intros o' x. by apply HI.
Qed.

(** Serving a request, whatever it is and however it ends, stores no
    raised breach flag. *)
Lemma app_keeps_flags now new_id req w :
  no_stored_flag (store w) → no_stored_flag (store (app now new_id req w).2).
Proof.
  intros HI.
  assert (∀ s, no_stored_flag s →
               no_stored_flag (run (router now new_id req) s).2) as Hrun.
  { intros s Hs. unfold run.
    destruct (router now new_id req s) as [s' r] eqn:Hr.
    destruct (keeps_router now new_id req _ _ _ Hs Hr) as [? _].
    by destruct r. }
  specialize (Hrun _ HI).
  unfold app, idempotencyMiddleware.
  destruct (run (router now new_id req) (store w)) as [r s'].
  repeat case_match; simplify_eq; done.
Qed.

Lemma reachable_no_stored_flag w : reachable w → no_stored_flag (store w).
Proof.
  induction 1 as [w Hw|w now new_id req _ IH].
  - intros o x. by rewrite Hw, lookup_empty.
  - by apply app_keeps_flags.
Qed.

(** On the read path of the server, the breach flags a ticket is answered
    with are exactly the two breach conditions at the time of the read. *)
Lemma read_reports_breach w now o x :
  reachable w →
  tickets (store w) !! o = Some x →
  let y := Ticket.checkSLABreaches now x in
  Ticket.isResponseBreached (Ticket.sla_ y)
  = negb (bool_decide (is_Some (Ticket.firstResponseAt x)))
    && Ticket.past now (Ticket.responseDeadline (Ticket.sla_ x))
  ∧ Ticket.isResolutionBreached (Ticket.sla_ y)
  = negb (bool_decide (is_Some (Ticket.resolvedAt x)))
    && Ticket.past now (Ticket.resolutionDeadline (Ticket.sla_ x)).
Proof.
  intros Hw Hx y.
  destruct (reachable_no_stored_flag w Hw o x Hx) as [Hr Hs].
  destruct (checkSLABreaches_flags now x) as [H1 H2].
  subst y. by rewrite H1, H2, Hr, Hs.
Qed.

(** ** The [trim] setter *)

Lemma string_app_cons a (s t : string) : String a s +:+ t = String a (s +:+ t).
Proof. reflexivity. Qed.

Lemma string_app_assoc (s1 s2 s3 : string) :
  (s1 +:+ s2) +:+ s3 = s1 +:+ (s2 +:+ s3).
Proof.
  induction s1 as [|a s1 IH]; [done|]. by rewrite !string_app_cons, IH.
Qed.

Lemma rev_app_append s1 s2 : String.rev_app s1 s2 = String.rev s1 +:+ s2.
Proof.
  unfold String.rev. revert s2.
  induction s1 as [|a s1 IH]; intros s2; simpl; [done|].
  rewrite (IH (String a s2)), (IH (String a "")).
  by rewrite string_app_assoc.
Qed.

Lemma rev_cons a s : String.rev (String a s) = String.rev s +:+ String a "".
Proof. unfold String.rev at 1. simpl. apply rev_app_append. Qed.

Lemma rev_snoc s a : String.rev (s +:+ String a "") = String a (String.rev s).
Proof.
  induction s as [|b s IH]; [done|].
  by rewrite string_app_cons, !rev_cons, IH.
Qed.

Lemma rev_involutive s : String.rev (String.rev s) = s.
Proof.
  induction s as [|a s IH]; [done|]. by rewrite rev_cons, rev_snoc, IH.
Qed.

(** A string that does not start (end) with white space. *)
Lemma trim_start_fixed a s : JS.is_ws a = false → JS.trim_start (String a s) = String a s.
Proof. simpl. by intros ->. Qed.

Lemma trim_start_head s :
  JS.trim_start s = ""
  ∨ ∃ a s', JS.trim_start s = String a s' ∧ JS.is_ws a = false.
Proof.
  induction s as [|a s IH]; simpl; [by left|].
  destruct (JS.is_ws a) eqn:E; [done|]. right. eauto.
Qed.

Lemma trim_start_last s :
  s = "" ∨ (∃ v a, s = v +:+ String a "" ∧ JS.is_ws a = false) →
  JS.trim_start s = ""
  ∨ ∃ v a, JS.trim_start s = v +:+ String a "" ∧ JS.is_ws a = false.
Proof.
  induction s as [|c s IH]; simpl; [by left|].
  intros [?|(v & a & Hs & Ha)]; [done|].
  destruct (JS.is_ws c) eqn:E; [|right; eauto].
  apply IH. destruct v as [|c' v].
  - injection Hs as -> ->. congruence.
  - rewrite string_app_cons in Hs. injection Hs as -> ->. right. eauto.
Qed.

Lemma trim_idempotent s : JS.trim (JS.trim s) = JS.trim s.
Proof.
  unfold JS.trim.
  assert (String.rev (JS.trim_start s) = ""
          ∨ ∃ v a, String.rev (JS.trim_start s) = v +:+ String a ""
                   ∧ JS.is_ws a = false) as Hlast.
  { destruct (trim_start_head s) as [->|(a & s' & -> & Ha)]; [by left|].
    right. exists (String.rev s'), a. by rewrite rev_cons. }
  apply trim_start_last in Hlast.
  set (b := JS.trim_start (String.rev (JS.trim_start s))) in *.
  assert (JS.trim_start (String.rev b) = String.rev b) as ->.
  { destruct Hlast as [->|(v & a & -> & Ha)]; [done|].
    rewrite rev_snoc. by apply trim_start_fixed. }
  rewrite rev_involutive.
  assert (JS.trim_start b = b) as ->; [|done].
  unfold b. destruct (trim_start_head (String.rev (JS.trim_start s)))
    as [->|(a & s' & -> & Ha)]; [done|]. by apply trim_start_fixed.
Qed.

(** ** Documents: what assignments and the hook can change *)

Lemma put_read_other p q v x x' :
  Ticket.put p v x = Some x' → q ≠ p → Ticket.read q x' = Ticket.read q x.
Proof.
  destruct p; simpl; intros H Hq; simplify_option_eq; by destruct q.
Qed.

Lemma put_trimmed p v x x' : Ticket.put p v x = Some x' → trimmed x → trimmed x'.
Proof.
  unfold trimmed. destruct p; simpl; intros H Hx; simplify_option_eq; try done.
  apply trim_idempotent.
Qed.

Lemma loaded_tracked x : tracked x (Ticket.loaded x).
Proof. unfold tracked. simpl. repeat split; auto. Qed.

Lemma assign_tracked x0 p v d : tracked x0 d → tracked x0 (Ticket.assign p v d).
Proof.
  intros (Hn & Hid & Hcb & Hca & Hsla & Hver & Hres & Hcl & Hfr & Htr & Hp).
  unfold Ticket.assign. destruct (Ticket.put p v (Ticket.data d)) as [x'|] eqn:Hput.
  - destruct (put_same_core _ _ _ _ Hput)
      as (Hid' & Hver' & Hsla' & Hcb' & Hca' & _ & Hfr' & Hres' & Hcl').
    rewrite Hn. cbn [orb]. case_bool_decide as Hsame; cbn [negb].
    { by repeat split. }
    unfold tracked. cbn [Ticket.mark Ticket.with_data Ticket.isNew Ticket.data
                         Ticket.modified].
    split; [done|]. split; [congruence|]. split; [congruence|].
    split; [congruence|]. split; [congruence|]. split; [congruence|].
    split; [congruence|]. split; [congruence|].
    split; [rewrite Hfr'; exact Hfr|].
    split; [intros ?; eapply put_trimmed; eauto|].
    intros q. destruct (decide (q = p)) as [->|Hq].
    + left. case_bool_decide; [done|]. apply elem_of_app. right.
      by apply list_elem_of_singleton.
    + rewrite (put_read_other _ _ _ _ _ Hput Hq).
      destruct (Hp q) as [Hin|?]; [|by right].
      left. case_bool_decide; [done|]. apply elem_of_app. by left.
  - by repeat split.
Qed.

Lemma assign_all_tracked x0 fu d : tracked x0 d → tracked x0 (assign_all fu d).
Proof.
  unfold assign_all. revert d. induction fu as [|[k v] fu IH]; intros d Hd; [done|].
  simpl. apply IH. destruct (Ticket.of_key k); [by apply assign_tracked|done].
Qed.

(** The validator of a path reads that path only. *)
Lemma validate_path_read p x y :
  Ticket.read p x = Ticket.read p y →
  Ticket.validate_path x (Ticket.name p) = Ticket.validate_path y (Ticket.name p).
Proof.
  destruct p; unfold Ticket.validate_path; simpl; intros [= H];
    rewrite ?H; reflexivity.
Qed.

Lemma first_error_None x ks :
  Ticket.first_error x ks = None ↔ ∀ k, k ∈ ks → Ticket.validate_path x k = None.
Proof.
  induction ks as [|k ks IH]; simpl.
  - split; [|done]. intros _ k Hk. by apply elem_of_nil in Hk.
  - destruct (Ticket.validate_path x k) eqn:E.
    + split; [done|]. intros H. specialize (H k). rewrite E in H.
      apply H. by left.
    + rewrite IH. split.
      * intros H k' [->|?]%elem_of_cons; auto.
      * intros H k' ?. apply H. by right.
Qed.

(** A loaded document of a valid ticket that passes validation holds valid
    values on every path. *)
Lemma tracked_validated x0 d :
  Ticket.first_error x0 (Ticket.name <$> Ticket.all_paths) = None →
  tracked x0 d → Ticket.validate d = None →
  Ticket.first_error (Ticket.data d) (Ticket.name <$> Ticket.all_paths) = None.
Proof.
  rewrite !first_error_None. intros Hx0 Ht Hv k Hk.
  destruct Ht as (Hn & _ & _ & _ & _ & _ & _ & _ & _ & _ & Hp).
  unfold Ticket.validate in Hv. rewrite Hn in Hv.
  destruct (Ticket.invalid d); [|done].
  rewrite first_error_None in Hv.
  apply list_elem_of_fmap in Hk as (p & -> & _).
  destruct (Hp p) as [Hin|Hsame]; [by apply Hv|].
  rewrite (validate_path_read _ _ _ Hsame). apply Hx0.
  apply list_elem_of_fmap. exists p. split; [done|].
  destruct p; unfold Ticket.all_paths; repeat constructor.
Qed.

(** The hook on a loaded document with a modified path, field by field. *)
Lemma pre_save_loaded_fields now d :
  Ticket.isNew d = false → Ticket.modified d ≠ [] →
  let x := Ticket.data d in
  let y := Ticket.data (Ticket.pre_save now d) in
  (∀ p, Ticket.read p y = Ticket.read p x)
  ∧ Ticket._id y = Ticket._id x
  ∧ Ticket.createdBy y = Ticket.createdBy x
  ∧ Ticket.createdAt y = Ticket.createdAt x
  ∧ Ticket.sla_ y = Ticket.sla_ x
  ∧ Ticket.firstResponseAt y = Ticket.firstResponseAt x
  ∧ Ticket.version y = Ticket.version x + 1
  ∧ Ticket.updatedAt y = now
  ∧ Ticket.resolvedAt y
    = (if bool_decide ("status" ∈ Ticket.modified d)
          && bool_decide (Ticket.status x = "resolved")
          && negb (bool_decide (is_Some (Ticket.resolvedAt x)))
       then Some now else Ticket.resolvedAt x)
  ∧ Ticket.closedAt y
    = (if bool_decide ("status" ∈ Ticket.modified d)
          && bool_decide (Ticket.status x = "closed")
          && negb (bool_decide (is_Some (Ticket.closedAt x)))
       then Some now else Ticket.closedAt x).
Proof.
  destruct d as [x n m i]. simpl. intros -> Hm.
  unfold Ticket.pre_save, Ticket.isModified, Ticket.isModified_path. simpl.
  rewrite (bool_decide_eq_false_2 (m = [])) by done. simpl.
  assert (bool_decide
            ("status" ∈ (if bool_decide
                           ("version" ∈ (if bool_decide ("updatedAt" ∈ m)
                                         then m else m ++ ["updatedAt"]))
                         then (if bool_decide ("updatedAt" ∈ m)
                               then m else m ++ ["updatedAt"])
                         else (if bool_decide ("updatedAt" ∈ m)
                               then m else m ++ ["updatedAt"]) ++ ["version"]))
          = bool_decide ("status" ∈ m)) as ->.
  { apply bool_decide_ext.
    destruct (bool_decide ("updatedAt" ∈ m)), (bool_decide ("version" ∈ _));
      rewrite ?elem_of_app, ?list_elem_of_singleton; intuition discriminate. }
  destruct (bool_decide ("status" ∈ m)); simpl; [|split; [by intros []|done]].
  destruct (bool_decide (Ticket.status x = "resolved")); simpl;
    destruct (bool_decide (is_Some (Ticket.resolvedAt x))); simpl;
    destruct (bool_decide (Ticket.status x = "closed")); simpl;
    destruct (bool_decide (is_Some (Ticket.closedAt x))); simpl;
    (split; [by intros []|done]).
Qed.

(** ** Later states of the database *)

Lemma grows_refl x : grows x x.
Proof. unfold grows. repeat split; auto. lia. Qed.

Lemma grows_trans x y z : grows x y → grows y z → grows x z.
Proof.
  intros (? & ? & ? & ? & ? & Hf & Hr & Hc) (? & ? & ? & ? & ? & Hf' & Hr' & Hc').
  unfold grows. repeat split; try congruence; auto. lia.
Qed.

Lemma same_account_refl u : same_account u u.
Proof. by repeat split. Qed.

Lemma evolves_refl s : evolves s s.
Proof.
  unfold evolves. repeat split; auto.
  - intros o x Hx. exists x. split; [done|]. apply grows_refl.
  - intros o u Hu. exists u. split; [done|]. apply same_account_refl.
Qed.

Lemma evolves_trans s1 s2 s3 : evolves s1 s2 → evolves s2 s3 → evolves s1 s3.
Proof.
  intros (Ht & Hc & Hk & Hu & Hn) (Ht' & Hc' & Hk' & Hu' & Hn').
  unfold evolves. split; [by etrans|]. split; [by etrans|].
  split; [|split].
  - intros o x Hx. destruct (Hk _ _ Hx) as (y & Hy & Hxy).
    destruct (Hk' _ _ Hy) as (z & Hz & Hyz). exists z. split; [done|].
    by eapply grows_trans.
  - intros o u Hu1. destruct (Hu _ _ Hu1) as (v & Hv & (? & ? & ? & ?)).
    destruct (Hu' _ _ Hv) as (w & Hw & (? & ? & ? & ?)). exists w.
    split; [done|]. unfold same_account. repeat split; congruence.
  - auto.
Qed.

(** Appending a timeline entry about a stored ticket. *)
Lemma append_timeline_sound s e :
  well_formed s → is_Some (tickets s !! Timeline.ticket e) →
  well_formed (with_timeline (timeline s ++ [e]) s)
  ∧ evolves s (with_timeline (timeline s ++ [e]) s).
Proof.
  intros (Hk & Hu & Hc & Ht) He. split.
  - unfold well_formed. cbn [tickets users comments timeline with_timeline].
    split; [done|]. split; [done|]. split; [done|].
    intros e' [?| ->%list_elem_of_singleton]%elem_of_app; auto.
  - unfold evolves. cbn [tickets users comments timeline with_timeline].
    split; [by apply prefix_app_r|]. split; [done|].
    split; [|split; [|done]].
    + intros o x Hx. exists x. split; [done|]. apply grows_refl.
    + intros o u Hu'. exists u. split; [done|]. apply same_account_refl.
Qed.

(** Appending a comment on a stored ticket. *)
Lemma append_comment_sound s c :
  well_formed s → is_Some (tickets s !! Comment.ticket c) →
  well_formed (with_comments (comments s ++ [c]) s)
  ∧ evolves s (with_comments (comments s ++ [c]) s).
Proof.
  intros (Hk & Hu & Hc & Ht) He. split.
  - unfold well_formed. cbn [tickets users comments timeline with_comments].
    split; [|split; [done|split; [|done]]].
    + intros o x Hx. destruct (Hk _ _ Hx) as (? & ? & ? & Hl).
      split; [done|]. split; [done|]. split; [done|].
      intros Hf. destruct (Hl Hf) as (c' & ? & ? & ?). exists c'.
      split; [|done]. apply elem_of_app. by left.
    + intros c' [?| ->%list_elem_of_singleton]%elem_of_app; auto.
  - unfold evolves. cbn [tickets users comments timeline with_comments].
    split; [done|]. split; [by apply prefix_app_r|].
    split; [|split; [|done]].
    + intros o x Hx. exists x. split; [done|]. apply grows_refl.
    + intros o u Hu'. exists u. split; [done|]. apply same_account_refl.
Qed.

(** Writing a later version [y] of the stored ticket [x]. *)
Lemma replace_ticket_sound s o x y :
  well_formed s → tickets s !! o = Some x →
  grows x y → schema_valid y →
  (is_Some (Ticket.firstResponseAt y) →
   ∃ c, c ∈ comments s ∧ Comment.ticket c = o ∧ Comment.type c = "comment") →
  well_formed (with_tickets (<[o := y]> (tickets s)) s)
  ∧ evolves s (with_tickets (<[o := y]> (tickets s)) s).
Proof.
  intros (Hk & Hu & Hc & Ht) Hx Hg Hv Hl.
  destruct (Hk _ _ Hx) as (Hid & _ & Hcb & _).
  pose proof Hg as (Hid' & Hcb' & _).
  split.
  - unfold well_formed. cbn [tickets users comments timeline with_tickets].
    split; [|split; [done|split]].
    + intros o' x' [[<- <-]|[? Hx']]%lookup_insert_Some.
      * split; [congruence|]. split; [done|]. split; [by rewrite Hcb'|done].
      * by apply Hk.
    + intros c Hin. apply lookup_insert_is_Some'. right. by apply Hc.
    + intros e Hin. apply lookup_insert_is_Some'. right. by apply Ht.
  - unfold evolves. cbn [tickets users comments timeline with_tickets].
    split; [done|]. split; [done|]. split; [|split; [|done]].
    + intros o' x' Hx'. destruct (decide (o' = o)) as [->|Hne].
      * exists y. rewrite lookup_insert_eq. split; [done|].
        rewrite Hx in Hx'. by injection Hx' as <-.
      * exists x'. rewrite lookup_insert_ne by done. split; [done|].
        apply grows_refl.
    + intros o' u Hu'. exists u. split; [done|]. apply same_account_refl.
Qed.

(** Storing a new ticket under a fresh [_id]. *)
Lemma insert_ticket_sound s o y :
  well_formed s → tickets s !! o = None →
  Ticket._id y = o → schema_valid y →
  is_Some (users s !! Ticket.createdBy y) →
  Ticket.firstResponseAt y = None →
  well_formed (with_tickets (<[o := y]> (tickets s)) s)
  ∧ evolves s (with_tickets (<[o := y]> (tickets s)) s).
Proof.
  intros (Hk & Hu & Hc & Ht) Hx Hid Hv Hcb Hf. split.
  - unfold well_formed. cbn [tickets users comments timeline with_tickets].
    split; [|split; [done|split]].
    + intros o' x' [[<- <-]|[? Hx']]%lookup_insert_Some.
      * split; [done|]. split; [done|]. split; [done|].
        rewrite Hf. by intros [? ?].
      * by apply Hk.
    + intros c Hin. apply lookup_insert_is_Some'. right. by apply Hc.
    + intros e Hin. apply lookup_insert_is_Some'. right. by apply Ht.
  - unfold evolves. cbn [tickets users comments timeline with_tickets].
    split; [done|]. split; [done|]. split; [|split; [|done]].
    + intros o' x' Hx'. exists x'. split; [|apply grows_refl].
      rewrite lookup_insert_ne; [done|]. intros <-. congruence.
    + intros o' u Hu'. exists u. split; [done|]. apply same_account_refl.
Qed.

(** ** Rules for [sound] *)

Lemma sound_bind {A B} P (m : M A) (k : A → M B) Q1 Q2 :
  sound P m Q1 → (∀ a, sound (Q1 a) (k a) Q2) → sound P (bind m k) Q2.
Proof.
  intros Hm Hk s s' r Hw HP [(s1 & a & Hms & Hks)|(e & Hms & ->)]%bind_inv.
  - destruct (Hm _ _ _ Hw HP Hms) as (Hw1 & He1 & HQ).
    destruct (Hk a _ _ _ Hw1 (HQ _ eq_refl) Hks) as (Hw2 & He2 & HQ2).
    split; [done|]. split; [by eapply evolves_trans|done].
  - destruct (Hm _ _ _ Hw HP Hms) as (Hw1 & He1 & _).
    split; [done|]. split; [done|]. by intros.
Qed.

Lemma sound_weaken {A} (P P' : db → Prop) (m : M A) (Q Q' : A → db → Prop) :
  sound P m Q → (∀ s, P' s → P s) → (∀ a s, Q a s → Q' a s) → sound P' m Q'.
Proof.
  intros Hm HP HQ s s' r Hw HP' Hms.
  destruct (Hm _ _ _ Hw (HP _ HP') Hms) as (? & ? & H).
  split; [done|]. split; [done|]. intros a Ha. apply HQ. by apply H.
Qed.

Lemma sound_ret {A} (P : db → Prop) (a : A) : sound P (ret a) (λ a' s, a' = a ∧ P s).
Proof.
  intros s s' r Hw HP [= <- <-]. split; [done|]. split; [apply evolves_refl|].
  by intros ? [= <-].
Qed.

Lemma sound_throw {A} (P : db → Prop) e (Q : A → db → Prop) : sound P (throw e) Q.
Proof.
  intros s s' r Hw HP [= <- <-]. split; [done|]. split; [apply evolves_refl|done].
Qed.

Lemma sound_respond (P : db → Prop) c b : sound P (respond c b) (λ _ _, True).
Proof.
  intros s s' r Hw HP [= <- <-]. split; [done|]. split; [apply evolves_refl|done].
Qed.

(** A step that only reads. *)
Lemma sound_read {A} (P : db → Prop) (m : M A) (V : A → db → Prop) :
  (∀ s s' r, m s = (s', r) → s' = s ∧ ∀ a, r = inr a → V a s) →
  sound P m (λ a s, P s ∧ V a s).
Proof.
  intros Hm s s' r Hw HP Hms. destruct (Hm _ _ _ Hms) as [-> HV].
  split; [done|]. split; [apply evolves_refl|]. intros a Ha. split; auto.
Qed.

Lemma Ticket_findById_inv v s s' r :
  Ticket_findById v s = (s', r) →
  s' = s ∧ ∀ found, r = inr found →
    ∃ o, Mongoose.cast_id v = Some o ∧ found = Ticket.loaded <$> tickets s !! o.
Proof.
  unfold Ticket_findById. destruct (Mongoose.cast_id v) as [o|];
    intros [= <- <-]; (split; [done|]); [|done].
  intros found [= <-]. eauto.
Qed.

Lemma sound_Ticket_findById (P : db → Prop) v :
  sound P (Ticket_findById v)
    (λ found s, P s ∧ ∃ o, Mongoose.cast_id v = Some o
                           ∧ found = Ticket.loaded <$> tickets s !! o).
Proof. apply sound_read, Ticket_findById_inv. Qed.

Lemma sound_maybe_find (P : db → Prop) v :
  sound P (if JS.truthy v then User_findById v else ret None) (λ _ s, P s).
Proof.
  eapply sound_weaken; [apply (sound_read P _ (λ _ _, True))| |].
  - intros s s' r H. by apply maybe_find_state in H as ->.
  - done.
  - by intros ? ? [? _].
Qed.

Lemma sound_createTimelineEntry (P : db → Prop) now tv uid action description details :
  (∀ s l, P s → P (with_timeline l s)) →
  (∀ s tid, P s → Mongoose.cast_id tv = Some tid → is_Some (tickets s !! tid)) →
  sound P (createTimelineEntry now tv uid action description details) (λ _ s, P s).
Proof.
  intros Hframe Hex s s' r Hw HP. unfold createTimelineEntry.
  destruct (Mongoose.cast_id tv) as [tid|] eqn:Hc.
  - case_match.
    + intros [= <- <-]. split; [done|]. split; [apply evolves_refl|done].
    + intros [= <- <-].
      match goal with |- context [timeline s ++ [?e']] => set (e := e') end.
      destruct (append_timeline_sound s e Hw) as [? ?]; [by eapply Hex|].
      split; [done|]. split; [done|]. intros _ _. by apply Hframe.
  - intros [= <- <-]. split; [done|]. split; [apply evolves_refl|done].
Qed.

Lemma sound_for_each {A} (P : db → Prop) (l : list A) (f : A → M unit) :
  (∀ x, sound P (f x) (λ _ s, P s)) → sound P (for_each l f) (λ _ s, P s).
Proof.
  intros Hf. induction l as [|x l IH]; simpl.
  - eapply sound_weaken; [apply sound_ret|done|]. by intros ? ? [_ ?].
  - eapply sound_bind; [apply Hf|]. intros ?. apply IH.
Qed.

Lemma sound_assume {A} (P : db → Prop) (φ : Prop) (m : M A) Q :
  (∀ s, well_formed s → P s → φ) → (φ → sound P m Q) → sound P m Q.
Proof. intros Hφ Hm s s' r Hw HP. apply Hm; eauto. Qed.

Lemma save_loaded_inv now d s s' r :
  Ticket.isNew d = false →
  save now d s = (s', r) →
  (∃ e, r = inl e ∧ s' = s)
  ∨ (Ticket.modified d = [] ∧ r = inr d ∧ s' = s)
  ∨ (Ticket.modified d ≠ [] ∧ Ticket.validate d = None
     ∧ r = inr (committed (Ticket.pre_save now d))
     ∧ s' = with_tickets
              (<[Ticket._id (Ticket.data d) := Ticket.data (Ticket.pre_save now d)]>
                 (tickets s)) s).
Proof.
  intros Hn Hs. destruct (Ticket.validate d) as [e|] eqn:Hv.
  - left. exists e. unfold save in Hs. rewrite Hv in Hs. by injection Hs as <- <-.
  - apply save_loaded in Hs as [(e & -> & ->)|[?|(? & ? & ?)]]; [eauto|auto|auto 10|done].
Qed.

Lemma first_error_same_reads x y :
  (∀ p, Ticket.read p y = Ticket.read p x) →
  Ticket.first_error x (Ticket.name <$> Ticket.all_paths) = None →
  Ticket.first_error y (Ticket.name <$> Ticket.all_paths) = None.
Proof.
  rewrite !first_error_None. intros Hr Hx k Hk.
  pose proof Hk as (p & -> & _)%list_elem_of_fmap.
  rewrite (validate_path_read p y x (Hr p)). by apply Hx.
Qed.

(** Saving a loaded document of the stored ticket [x0]. *)
Lemma sound_save_loaded now d x0 :
  tracked x0 d →
  sound (λ s, tickets s !! Ticket._id x0 = Some x0
              ∧ (Ticket.firstResponseAt (Ticket.data d) = Ticket.firstResponseAt x0
                 ∨ ∃ c, c ∈ comments s ∧ Comment.ticket c = Ticket._id x0
                        ∧ Comment.type c = "comment"))
        (save now d)
        (λ _ s, is_Some (tickets s !! Ticket._id x0)).
Proof.
  intros Ht s s' r Hw [Hx Hlink] Hsave.
  pose proof Ht as (Hn & Hid & Hcb & Hca & Hsla & Hver & Hres & Hcl & Hfr & Htr & Hp).
  apply (save_loaded_inv _ _ _ _ _ Hn) in Hsave
    as [(e & -> & ->)|[(Hm & -> & ->)|(Hm & Hv & -> & ->)]].
  - split; [done|]. split; [apply evolves_refl|done].
  - split; [done|]. split; [apply evolves_refl|]. intros _ _. by rewrite Hx.
  - destruct (pre_save_loaded_fields now d Hn Hm)
      as (Hrd & Hid' & Hcb' & Hca' & Hsla' & Hfr' & Hver' & Hup' & Hres' & Hcl').
    set (y := Ticket.data (Ticket.pre_save now d)) in *.
    pose proof Hw as (Hk & _).
    destruct (Hk _ _ Hx) as (_ & (Hval & Htrim & Hrdl & Hsdl & Hv0 & Hrs & Hcs) & _ & Hl0).
    rewrite Hid.
    assert (Ticket.status y = Ticket.status (Ticket.data d)) as Hst.
    { specialize (Hrd Ticket.Status). by injection Hrd. }
    destruct (replace_ticket_sound s (Ticket._id x0) x0 y Hw Hx) as [Hw' He'].
    + unfold grows. rewrite Hid', Hcb', Hca', Hsla', Hver', Hfr', Hres', Hcl'.
      rewrite Hres, Hcl, Hver.
      split; [done|]. split; [done|]. split; [done|]. split; [done|].
      split; [lia|]. split; [|split].
      * intros t Hx0. destruct Hfr as [->|?]; congruence.
      * intros t Hx0. rewrite Hx0.
        rewrite (bool_decide_eq_true_2 (is_Some (Some t))) by eauto.
        by rewrite andb_false_r.
      * intros t Hx0. rewrite Hx0.
        rewrite (bool_decide_eq_true_2 (is_Some (Some t))) by eauto.
        by rewrite andb_false_r.
    + unfold schema_valid.
      split; [|split; [|split; [|split; [|split; [|split]]]]].
      * apply (first_error_same_reads (Ticket.data d)); [done|].
        by apply (tracked_validated x0).
      * unfold trimmed. specialize (Hrd Ticket.Title). injection Hrd as ->.
        by apply Htr.
      * by rewrite Hsla', Hsla.
      * by rewrite Hsla', Hsla.
      * rewrite Hver', Hver. lia.
      * rewrite Hst, Hres'. intros Hs. rewrite (bool_decide_eq_true_2 _ Hs).
        destruct (Hp Ticket.Status) as [Hin|Hsame].
        -- rewrite (bool_decide_eq_true_2 _ Hin). cbn [andb].
           destruct (Ticket.resolvedAt (Ticket.data d)) eqn:E; [|by eauto].
           rewrite (bool_decide_eq_true_2 (is_Some (Some z))) by eauto. by eauto.
        -- injection Hsame as Hsame. rewrite Hsame in Hs.
           specialize (Hrs Hs). rewrite Hres. destruct Hrs as [t ->].
           rewrite (bool_decide_eq_true_2 (is_Some (Some t))) by eauto.
           rewrite andb_false_r. eauto.
      * rewrite Hst, Hcl'. intros Hs. rewrite (bool_decide_eq_true_2 _ Hs).
        destruct (Hp Ticket.Status) as [Hin|Hsame].
        -- rewrite (bool_decide_eq_true_2 _ Hin). cbn [andb].
           destruct (Ticket.closedAt (Ticket.data d)) eqn:E; [|by eauto].
           rewrite (bool_decide_eq_true_2 (is_Some (Some z))) by eauto. by eauto.
        -- injection Hsame as Hsame. rewrite Hsame in Hs.
           specialize (Hcs Hs). rewrite Hcl. destruct Hcs as [t ->].
           rewrite (bool_decide_eq_true_2 (is_Some (Some t))) by eauto.
           rewrite andb_false_r. eauto.
    + rewrite Hfr'. intros Hsome. destruct Hlink as [Heq|?]; [|done].
      apply Hl0. by rewrite <- Heq.
    + split; [done|]. split; [done|]. intros _ _.
      cbn [tickets with_tickets]. rewrite lookup_insert_eq. eauto.
Qed.

(** ** The constructor and the first save *)

Lemma assign_invalid p v d :
  Ticket.invalid (Ticket.assign p v d) = [] →
  Ticket.invalid d = [] ∧ is_Some (Ticket.put p v (Ticket.data d)).
Proof.
  unfold Ticket.assign. destruct (Ticket.put p v (Ticket.data d)) as [x'|].
  - intros H. split; [|by eauto]. by destruct (Ticket.isNew d || _).
  - simpl. by intros [_ ?]%app_eq_nil.
Qed.

Lemma put_string_Some p v x :
  p ≠ Ticket.AssignedTo → p ≠ Ticket.Tags →
  is_Some (Ticket.put p v x) → is_Some (Mongoose.cast_string v).
Proof.
  destruct p; try done; simpl; intros _ _ [y Hy];
    destruct (Mongoose.cast_string v); eauto; done.
Qed.

(** The document built from four values that cast. *)
Lemma construct_data id now title description priority category createdBy t ds p c :
  Mongoose.cast_string title = Some t →
  Mongoose.cast_string description = Some ds →
  Mongoose.cast_string priority = Some p →
  Mongoose.cast_string category = Some c →
  Ticket.construct id now title description priority category createdBy
  = {| Ticket.data :=
         {| Ticket._id := id; Ticket.title := JS.trim t;
            Ticket.description := ds; Ticket.status := "open";
            Ticket.priority := p; Ticket.category := c;
            Ticket.createdBy := createdBy; Ticket.assignedTo := Unset;
            Ticket.sla_ :=
              {| Ticket.responseTime := Ticket.responseTime_default p;
                 Ticket.resolutionTime := Ticket.resolutionTime_default p;
                 Ticket.responseDeadline := None;
                 Ticket.resolutionDeadline := None;
                 Ticket.isResponseBreached := false;
                 Ticket.isResolutionBreached := false |};
            Ticket.tags := []; Ticket.version := 0; Ticket.createdAt := now;
            Ticket.updatedAt := now; Ticket.firstResponseAt := None;
            Ticket.resolvedAt := None; Ticket.closedAt := None |};
       Ticket.isNew := true;
       Ticket.modified := ["title"; "description"; "priority"; "category"; "createdBy"];
       Ticket.invalid := [] |}.
Proof.
  intros Ht Hd Hp Hc. unfold Ticket.construct, Ticket.assign.
  cbn [Ticket.put Ticket.data Ticket.isNew]. rewrite Ht. cbn [mbind option_bind].
  cbn [orb Ticket.mark Ticket.with_data Ticket.data Ticket.isNew
       Ticket.modified Ticket.invalid Ticket.name Ticket.put].
  rewrite Hd. cbn [mbind option_bind].
  cbn [orb Ticket.mark Ticket.with_data Ticket.data Ticket.isNew
       Ticket.modified Ticket.invalid Ticket.name Ticket.put].
  rewrite Hp. cbn [mbind option_bind].
  cbn [orb Ticket.mark Ticket.with_data Ticket.data Ticket.isNew
       Ticket.modified Ticket.invalid Ticket.name Ticket.put].
  rewrite Hc. reflexivity.
Qed.

Lemma construct_casts id now title description priority category createdBy :
  Ticket.validate
    (Ticket.construct id now title description priority category createdBy) = None →
  ∃ t ds p c,
    Mongoose.cast_string title = Some t
    ∧ Mongoose.cast_string description = Some ds
    ∧ Mongoose.cast_string priority = Some p
    ∧ Mongoose.cast_string category = Some c.
Proof.
  unfold Ticket.validate.
  destruct (Ticket.invalid (Ticket.construct _ _ _ _ _ _ _)) eqn:Hi; [|done].
  intros _. unfold Ticket.construct in Hi.
  cbn [Ticket.invalid Ticket.with_data Ticket.mark] in Hi.
  apply assign_invalid in Hi as [Hi [c Hc]%put_string_Some]; try done.
  apply assign_invalid in Hi as [Hi [p Hp]%put_string_Some]; try done.
  apply assign_invalid in Hi as [Hi [ds Hd]%put_string_Some]; try done.
  apply assign_invalid in Hi as [Hi [t Ht]%put_string_Some]; try done.
  eauto 10.
Qed.

(** [Ticket.create]: either nothing is written, or the four values cast,
    every validator passes and the ticket below is stored under the fresh
    [id]. *)
Lemma Ticket_create_inv id now title description priority category createdBy s s' r :
  Ticket_create id now title description priority category createdBy s = (s', r) →
  (∃ e, r = inl e ∧ s' = s)
  ∨ ∃ t ds p c,
      Mongoose.cast_string title = Some t
      ∧ Mongoose.cast_string description = Some ds
      ∧ Mongoose.cast_string priority = Some p
      ∧ Mongoose.cast_string category = Some c
      ∧ let y :=
          {| Ticket._id := id; Ticket.title := JS.trim t;
             Ticket.description := ds; Ticket.status := "open";
             Ticket.priority := p; Ticket.category := c;
             Ticket.createdBy := createdBy; Ticket.assignedTo := Unset;
             Ticket.sla_ :=
               {| Ticket.responseTime := Ticket.responseTime_default p;
                  Ticket.resolutionTime := Ticket.resolutionTime_default p;
                  Ticket.responseDeadline :=
                    Some (now + Ticket.hours (Ticket.responseTime_default p));
                  Ticket.resolutionDeadline :=
                    Some (now + Ticket.hours (Ticket.resolutionTime_default p));
                  Ticket.isResponseBreached := false;
                  Ticket.isResolutionBreached := false |};
             Ticket.tags := []; Ticket.version := 0; Ticket.createdAt := now;
             Ticket.updatedAt := now; Ticket.firstResponseAt := None;
             Ticket.resolvedAt := None; Ticket.closedAt := None |} in
        Ticket.first_error y (Ticket.name <$> Ticket.all_paths) = None
        ∧ tickets s !! id = None
        ∧ (∃ d1, r = inr d1 ∧ Ticket.data d1 = y)
        ∧ s' = with_tickets (<[id := y]> (tickets s)) s.
Proof.
  unfold Ticket_create, save.
  destruct (Ticket.validate _) as [e|] eqn:Hv.
  { intros [= <- <-]. left. eauto. }
  destruct (construct_casts _ _ _ _ _ _ _ Hv) as (t & ds & p & c & Ht & Hd & Hp & Hc).
  rewrite (construct_data _ _ _ _ _ _ _ _ _ _ _ Ht Hd Hp Hc) in Hv |- *.
  match goal with
  | |- context [Ticket.pre_save now ?d] =>
      assert (Ticket.pre_save now d
              = {| Ticket.data :=
                     {| Ticket._id := id; Ticket.title := JS.trim t;
                        Ticket.description := ds; Ticket.status := "open";
                        Ticket.priority := p; Ticket.category := c;
                        Ticket.createdBy := createdBy; Ticket.assignedTo := Unset;
                        Ticket.sla_ :=
                          {| Ticket.responseTime := Ticket.responseTime_default p;
                             Ticket.resolutionTime := Ticket.resolutionTime_default p;
                             Ticket.responseDeadline :=
                               Some (now + Ticket.hours (Ticket.responseTime_default p));
                             Ticket.resolutionDeadline :=
                               Some (now + Ticket.hours (Ticket.resolutionTime_default p));
                             Ticket.isResponseBreached := false;
                             Ticket.isResolutionBreached := false |};
                        Ticket.tags := []; Ticket.version := 0;
                        Ticket.createdAt := now; Ticket.updatedAt := now;
                        Ticket.firstResponseAt := None; Ticket.resolvedAt := None;
                        Ticket.closedAt := None |};
                   Ticket.isNew := true;
                   Ticket.modified :=
                     ["title"; "description"; "priority"; "category"; "createdBy"];
                   Ticket.invalid := [] |}) as -> by reflexivity
  end.
  cbn [Ticket.isNew Ticket.data Ticket._id Ticket.with_sla].
  case_bool_decide as Hdup; intros [= <- <-]; [left; eauto|].
  right. exists t, ds, p, c. repeat (split; [done|]).
  split; [by apply eq_None_not_Some|].
  split; [|done]. eexists. split; [done|]. reflexivity.
Qed.

(** ** Creation *)

Lemma default_hours p :
  (Ticket.responseTime_default p, Ticket.resolutionTime_default p)
  ∈ [(48, 168); (24, 72); (8, 24); (2, 8)]
  ∧ (p ∉ Ticket.priority_enum →
     Ticket.responseTime_default p = 24 ∧ Ticket.resolutionTime_default p = 72).
Proof.
  unfold Ticket.responseTime_default, Ticket.resolutionTime_default,
    Ticket.priority_enum. simpl.
  destruct (bool_decide ("low" = p)) eqn:E1.
  { apply bool_decide_eq_true in E1 as <-. simpl.
    split; [repeat constructor|]. intros []. repeat constructor. }
  destruct (bool_decide ("medium" = p)) eqn:E2.
  { apply bool_decide_eq_true in E2 as <-. simpl.
    split; [repeat constructor|]. intros []. repeat constructor. }
  destruct (bool_decide ("high" = p)) eqn:E3.
  { apply bool_decide_eq_true in E3 as <-. simpl.
    split; [repeat constructor|]. intros []. repeat constructor. }
  destruct (bool_decide ("urgent" = p)) eqn:E4.
  { apply bool_decide_eq_true in E4 as <-. simpl.
    split; [repeat constructor|]. intros []. repeat constructor. }
  simpl. split; [repeat constructor|done].
Qed.

Lemma validators_pass x :
  Ticket.first_error x (Ticket.name <$> Ticket.all_paths) = None →
  Ticket.title x ≠ "" ∧ (String.length (Ticket.title x) ≤ 200)%nat
  ∧ Ticket.description x ≠ "" ∧ (String.length (Ticket.description x) ≤ 2000)%nat
  ∧ Ticket.status x ∈ Ticket.status_enum
  ∧ Ticket.priority x ∈ Ticket.priority_enum
  ∧ Ticket.category x ∈ Ticket.category_enum.
Proof.
  rewrite first_error_None. intros H.
  assert (∀ p, Ticket.validate_path x (Ticket.name p) = None) as Hp.
  { intros p. apply H, list_elem_of_fmap. exists p. split; [done|].
    destruct p; unfold Ticket.all_paths; repeat constructor. }
  pose proof (Hp Ticket.Title) as H1. pose proof (Hp Ticket.Description) as H2.
  pose proof (Hp Ticket.Status) as H3. pose proof (Hp Ticket.Priority) as H4.
  pose proof (Hp Ticket.Category) as H5.
  unfold Ticket.validate_path in H1, H2, H3, H4, H5. simpl in H1, H2, H3, H4, H5.
  repeat case_bool_decide; try done. repeat split; try done; lia.
Qed.

(** X1.  A successful POST /api/tickets stores, under the new id, a ticket
    with the trimmed title and the description of the request, status
    [open] whatever the request says, a priority and a category of the
    schema's enums ([medium] and [general] when the request gives none),
    the requester as creator, no assignee, no tags, version 0, no stamps,
    clear breach flags, and the hour figures of its priority with both
    deadlines counted from the time of the request: the response deadline
    lies after that time and before the resolution deadline. *)
Theorem post_ticket_stores now new_id user body s r s' :
  run (post_ticket now new_id user body) s = (r, s') →
  is_success r = true →
  ∃ x t ds,
    r = {| statusCode := 201; payload := TicketOk x |}
    ∧ tickets s' = <[new_id := x]> (tickets s)
    ∧ Mongoose.cast_string (JS.get body "title") = Some t
    ∧ Mongoose.cast_string (JS.get body "description") = Some ds
    ∧ Ticket._id x = new_id
    ∧ Ticket.title x = JS.trim t
    ∧ Ticket.description x = ds
    ∧ Ticket.status x = "open"
    ∧ Ticket.priority x ∈ Ticket.priority_enum
    ∧ (JS.truthy (JS.get body "priority") = false → Ticket.priority x = "medium")
    ∧ Ticket.category x ∈ Ticket.category_enum
    ∧ (JS.truthy (JS.get body "category") = false → Ticket.category x = "general")
    ∧ Ticket.createdBy x = User._id user
    ∧ Ticket.assignedTo x = Unset
    ∧ Ticket.tags x = []
    ∧ Ticket.version x = 0
    ∧ Ticket.createdAt x = now
    ∧ Ticket.updatedAt x = now
    ∧ Ticket.firstResponseAt x = None
    ∧ Ticket.resolvedAt x = None
    ∧ Ticket.closedAt x = None
    ∧ Ticket.sla_ x
      = {| Ticket.responseTime := Ticket.responseTime_default (Ticket.priority x);
           Ticket.resolutionTime := Ticket.resolutionTime_default (Ticket.priority x);
           Ticket.responseDeadline :=
             Some (now + Ticket.hours (Ticket.responseTime_default (Ticket.priority x)));
           Ticket.resolutionDeadline :=
             Some (now + Ticket.hours (Ticket.resolutionTime_default (Ticket.priority x)));
           Ticket.isResponseBreached := false;
           Ticket.isResolutionBreached := false |}
    ∧ ∃ rd sd, Ticket.responseDeadline (Ticket.sla_ x) = Some rd
               ∧ Ticket.resolutionDeadline (Ticket.sla_ x) = Some sd
               ∧ now < rd < sd.
Proof.
  intros Hrun Hok. apply run_success in Hrun; [|done].
  unfold post_ticket in Hrun.
  destruct (negb (JS.truthy (JS.get body "title"))); [early Hrun|].
  destruct (negb (JS.truthy (JS.get body "description"))); [early Hrun|].
  apply bind_inv in Hrun as [(s1 & d1 & Hsave & Hrun)|(? & _ & ?)]; [|done].
  apply bind_inv in Hrun as [(s2 & [] & Hlog & Hrun)|(? & _ & ?)]; [|done].
  injection Hrun as <- <-.
  apply Ticket_create_inv in Hsave
    as [(? & ? & _)|(t & ds & p & c & Ht & Hd & Hp & Hc & Hv & Hfresh & (? & [= <-] & Hd1) & ->)];
    [done|].
  eapply createTimelineEntry_inv in Hlog as [(e & _ & Hlog & _)|(? & ? & _)];
    [|done|done].
  rewrite (logged_tickets _ _ _ _ Hlog). cbn [tickets with_tickets].
  rewrite Hd1. eexists _, t, ds. split; [done|]. split; [done|].
  cbn [Ticket._id Ticket.title Ticket.description Ticket.status Ticket.priority
       Ticket.category Ticket.createdBy Ticket.assignedTo Ticket.tags
       Ticket.version Ticket.createdAt Ticket.updatedAt Ticket.firstResponseAt
       Ticket.resolvedAt Ticket.closedAt Ticket.sla_ Ticket.responseDeadline
       Ticket.resolutionDeadline].
  apply validators_pass in Hv as (_ & _ & _ & _ & _ & Hpe & Hce).
  cbn [Ticket.priority Ticket.category] in Hpe, Hce.
  repeat (split; [done|]).
  split.
  { intros Hf. unfold JS.or in Hp. rewrite Hf in Hp. by injection Hp as <-. }
  split; [done|]. split.
  { intros Hf. unfold JS.or in Hc. rewrite Hf in Hc. by injection Hc as <-. }
  repeat (split; [done|]).
  eexists _, _. split; [done|]. split; [done|].
  destruct (default_hours p) as [Hh _]. unfold Ticket.hours.
  repeat (apply elem_of_cons in Hh as [[= -> ->]|Hh]; [lia|]).
  by apply elem_of_nil in Hh.
Qed.

Lemma post_ticket_stores_witness :
  let out := run (post_ticket Sample.T0 Sample.t1 Sample.john Sample.urgent_body)
               Sample.empty_db in
  ∃ x t ds,
    out.1 = {| statusCode := 201; payload := TicketOk x |}
    ∧ tickets out.2 = <[Sample.t1 := x]> (tickets Sample.empty_db)
    ∧ Mongoose.cast_string (JS.get Sample.urgent_body "title") = Some t
    ∧ Mongoose.cast_string (JS.get Sample.urgent_body "description") = Some ds
    ∧ Ticket._id x = Sample.t1
    ∧ Ticket.title x = JS.trim t
    ∧ Ticket.description x = ds
    ∧ Ticket.status x = "open"
    ∧ Ticket.priority x ∈ Ticket.priority_enum
    ∧ (JS.truthy (JS.get Sample.urgent_body "priority") = false
       → Ticket.priority x = "medium")
    ∧ Ticket.category x ∈ Ticket.category_enum
    ∧ (JS.truthy (JS.get Sample.urgent_body "category") = false
       → Ticket.category x = "general")
    ∧ Ticket.createdBy x = User._id Sample.john
    ∧ Ticket.assignedTo x = Unset
    ∧ Ticket.tags x = []
    ∧ Ticket.version x = 0
    ∧ Ticket.createdAt x = Sample.T0
    ∧ Ticket.updatedAt x = Sample.T0
    ∧ Ticket.firstResponseAt x = None
    ∧ Ticket.resolvedAt x = None
    ∧ Ticket.closedAt x = None
    ∧ Ticket.sla_ x
      = {| Ticket.responseTime := Ticket.responseTime_default (Ticket.priority x);
           Ticket.resolutionTime := Ticket.resolutionTime_default (Ticket.priority x);
           Ticket.responseDeadline :=
             Some (Sample.T0
                   + Ticket.hours (Ticket.responseTime_default (Ticket.priority x)));
           Ticket.resolutionDeadline :=
             Some (Sample.T0
                   + Ticket.hours (Ticket.resolutionTime_default (Ticket.priority x)));
           Ticket.isResponseBreached := false;
           Ticket.isResolutionBreached := false |}
    ∧ ∃ rd sd, Ticket.responseDeadline (Ticket.sla_ x) = Some rd
               ∧ Ticket.resolutionDeadline (Ticket.sla_ x) = Some sd
               ∧ Sample.T0 < rd < sd.
Proof.
  intros out.
  apply (post_ticket_stores Sample.T0 Sample.t1 Sample.john Sample.urgent_body
           Sample.empty_db out.1 out.2).
  - apply surjective_pairing.
  - by vm_compute.
Defined.

(** [Ticket.create] on behalf of a known user. *)
Lemma sound_Ticket_create id now title description priority category createdBy :
  sound (λ s, is_Some (users s !! createdBy))
    (Ticket_create id now title description priority category createdBy)
    (λ d s, is_Some (tickets s !! Ticket._id (Ticket.data d))).
Proof.
  intros s s' r Hw Hu Hc.
  apply Ticket_create_inv in Hc
    as [(? & -> & ->)|(t & ds & p & c & Ht & Hd & Hp & Hc & Hv & Hfresh & (d1 & -> & Hd1) & ->)].
  { split; [done|]. split; [apply evolves_refl|done]. }
  match type of Hd1 with _ = ?y' => set (y := y') in * end.
  destruct (insert_ticket_sound s id y Hw Hfresh) as [Hw' He']; try done.
  - unfold schema_valid. split; [done|].
    split; [apply trim_idempotent|]. cbn. repeat split; eauto; done.
  - split; [done|]. split; [done|]. intros ? [= <-]. rewrite Hd1.
    cbn [tickets with_tickets Ticket._id y]. rewrite lookup_insert_eq. eauto.
Qed.

(** ** The other model operations *)

Lemma sound_Comment_create (P : db → Prop) now t a content type first :
  (∀ s l, P s → P (with_comments l s)) →
  (∀ s, P s → is_Some (tickets s !! t)) →
  sound P (Comment_create now t a content type first)
    (λ c s, P s ∧ c ∈ comments s ∧ Comment.ticket c = t
            ∧ Mongoose.cast_string type = Some (Comment.type c)).
Proof.
  intros Hframe Hex s s' r Hw HP. unfold Comment_create.
  destruct (Mongoose.cast_string content) as [c|];
    [|intros [= <- <-]; split; [done|]; split; [apply evolves_refl|done]].
  destruct (Mongoose.cast_string type) as [ty|];
    [|intros [= <- <-]; split; [done|]; split; [apply evolves_refl|done]].
  destruct (Comment.validate _);
    [intros [= <- <-]; split; [done|]; split; [apply evolves_refl|done]|].
  intros [= <- <-].
  match goal with |- context [comments s ++ [?c']] => set (cm := c') end.
  destruct (append_comment_sound s cm Hw) as [? ?]; [by apply Hex|].
  split; [done|]. split; [done|]. intros ? [= <-].
  split; [by apply Hframe|]. split; [|done].
  cbn [comments with_comments]. apply elem_of_app. right.
  by apply list_elem_of_singleton.
Qed.

Lemma sound_Comment_count o x :
  sound (λ s, tickets s !! o = Some x) (Comment_count o "comment")
    (λ n s, tickets s !! o = Some x
            ∧ (n = 0 → Ticket.firstResponseAt x = None)).
Proof.
  intros s s' r Hw Hx Hc.
  destruct (Comment_count_spec o s) as (n & Hn & Hu).
  rewrite Hn in Hc. injection Hc as <- <-.
  split; [done|]. split; [apply evolves_refl|]. intros ? [= <-].
  split; [done|]. intros Hz. apply Hu in Hz.
  destruct Hw as (Hk & _). destruct (Hk _ _ Hx) as (_ & _ & _ & Hl).
  destruct (Ticket.firstResponseAt x) eqn:E; [|done].
  destruct Hl as (c & Hin & Hc1 & Hc2); [by eauto|].
  by destruct (Hz c Hin Hc1).
Qed.

Lemma with_assignedTo_valid r x :
  schema_valid x → schema_valid (Ticket.with_assignedTo r x).
Proof.
  intros (Hv & ?). split; [|done].
  rewrite first_error_None in Hv |- *. intros k Hk. by apply Hv.
Qed.

Lemma with_assignedTo_grows r x : grows x (Ticket.with_assignedTo r x).
Proof. unfold grows. cbn. repeat split; auto. lia. Qed.

Lemma sound_updateMany (P : db → Prop) ids v :
  sound P (Ticket_updateMany_assignedTo ids v) (λ _ _, True).
Proof.
  intros s s' r Hw _. unfold Ticket_updateMany_assignedTo.
  destruct (cast_ids ids) as [os|];
    [|intros [= <- <-]; split; [done|]; split; [apply evolves_refl|done]].
  destruct (Mongoose.cast_ref v) as [a|];
    [|intros [= <- <-]; split; [done|]; split; [apply evolves_refl|done]].
  intros [= <- <-]. destruct Hw as (Hk & Hu & Hc & Ht).
  split; [|split; [|done]].
  - unfold well_formed. cbn [tickets users comments timeline with_tickets].
    split; [|split; [done|split]].
    + intros o y. rewrite map_lookup_imap.
      destruct (tickets s !! o) as [x|] eqn:Hx; [|done]. cbn.
      intros [= <-]. destruct (Hk _ _ Hx) as (? & ? & ? & ?).
      case_match; [|done]. split; [done|].
      split; [by apply with_assignedTo_valid|done].
    + intros c Hin. rewrite map_lookup_imap.
      destruct (Hc c Hin) as [x ->]. cbn. eauto.
    + intros e Hin. rewrite map_lookup_imap.
      destruct (Ht e Hin) as [x ->]. cbn. eauto.
  - unfold evolves. cbn [tickets users comments timeline with_tickets].
    split; [done|]. split; [done|]. split; [|split; [|done]].
    + intros o x Hx. rewrite map_lookup_imap, Hx. cbn.
      eexists. split; [done|]. case_match; [apply with_assignedTo_grows|apply grows_refl].
    + intros o u Hu'. exists u. split; [done|]. apply same_account_refl.
Qed.

(** ** The handlers keep the database well formed *)

Lemma sound_pre {A} (P P' : db → Prop) (m : M A) (Q : A → db → Prop) :
  sound P m Q → (∀ s, well_formed s → P' s → P s) → sound P' m Q.
Proof. intros Hm HP s s' r Hw HP'. apply Hm; auto. Qed.

Lemma sound_post {A} (P : db → Prop) (m : M A) (Q Q' : A → db → Prop) :
  sound P m Q → (∀ a s, Q a s → Q' a s) → sound P m Q'.
Proof. intros Hm HQ. eapply sound_weaken; eauto. Qed.

Lemma sound_silent {A} (P : db → Prop) (m : M A) :
  (∀ s s' r, m s = (s', r) → s' = s) → sound P m (λ _ s, P s).
Proof.
  intros Hm s s' r Hw HP Hms. apply Hm in Hms as ->.
  split; [done|]. split; [apply evolves_refl|done].
Qed.

(** The document [findById] returned is the stored ticket, filed under its
    own [_id]. *)
Lemma sound_found {A} (P : db → Prop) v d (m : M A) Q :
  (∀ x, d = Ticket.loaded x →
        sound (λ s, tickets s !! Ticket._id x = Some x) m Q) →
  sound (λ s, P s ∧ ∃ o, Mongoose.cast_id v = Some o
                         ∧ Some d = Ticket.loaded <$> tickets s !! o) m Q.
Proof.
  intros Hm s s' r Hw (_ & o & _ & Hf).
  destruct (tickets s !! o) as [x|] eqn:Hx; [|done].
  injection Hf as ->. destruct Hw as (Hk & Hw).
  destruct (Hk _ _ Hx) as (Hid & _).
  apply (Hm x); [done|by split|]. by rewrite Hid.
Qed.

Lemma stored_frame_timeline o (x : Ticket.t) s l :
  tickets s !! o = Some x → tickets (with_timeline l s) !! o = Some x.
Proof. done. Qed.

Lemma sound_log_entry o now uid action description details :
  sound (λ s, is_Some (tickets s !! o))
    (createTimelineEntry now (JOid o) uid action description details)
    (λ _ s, is_Some (tickets s !! o)).
Proof.
  apply sound_createTimelineEntry; [done|]. by intros s tid Hs [= <-].
Qed.

Lemma sound_post_ticket now new_id user body :
  sound (λ s, is_Some (users s !! User._id user))
    (post_ticket now new_id user body) (λ _ _, True).
Proof.
  unfold post_ticket. repeat case_match; try apply sound_respond.
  eapply sound_bind; [apply sound_Ticket_create|]. intros d.
  eapply sound_bind; [apply sound_log_entry|]. intros ?.
  apply sound_respond.
Qed.

Lemma get_ticket_state now user id s s' r :
  get_ticket now user id s = (s', r) → s' = s.
Proof.
  unfold get_ticket.
  intros [(s1 & found & [-> _]%Ticket_findById_inv & H)
         |(e & [-> _]%Ticket_findById_inv & _)]%bind_inv; [|done].
  destruct found as [d|]; [|cbv [not_found respond ret] in H; by simplify_eq].
  apply bind_inv in H as [(s2 & creator & ->%User_findById_state & H)
                         |(e & ->%User_findById_state & _)]; [|done].
  apply bind_inv in H as [(s3 & denied & Hd & H)|(e & Hd & _)].
  - assert (s3 = s) as ->.
    { repeat case_match; cbv [ret throw] in Hd; by simplify_eq. }
    destruct denied; cbv [forbidden respond ret] in H; by simplify_eq.
  - repeat case_match; cbv [ret throw] in Hd; by simplify_eq.
Qed.

Lemma sound_get_ticket (P : db → Prop) now user id :
  sound P (get_ticket now user id) (λ _ s, P s).
Proof. apply sound_silent. apply get_ticket_state. Qed.

Lemma sound_log_changes now user x changes :
  sound (λ s, is_Some (tickets s !! Ticket._id x))
    (for_each changes (λ c,
       let* description := change_description c in
       createTimelineEntry now (JOid (Ticket._id x)) (User._id user)
         "updated" description
         [("field", JStr (field c)); ("oldValue", oldValue c);
          ("newValue", newValue c)]))
    (λ _ s, is_Some (tickets s !! Ticket._id x)).
Proof.
  apply sound_for_each. intros c.
  eapply sound_bind; [apply sound_silent, change_description_state|].
  intros d. apply sound_log_entry.
Qed.

Lemma sound_patch_ticket (P : db → Prop) now user id body :
  sound P (patch_ticket now user id body) (λ _ _, True).
Proof.
  unfold patch_ticket. eapply sound_bind; [apply sound_Ticket_findById|].
  intros [d|]; [|apply sound_respond]. apply sound_found. intros x ->.
  cbn [Ticket.data Ticket.loaded].
  case_match; [apply sound_respond|]. case_match; [apply sound_respond|].
  eapply sound_bind.
  { eapply sound_pre; [apply (sound_save_loaded now _ x)|].
    - apply assign_all_tracked, loaded_tracked.
    - intros s _ Hx. split; [done|]. left.
      by destruct (assign_all_same_core
                     (filter_updates (if isAgentOrAdmin user then agent_fields
                                      else user_fields)
                        (JS.without body "version")) (Ticket.loaded x))
        as (_ & _ & _ & _ & _ & _ & -> & _). }
  intros d1. eapply sound_bind; [apply sound_log_changes|].
  intros ?. apply sound_respond.
Qed.

Lemma sound_post_comment (P : db → Prop) now user id body :
  sound P (post_comment now user id body) (λ _ _, True).
Proof.
  unfold post_comment.
  set (type := if JS.strict_eq (JS.get body "type") JUndefined
               then JStr "comment" else JS.get body "type").
  destruct (negb (JS.truthy _)); [apply sound_respond|].
  eapply sound_bind; [apply sound_Ticket_findById|].
  intros [d|]; [|apply sound_respond]. apply sound_found. intros x ->.
  cbn [Ticket.data Ticket.loaded].
  destruct (negb (bool_decide _) && _); [apply sound_respond|].
  destruct (JS.strict_eq type _ && _); [apply sound_respond|].
  eapply sound_bind; [apply sound_Comment_count|]. intros n.
  apply (sound_assume _ (n = 0 → Ticket.firstResponseAt x = None));
    [by intros s _ [_ ?]|intros Hn].
  eapply sound_bind.
  { eapply sound_pre;
      [apply (sound_Comment_create (λ s, tickets s !! Ticket._id x = Some x))|].
    - done.
    - intros s Hx. by rewrite Hx.
    - by intros s _ [? _]. }
  intros cm. eapply sound_bind with (Q1 := λ _ s, is_Some (tickets s !! Ticket._id x)).
  { destruct (bool_decide (n = 0)) eqn:En; cbn [andb];
      [destruct (JS.strict_eq type (JStr "comment")) eqn:Ety|].
    - apply bool_decide_eq_true in En. specialize (Hn En).
      eapply sound_bind.
      { eapply sound_pre; [apply (sound_save_loaded now _ x)|].
        + rewrite bool_decide_eq_false_2.
          2:{ intros Heq. apply (f_equal Ticket.firstResponseAt) in Heq.
              cbn in Heq. congruence. }
          unfold tracked. cbn. rewrite Hn. repeat split; auto.
        + intros s _ (Hx & Hin & Ht & Hty). split; [done|]. right.
          exists cm. split; [done|]. split; [done|].
          destruct type; try done. cbn in Ety, Hty.
          apply bool_decide_eq_true in Ety as ->. congruence. }
      intros ?. eapply sound_post; [apply sound_ret|]. by intros ? ? [_ ?].
    - eapply sound_pre; [eapply sound_post; [apply sound_ret|]|].
      + intros ? s [_ H]. exact H.
      + intros s _ (Hx & _). by rewrite Hx.
    - eapply sound_pre; [eapply sound_post; [apply sound_ret|]|].
      + intros ? s [_ H]. exact H.
      + intros s _ (Hx & _). by rewrite Hx. }
  intros ?. eapply sound_bind; [apply sound_log_entry|].
  intros ?. apply sound_respond.
Qed.

Lemma sound_save_assign now p v x :
  sound (λ s, tickets s !! Ticket._id x = Some x)
    (save now (Ticket.assign p v (Ticket.loaded x)))
    (λ _ s, is_Some (tickets s !! Ticket._id x)).
Proof.
  eapply sound_pre; [apply (sound_save_loaded now _ x)|].
  - apply assign_tracked, loaded_tracked.
  - intros s _ Hx. split; [done|]. left.
    by destruct (assign_same_core p v (Ticket.loaded x))
      as (_ & _ & _ & _ & _ & _ & -> & _).
Qed.

Lemma sound_post_assign (P : db → Prop) now user id body :
  sound P (post_assign now user id body) (λ _ _, True).
Proof.
  unfold post_assign. eapply sound_bind; [apply sound_Ticket_findById|].
  intros [d|]; [|apply sound_respond]. apply sound_found. intros x ->.
  cbn [Ticket.data Ticket.loaded].
  case_match; [apply sound_respond|].
  eapply sound_bind; [apply sound_maybe_find|]. intros assignee.
  case_match; [apply sound_respond|].
  eapply sound_bind; [apply sound_save_assign|]. intros ?.
  eapply sound_bind; [apply sound_maybe_find|]. intros ?.
  eapply sound_bind; [apply sound_maybe_find|]. intros ?.
  eapply sound_bind; [apply sound_log_entry|]. intros ?.
  apply sound_respond.
Qed.

Lemma sound_post_status (P : db → Prop) now user id body :
  sound P (post_status now user id body) (λ _ _, True).
Proof.
  unfold post_status. case_match; [apply sound_respond|].
  eapply sound_bind; [apply sound_Ticket_findById|].
  intros [d|]; [|apply sound_respond]. apply sound_found. intros x ->.
  cbn [Ticket.data Ticket.loaded].
  eapply sound_bind; [apply sound_save_assign|]. intros ?.
  eapply sound_bind; [apply sound_log_entry|]. intros ?.
  apply sound_respond.
Qed.

Lemma sound_post_priority (P : db → Prop) now user id body :
  sound P (post_priority now user id body) (λ _ _, True).
Proof.
  unfold post_priority. case_match; [apply sound_respond|].
  eapply sound_bind; [apply sound_Ticket_findById|].
  intros [d|]; [|apply sound_respond]. apply sound_found. intros x ->.
  cbn [Ticket.data Ticket.loaded].
  eapply sound_bind; [apply sound_save_assign|]. intros ?.
  eapply sound_bind; [apply sound_log_entry|]. intros ?.
  apply sound_respond.
Qed.

Lemma sound_post_bulk_assign (P : db → Prop) now user body :
  sound P (post_bulk_assign now user body) (λ _ _, True).
Proof.
  unfold post_bulk_assign.
  destruct (match JS.get body "ticketIds" with JArr l => Some l | _ => None end)
    as [[|i l]|]; try apply sound_respond.
  eapply sound_bind; [apply sound_maybe_find|]. intros assignee.
  destruct (_ && _); [apply sound_respond|].
  eapply sound_bind; [apply sound_updateMany|]. intros n.
  eapply sound_bind with (Q1 := λ _ _, True); [|intros ?; apply sound_respond].
  eapply sound_post; [apply (sound_for_each (λ _, True))|done].
  intros tid. eapply sound_bind; [apply sound_Ticket_findById|].
  intros [d|].
  2:{ eapply sound_post; [apply sound_ret|done]. }
  eapply sound_pre with
    (P := λ s, ∃ o, Mongoose.cast_id (JStr tid) = Some o ∧ is_Some (tickets s !! o)).
  2:{ intros s _ (_ & o & Hc & Hf). exists o. split; [done|].
      by destruct (tickets s !! o). }
  eapply sound_bind; [apply sound_maybe_find|]. intros ?.
  eapply sound_post; [apply sound_createTimelineEntry|done].
  - done.
  - intros s o (o' & Hc & Hs) Hc'. congruence.
Qed.

Lemma sound_authorize (P : db → Prop) roles user next :
  (∀ u, sound P (next u) (λ _ _, True)) →
  sound P (authorize roles user next) (λ _ _, True).
Proof.
  intros Hn. unfold authorize. repeat case_match; try apply sound_respond.
  apply Hn.
Qed.

Lemma sound_dispatch now new_id user rt :
  sound (λ s, is_Some (users s !! User._id user))
    (dispatch now new_id user rt) (λ _ _, True).
Proof.
  destruct rt; cbn [dispatch].
  - apply sound_post_ticket.
  - eapply sound_post; [apply sound_get_ticket|done].
  - apply sound_patch_ticket.
  - apply sound_post_comment.
  - apply sound_authorize. intros u. apply sound_post_assign.
  - apply sound_authorize. intros u. apply sound_post_status.
  - apply sound_authorize. intros u. apply sound_post_priority.
  - apply sound_authorize. intros u. apply sound_post_bulk_assign.
Qed.

(** [authenticate] writes [lastLoginAt] on the user document it found. *)
Lemma login_sound s o u now :
  well_formed s → users s !! o = Some u →
  let s1 := with_users (<[o := User.with_lastLoginAt (Some now) u]> (users s)) s in
  well_formed s1 ∧ evolves s s1.
Proof.
  intros (Hk & Hu & Hc & Ht) Ho s1. split.
  - unfold well_formed, s1. cbn [tickets users comments timeline with_users].
    split; [|split; [|done]].
    + intros o' x Hx. destruct (Hk _ _ Hx) as (? & ? & ? & ?).
      split; [done|]. split; [done|]. split; [|done].
      apply lookup_insert_is_Some'. by right.
    + intros o' u' [[<- <-]|[_ ?]]%lookup_insert_Some; [|by apply Hu].
      cbn. by apply Hu.
  - unfold evolves, s1. cbn [tickets users comments timeline with_users].
    split; [done|]. split; [done|]. split; [|split].
    + intros o' x Hx. exists x. split; [done|]. apply grows_refl.
    + intros o' u' Hu'. destruct (decide (o' = o)) as [->|Hne].
      * rewrite lookup_insert_eq. eexists. split; [done|].
        rewrite Ho in Hu'. injection Hu' as <-. by repeat split.
      * rewrite lookup_insert_ne by done. exists u'. split; [done|].
        apply same_account_refl.
    + intros o' Hn. rewrite lookup_insert_ne; [done|]. intros <-. congruence.
Qed.

Lemma sound_router now new_id req :
  sound (λ _, True) (router now new_id req) (λ _ _, True).
Proof.
  unfold router, authenticate.
  destruct (auth req) as [| |id]; try apply sound_respond.
  intros s s' r Hw _.
  destruct (Mongoose.cast_id (JStr id)) as [o|];
    [|by apply (sound_respond (λ _, True))].
  destruct (users s !! o) as [u|] eqn:Hu;
    [|by apply (sound_respond (λ _, True))].
  destruct (negb (User.isActive u)); [by apply (sound_respond (λ _, True))|].
  destruct (login_sound s o u now Hw Hu) as [Hw1 He1].
  intros Hd. eapply sound_dispatch in Hd as (Hw2 & He2 & _); [| done |].
  - split; [done|]. split; [by eapply evolves_trans|done].
  - cbn. destruct Hw as (_ & Hk & _). rewrite (Hk _ _ Hu).
    rewrite lookup_insert_eq. eauto.
Qed.

Lemma app_sound now new_id req w :
  well_formed (store w) →
  well_formed (store (app now new_id req w).2)
  ∧ evolves (store w) (store (app now new_id req w).2).
Proof.
  intros Hw.
  assert (∀ s, well_formed s →
               well_formed (run (router now new_id req) s).2
               ∧ evolves s (run (router now new_id req) s).2) as Hrun.
  { intros s Hs. unfold run.
    destruct (router now new_id req s) as [s' r] eqn:Hr.
    destruct (sound_router now new_id req _ _ _ Hs I Hr) as (? & ? & _).
    by destruct r. }
  specialize (Hrun _ Hw).
  unfold app, idempotencyMiddleware.
  destruct (run (router now new_id req) (store w)) as [r s'].
  repeat case_match; simplify_eq; try done.
  all: split; [done|apply evolves_refl].
Qed.

(** ** Along the life of the server *)

Lemma empty_db_well_formed : well_formed Sample.empty_db.
Proof.
  unfold well_formed, Sample.empty_db. cbn [tickets users comments timeline].
  split; [|split; [|split]].
  - intros o x. by rewrite lookup_empty.
  - intros o u. unfold Sample.directory.
    rewrite !lookup_insert_Some, lookup_empty. intros H.
    repeat (destruct H as [[<- <-]|[_ H]]; [done|]). done.
  - intros c Hc. by apply elem_of_nil in Hc.
  - intros e He. by apply elem_of_nil in He.
Qed.



(** X3.  The ticket routes only add to the history: whatever requests are
    served, the timeline and the comment collection are only appended to,
    no ticket is ever removed, a ticket keeps its [_id], creator, creation
    time and SLA sub-record (hour figures, deadlines, flags), its version
    never decreases, its [firstResponseAt], [resolvedAt] and [closedAt]
    stamps never change once set, and user documents change in
    [lastLoginAt] only, none being added. *)
Theorem serves_evolves w w' :
  serves w w' → well_formed (store w) → evolves (store w) (store w').
Proof.
  intros Hs Hw.
  assert (well_formed (store w') ∧ evolves (store w) (store w')) as [_ He];
    [|done].
  induction Hs as [|w' now new_id req _ IH]; [split; [done|apply evolves_refl]|].
  destruct IH as [Hw' He]. destruct (app_sound now new_id req w' Hw') as [? ?].
  split; [done|]. by eapply evolves_trans.
Qed.

Lemma serves_evolves_witness :
  evolves (store Sample.fresh_world)
    (store (app (Sample.T0 + 1) Sample.t2
              (Sample.post Sample.agent_id "k2"
                 (SetStatus Sample.t1 [("status", JStr "resolved")]))
              (app Sample.T0 Sample.t1
                 (Sample.post Sample.john_id "k1" (CreateTicket Sample.urgent_body))
                 Sample.fresh_world).2).2).
Proof.
  apply (serves_evolves Sample.fresh_world).
  - apply serves_step, serves_step, serves_refl.
  - exact empty_db_well_formed.
Defined.

(** ** The answers of the routes *)

Lemma failure_shape_intro codes c code field m :
  (code, c) ∈ codes →
  failure_shape codes {| statusCode := c; payload := Failure code field m |}.
Proof. intros H. by exists code, field, m. Qed.

Lemma failure_shape_mono codes codes' r :
  codes ⊆ codes' → failure_shape codes r → failure_shape codes' r.
Proof. intros Hs (code & field & m & ? & ?). exists code, field, m. auto. Qed.

Lemma errorHandler_shape e : failure_shape thrown_codes (errorHandler e).
Proof.
  destruct e; apply failure_shape_intro; unfold thrown_codes; repeat constructor.
Qed.

Ltac sent :=
  apply answers_respond;
  first [ left; cbn; done
        | right; eexists _, _, _; (split; [reflexivity|]);
          unfold handler_codes, auth_codes; cbn [app statusCode];
          repeat constructor ].

Ltac answer :=
  repeat first
    [ sent
    | apply answers_bind; intros ?
    | progress cbv [forbidden not_found invalid_assignee stale_update invalid_token]
    | case_match ].

Lemma post_ticket_shape now new_id user body :
  answers (λ r, success_shape (CreateTicket body) r ∨ failure_shape handler_codes r)
    (post_ticket now new_id user body).
Proof. unfold post_ticket. answer. Qed.

Lemma get_ticket_shape now user id :
  answers (λ r, success_shape (GetTicket id) r ∨ failure_shape handler_codes r)
    (get_ticket now user id).
Proof.
  unfold get_ticket. answer.
  intros s s' r [= <- <-]. by left.
Qed.

Lemma patch_ticket_shape now user id body :
  answers (λ r, success_shape (PatchTicket id body) r ∨ failure_shape handler_codes r)
    (patch_ticket now user id body).
Proof. unfold patch_ticket. answer. Qed.

Lemma post_comment_shape now user id body :
  answers (λ r, success_shape (AddComment id body) r ∨ failure_shape handler_codes r)
    (post_comment now user id body).
Proof.
  unfold post_comment.
  set (type := if JS.strict_eq (JS.get body "type") JUndefined
               then JStr "comment" else JS.get body "type").
  destruct (negb (JS.truthy _)); [sent|].
  apply answers_bind. intros [d|]; [|cbv [not_found]; sent].
  destruct (negb (bool_decide _) && _); [cbv [forbidden]; sent|].
  destruct (JS.strict_eq type _ && _); [cbv [forbidden]; sent|].
  do 4 (apply answers_bind; intros ?). sent.
Qed.

Lemma post_assign_shape now user id body :
  answers (λ r, success_shape (Assign id body) r ∨ failure_shape handler_codes r)
    (post_assign now user id body).
Proof. unfold post_assign. answer. Qed.

Lemma post_status_shape now user id body :
  answers (λ r, success_shape (SetStatus id body) r ∨ failure_shape handler_codes r)
    (post_status now user id body).
Proof. unfold post_status. answer. Qed.

Lemma post_priority_shape now user id body :
  answers (λ r, success_shape (SetPriority id body) r ∨ failure_shape handler_codes r)
    (post_priority now user id body).
Proof. unfold post_priority. answer. Qed.

Lemma post_bulk_assign_shape now user body :
  answers (λ r, success_shape (BulkAssign body) r ∨ failure_shape handler_codes r)
    (post_bulk_assign now user body).
Proof.
  unfold post_bulk_assign.
  destruct (match JS.get body "ticketIds" with JArr l => Some l | _ => None end)
    as [[|i l]|]; [sent| |sent].
  apply answers_bind. intros assignee.
  destruct (_ && _); [cbv [invalid_assignee]; sent|].
  do 2 (apply answers_bind; intros ?). sent.
Qed.

Lemma dispatch_shape now new_id user rt :
  answers (λ r, success_shape rt r ∨ failure_shape handler_codes r)
    (dispatch now new_id user rt).
Proof.
  destruct rt; cbn [dispatch]; unfold authorize;
    repeat match goal with
    | |- answers _ (if ?c then _ else _) => destruct c; [cbv [forbidden]; sent|]
    end.
  - apply post_ticket_shape.
  - apply get_ticket_shape.
  - apply patch_ticket_shape.
  - apply post_comment_shape.
  - apply post_assign_shape.
  - apply post_status_shape.
  - apply post_priority_shape.
  - apply post_bulk_assign_shape.
Qed.




(** ** Who may do what *)





(** ** A refusal precedes every write *)

Lemma success_not_refusal r : is_success r = true → ¬ refusal r.
Proof.
  unfold is_success, refusal. intros H%bool_decide_eq_true.
  rewrite !elem_of_cons, elem_of_nil. lia.
Qed.

Lemma errorHandler_not_refusal e : ¬ refusal (errorHandler e).
Proof.
  unfold refusal. rewrite !elem_of_cons, elem_of_nil. destruct e; cbn; lia.
Qed.

Ltac proceeds_by H :=
  repeat first
    [ apply answers_respond; apply H; by vm_compute
    | apply answers_bind; intros ?
    | case_match ].

Lemma quiet_respond c b : quiet (respond c b).
Proof. by intros s s' r [= <- _] _. Qed.

Lemma quiet_bind_read {A} (m : M A) (k : A → M response) :
  (∀ s s' r, m s = (s', r) → s' = s) →
  (∀ a, quiet (k a)) → quiet (bind m k).
Proof.
  intros Hm Hk s s' r [(s1 & a & Hms & Hks)|(e & _ & ?)]%bind_inv Hr; [|done].
  apply Hm in Hms as ->. by eapply Hk.
Qed.

Lemma quiet_bind_write {A} (m : M A) (k : A → M response) :
  (∀ a, answers (λ r, ¬ refusal r) (k a)) → quiet (bind m k).
Proof.
  intros Hk s s' r [(s1 & a & Hms & Hks)|(e & _ & ?)]%bind_inv Hr; [|done].
  by destruct (Hk _ _ _ _ Hks).
Qed.

Lemma Ticket_findById_state v s s' r : Ticket_findById v s = (s', r) → s' = s.
Proof. by intros [-> _]%Ticket_findById_inv. Qed.

Lemma Comment_count_state o ty s s' r : Comment_count o ty s = (s', r) → s' = s.
Proof. by intros [= <- _]. Qed.

Lemma quiet_post_ticket now new_id user body :
  quiet (post_ticket now new_id user body).
Proof.
  unfold post_ticket.
  destruct (negb (JS.truthy _)); [apply quiet_respond|].
  destruct (negb (JS.truthy _)); [apply quiet_respond|].
  apply quiet_bind_write. intros d. proceeds_by success_not_refusal.
Qed.

Lemma quiet_get_ticket now user id : quiet (get_ticket now user id).
Proof. intros s s' r H _. by apply get_ticket_state in H. Qed.

Lemma quiet_patch_ticket now user id body : quiet (patch_ticket now user id body).
Proof.
  unfold patch_ticket. apply quiet_bind_read; [apply Ticket_findById_state|].
  intros [d|]; [|apply quiet_respond].
  destruct (negb (JS.strict_eq _ _) && _); [apply quiet_respond|].
  destruct (negb (bool_decide _) && _); [apply quiet_respond|].
  apply quiet_bind_write. intros d1. proceeds_by success_not_refusal.
Qed.

Lemma quiet_post_comment now user id body : quiet (post_comment now user id body).
Proof.
  unfold post_comment.
  set (type := if JS.strict_eq (JS.get body "type") JUndefined
               then JStr "comment" else JS.get body "type").
  destruct (negb (JS.truthy _)); [apply quiet_respond|].
  apply quiet_bind_read; [apply Ticket_findById_state|].
  intros [d|]; [|apply quiet_respond].
  destruct (negb (bool_decide _) && _); [apply quiet_respond|].
  destruct (JS.strict_eq type _ && _); [apply quiet_respond|].
  apply quiet_bind_read; [apply Comment_count_state|]. intros n.
  apply quiet_bind_write. intros cm.
  do 2 (apply answers_bind; intros ?).
  apply answers_respond, success_not_refusal. by vm_compute.
Qed.

Lemma quiet_post_assign now user id body : quiet (post_assign now user id body).
Proof.
  unfold post_assign. apply quiet_bind_read; [apply Ticket_findById_state|].
  intros [d|]; [|apply quiet_respond].
  case_match; [apply quiet_respond|].
  apply quiet_bind_read; [apply maybe_find_state|]. intros assignee.
  case_match; [apply quiet_respond|].
  apply quiet_bind_write. intros d1. proceeds_by success_not_refusal.
Qed.

Lemma quiet_post_status now user id body : quiet (post_status now user id body).
Proof.
  unfold post_status. case_match; [apply quiet_respond|].
  apply quiet_bind_read; [apply Ticket_findById_state|].
  intros [d|]; [|apply quiet_respond].
  apply quiet_bind_write. intros d1. proceeds_by success_not_refusal.
Qed.

Lemma quiet_post_priority now user id body : quiet (post_priority now user id body).
Proof.
  unfold post_priority. case_match; [apply quiet_respond|].
  apply quiet_bind_read; [apply Ticket_findById_state|].
  intros [d|]; [|apply quiet_respond].
  apply quiet_bind_write. intros d1. proceeds_by success_not_refusal.
Qed.

Lemma quiet_post_bulk_assign now user body : quiet (post_bulk_assign now user body).
Proof.
  unfold post_bulk_assign.
  destruct (match JS.get body "ticketIds" with JArr l => Some l | _ => None end)
    as [[|i l]|]; try apply quiet_respond.
  apply quiet_bind_read; [apply maybe_find_state|]. intros assignee.
  destruct (_ && _); [apply quiet_respond|].
  apply quiet_bind_write. intros n.
  apply answers_bind; intros ?.
  apply answers_respond, success_not_refusal. by vm_compute.
Qed.

Lemma quiet_dispatch now new_id user rt : quiet (dispatch now new_id user rt).
Proof.
  destruct rt; cbn [dispatch]; unfold authorize;
    repeat match goal with
    | |- quiet (if ?c then _ else _) => destruct c; [apply quiet_respond|]
    end.
  - apply quiet_post_ticket.
  - apply quiet_get_ticket.
  - apply quiet_patch_ticket.
  - apply quiet_post_comment.
  - apply quiet_post_assign.
  - apply quiet_post_status.
  - apply quiet_post_priority.
  - apply quiet_post_bulk_assign.
Qed.

Lemma success_shape_status rt r : success_shape rt r → is_success r = true.
Proof.
  unfold success_shape, is_success. intros Hs. apply bool_decide_eq_true.
  destruct rt, (payload r); try done; first [lia | destruct Hs as [Hs _]; lia].
Qed.

Lemma failure_shape_status codes r c :
  failure_shape codes r → (∀ code, (code, c) ∉ codes) → statusCode r ≠ c.
Proof.
  intros (code & field & m & _ & Hin) Hc <-. by apply (Hc code).
Qed.

Lemma codes_not_401 code : (code, 401) ∉ handler_codes ++ thrown_codes.
Proof.
  unfold handler_codes, thrown_codes. intros [Hin|Hin]%elem_of_app;
    rewrite !elem_of_cons, elem_of_nil in Hin;
    repeat (destruct Hin as [Heq|Hin]; [by simplify_eq|]); done.
Qed.

Lemma dispatch_outcome now new_id user rt s s' r :
  run (dispatch now new_id user rt) s = (r, s') →
  success_shape rt r ∨ failure_shape (handler_codes ++ thrown_codes) r.
Proof.
  intros [Hrun|(e & _ & ->)]%run_inv.
  - destruct (dispatch_shape _ _ _ _ _ _ _ Hrun) as [?|Hf]; [by left|]. right.
    eapply failure_shape_mono; [|exact Hf]. by apply list_subseteq_app_l.
  - right. eapply failure_shape_mono; [|apply errorHandler_shape].
    by apply list_subseteq_app_r.
Qed.

Lemma dispatch_not_401 now new_id user rt s s' r :
  run (dispatch now new_id user rt) s = (r, s') → statusCode r ≠ 401.
Proof.
  intros [Hs|Hf]%dispatch_outcome.
  - apply success_shape_status in Hs. unfold is_success in Hs.
    apply bool_decide_eq_true in Hs. lia.
  - eapply failure_shape_status; [exact Hf|]. apply codes_not_401.
Qed.

(** X6.  A request that the ticket router turns down with 401, 403, 404 or
    409 has written no ticket, comment or timeline entry, and one turned
    down with 401 has written nothing at all (otherwise the requester's
    [lastLoginAt] is the only thing written); and reading a ticket writes
    nothing but that either. *)
Theorem refusal_writes_nothing now new_id req s r s' :
  run (router now new_id req) s = (r, s') →
  refusal r ∨ method req = "GET" →
  tickets s' = tickets s ∧ comments s' = comments s ∧ timeline s' = timeline s
  ∧ (statusCode r = 401 → s' = s).
Proof.
  intros Hrun Href. unfold router, authenticate in Hrun.
  destruct (auth req) as [| |id].
  1,2: by injection Hrun as <- <-.
  unfold run in Hrun.
  destruct (Mongoose.cast_id (JStr id)) as [o|]; [|by injection Hrun as <- <-].
  destruct (users s !! o) as [u|]; [|by injection Hrun as <- <-].
  destruct (negb (User.isActive u)); [by injection Hrun as <- <-|].
  match type of Hrun with
  | match dispatch _ _ ?u' _ ?s1' with _ => _ end = _ =>
      set (user := u') in *; set (s1 := s1') in *
  end.
  assert (run (dispatch now new_id user (target req)) s1 = (r, s')) as Hd by done.
  assert (s' = s1) as ->.
  { destruct Href as [Href|Hget].
    - apply run_inv in Hd as [Hd|(e & _ & ->)].
      + by eapply quiet_dispatch.
      + by destruct (errorHandler_not_refusal e).
    - unfold method in Hget. destruct (target req) eqn:Ht; try done.
      cbn [dispatch] in Hd.
      apply run_inv in Hd as [Hd|(e & Hd & _)]; by apply get_ticket_state in Hd. }
  repeat split; try done.
  intros Hc. by apply dispatch_not_401 in Hd.
Qed.

Lemma refusal_writes_nothing_witness :
  let req := {| auth := Bearer Sample.jane_id; idempotency_key := None;
                target := PatchTicket Sample.t1 [("title", JStr "Mine now")] |} in
  let out := run (router (Sample.T0 + 1) Sample.t2 req) Sample.db1 in
  tickets out.2 = tickets Sample.db1 ∧ comments out.2 = comments Sample.db1
  ∧ timeline out.2 = timeline Sample.db1
  ∧ (statusCode out.1 = 401 → out.2 = Sample.db1).
Proof.
  intros req out.
  apply (refusal_writes_nothing (Sample.T0 + 1) Sample.t2 req Sample.db1 out.1 out.2).
  - apply surjective_pairing.
  - left. unfold refusal. apply (bool_decide_unpack _). by vm_compute.
Defined.

(** ** Authentication *)

(** The ticket routes leave the user directory alone. *)
Lemma users_bind {A B} (m : M A) (k : A → M B) :
  (∀ s s' r, m s = (s', r) → users s' = users s) →
  (∀ a s s' r, k a s = (s', r) → users s' = users s) →
  ∀ s s' r, bind m k s = (s', r) → users s' = users s.
Proof.
  intros Hm Hk s s' r [(s1 & a & Hms & Hks)|(e & Hms & _)]%bind_inv.
  - rewrite (Hk _ _ _ _ Hks). by eapply Hm.
  - by eapply Hm.
Qed.

Lemma users_read {A} (m : M A) :
  (∀ s s' r, m s = (s', r) → s' = s) →
  ∀ s s' r, m s = (s', r) → users s' = users s.
Proof. intros Hm s s' r H. by apply Hm in H as ->. Qed.

Lemma users_respond c b s s' r : respond c b s = (s', r) → users s' = users s.
Proof. by intros [= <- _]. Qed.

Lemma users_save now d s s' r : save now d s = (s', r) → users s' = users s.
Proof. unfold save. repeat case_match; by intros [= <- _]. Qed.

Lemma users_createTimelineEntry now tv uid action description details s s' r :
  createTimelineEntry now tv uid action description details s = (s', r) →
  users s' = users s.
Proof. unfold createTimelineEntry. repeat case_match; by intros [= <- _]. Qed.

Lemma users_Comment_create now t a content type first s s' r :
  Comment_create now t a content type first s = (s', r) → users s' = users s.
Proof. unfold Comment_create. repeat case_match; by intros [= <- _]. Qed.

Lemma users_updateMany ids v s s' r :
  Ticket_updateMany_assignedTo ids v s = (s', r) → users s' = users s.
Proof. unfold Ticket_updateMany_assignedTo. repeat case_match; by intros [= <- _]. Qed.

Lemma users_for_each {A} (l : list A) (f : A → M unit) :
  (∀ x s s' r, f x s = (s', r) → users s' = users s) →
  ∀ s s' r, for_each l f s = (s', r) → users s' = users s.
Proof.
  intros Hf. induction l as [|x l IH]; simpl; [by intros s s' r [= <- _]|].
  apply users_bind; [apply Hf|]. intros _. apply IH.
Qed.

Lemma users_dispatch now new_id user rt s s' r :
  dispatch now new_id user rt s = (s', r) → users s' = users s.
Proof.
  revert s s' r.
  destruct rt; cbn [dispatch];
    unfold authorize, post_ticket, patch_ticket, post_comment, post_assign,
      post_status, post_priority, post_bulk_assign;
    repeat first
      [ apply users_respond
      | apply users_save
      | apply users_createTimelineEntry
      | apply users_Comment_create
      | apply users_updateMany
      | apply users_read, Ticket_findById_state
      | apply users_read, maybe_find_state
      | apply users_read, User_findById_state
      | apply users_read, Comment_count_state
      | apply users_read, change_description_state
      | apply users_read, get_ticket_state
      | apply users_bind; [|intros ?]
      | apply users_for_each; intros ?
      | progress cbv [forbidden not_found invalid_assignee stale_update]
      | by intros ? ? ? [= <- _]
      | case_match ].
Qed.


(** ** The idempotency cache *)



(** X9.  Requests only add to the idempotency cache, and only as the
    middleware says: an entry present before a request is still there,
    unchanged, after it; an entry appears only for a POST with a non-empty
    Idempotency-Key, under [anonymous:<key>], holding the status and body
    just sent and the time of the request; so a request of another method,
    or without the header, is never recorded and never replayed. *)
Theorem cache_only_grows now new_id req w :
  let out := app now new_id req w in
  idempotencyStore w ⊆ idempotencyStore out.2
  ∧ (∀ key c, idempotencyStore w !! key = None →
       idempotencyStore out.2 !! key = Some c →
       method req = "POST"
       ∧ (∃ k, idempotency_key req = Some k ∧ k ≠ ""
               ∧ key = "anonymous" +:+ ":" +:+ k)
       ∧ cachedStatus c = statusCode out.1 ∧ cachedBody c = payload out.1
       ∧ timestamp c = now)
  ∧ (method req ≠ "POST" ∨ idempotency_key req = None →
     idempotencyStore out.2 = idempotencyStore w
     ∧ out.1 = (run (router now new_id req) (store w)).1).
Proof.
  intros out. subst out. unfold app, idempotencyMiddleware.
  destruct (run (router now new_id req) (store w)) as [r s'] eqn:Hrun.
  case_bool_decide as Hm; cbn [negb].
  2:{ cbn [fst snd idempotencyStore]. split; [done|].
      split; [intros ? ? H1 H2; congruence|done]. }
  destruct (idempotency_key req) as [k|] eqn:Hk.
  2:{ cbn [fst snd idempotencyStore]. split; [done|].
      split; [intros ? ? H1 H2; congruence|done]. }
  destruct k as [|a k].
  { cbn [fst snd idempotencyStore]. split; [done|].
    split; [intros ? ? H1 H2; congruence|]. by intros [?|?]. }
  destruct (idempotencyStore w !! _) as [c|] eqn:Hc.
  { cbn [fst snd idempotencyStore]. split; [done|].
    split; [intros ? ? H1 H2; congruence|]. by intros [?|?]. }
  cbn [fst snd idempotencyStore]. split; [by apply insert_subseteq|].
  split; [|by intros [?|?]].
  intros key c Hnone [[<- <-]|[_ ?]]%lookup_insert_Some; [|congruence].
  split; [done|]. split; [|done]. by exists (String a k).
Qed.



(** ** Status changes and their stamps *)

Lemma with_status_same st x : Ticket.with_status st x = x ↔ st = Ticket.status x.
Proof.
  split.
  - intros H. apply (f_equal Ticket.status) in H. done.
  - intros ->. by destruct x.
Qed.

(** The hook on a loaded document with a modified path, as one record. *)
Lemma pre_save_loaded_data now d :
  Ticket.isNew d = false → Ticket.modified d ≠ [] →
  let y := Ticket.data d in
  Ticket.data (Ticket.pre_save now d)
  = Ticket.with_closedAt
      (if bool_decide ("status" ∈ Ticket.modified d)
          && bool_decide (Ticket.status y = "closed")
          && negb (bool_decide (is_Some (Ticket.closedAt y)))
       then Some now else Ticket.closedAt y)
      (Ticket.with_resolvedAt
         (if bool_decide ("status" ∈ Ticket.modified d)
             && bool_decide (Ticket.status y = "resolved")
             && negb (bool_decide (is_Some (Ticket.resolvedAt y)))
          then Some now else Ticket.resolvedAt y)
         (Ticket.with_version (Ticket.version y + 1)
            (Ticket.with_updatedAt now y))).
Proof.
  intros Hn Hm y.
  destruct (pre_save_loaded_fields now d Hn Hm)
    as (Hrd & Hid & Hcb & Hca & Hsla & Hfr & Hver & Hup & Hres & Hcl).
  pose proof (Hrd Ticket.Title) as [= H1].
  pose proof (Hrd Ticket.Description) as [= H2].
  pose proof (Hrd Ticket.Status) as [= H3].
  pose proof (Hrd Ticket.Priority) as [= H4].
  pose proof (Hrd Ticket.Category) as [= H5].
  pose proof (Hrd Ticket.AssignedTo) as H6.
  pose proof (Hrd Ticket.Tags) as [= H7].
  cbn [Ticket.read] in H6.
  assert (Ticket.assignedTo (Ticket.data (Ticket.pre_save now d))
          = Ticket.assignedTo (Ticket.data d)) as H6'.
  { revert H6. generalize (Ticket.assignedTo (Ticket.data d)).
    generalize (Ticket.assignedTo (Ticket.data (Ticket.pre_save now d))).
    intros [] []; cbn; congruence. }
  clear H6 Hrd. fold y in H1, H2, H3, H4, H5, H6', H7, Hid, Hcb, Hca, Hsla, Hfr,
    Hver, Hup, Hres, Hcl.
  destruct (Ticket.data (Ticket.pre_save now d)) as [].
  cbn in *. subst.
  unfold Ticket.with_closedAt, Ticket.with_resolvedAt, Ticket.with_version,
    Ticket.with_updatedAt. cbn. reflexivity.
Qed.

(** X11.  A successful POST /:id/status stores the requested status, which
    is one of the schema's enum.  When it differs from the current one the
    version goes up by one, [updatedAt] becomes the time of the request,
    and [resolvedAt] ([closedAt]) is set to that time if the new status is
    [resolved] ([closed]) and the stamp was not set before: a stamp once
    set survives re-opening and is not renewed by resolving again.  When
    the requested status is the current one the ticket is not written at
    all.  Either way one [status_changed] entry is appended to the
    timeline. *)
Theorem post_status_stamps now user id body s o x r s' :
  Mongoose.cast_id (JStr id) = Some o →
  tickets s !! o = Some x →
  Ticket._id x = o →
  run (post_status now user id body) s = (r, s') →
  is_success r = true →
  ∃ st x' e,
    JS.get body "status" = JStr st ∧ st ∈ Ticket.status_enum
    ∧ r = {| statusCode := 200; payload := TicketOk x' |}
    ∧ tickets s' = <[o := x']> (tickets s)
    ∧ (st = Ticket.status x → x' = x)
    ∧ (st ≠ Ticket.status x →
       x' = Ticket.with_closedAt
              (match Ticket.closedAt x with
               | Some t => Some t
               | None => if bool_decide (st = "closed") then Some now else None
               end)
              (Ticket.with_resolvedAt
                 (match Ticket.resolvedAt x with
                  | Some t => Some t
                  | None => if bool_decide (st = "resolved") then Some now else None
                  end)
                 (Ticket.with_version (Ticket.version x + 1)
                    (Ticket.with_updatedAt now (Ticket.with_status st x)))))
    ∧ timeline s' = timeline s ++ [e]
    ∧ Timeline.ticket e = o ∧ Timeline.action e = "status_changed"
    ∧ Timeline.description e
      = "Status changed from " +:+ Ticket.status x +:+ " to " +:+ st
          +:+ " by " +:+ User.name user.
Proof.
  intros Hid Hx Hxo Hrun Hok. apply run_success in Hrun; [|done].
  unfold post_status in Hrun.
  destruct (JS.get body "status") as [| | | |st| |] eqn:Hst; try early Hrun.
  cbn [JS.includes negb] in Hrun. case_bool_decide as Hin; [|early Hrun].
  cbn [negb] in Hrun.
  apply bind_inv in Hrun as [(s0 & found & Hf & Hrun)|(? & _ & ?)]; [|done].
  rewrite (Ticket_findById_spec _ _ _ Hid), Hx in Hf. injection Hf as <- <-.
  cbn [fmap option_fmap option_map Ticket.loaded Ticket.data] in Hrun.
  apply bind_inv in Hrun as [(s1 & d1 & Hsave & Hrun)|(? & _ & ?)]; [|done].
  apply bind_inv in Hrun as [(s2 & [] & Hlog & Hrun)|(? & _ & ?)]; [|done].
  injection Hrun as <- <-.
  unfold createTimelineEntry in Hlog. cbn [Mongoose.cast_id] in Hlog.
  destruct (Timeline.validate _) eqn:Hval; [done|]. injection Hlog as <-.
  cbn [to_string] in *.
  assert (∃ x', s1 = with_tickets (<[o := x']> (tickets s)) s
                ∧ Ticket.data d1 = x'
                ∧ (st = Ticket.status x → x' = x)
                ∧ (st ≠ Ticket.status x →
                   x' = Ticket.with_closedAt
                          (match Ticket.closedAt x with
                           | Some t => Some t
                           | None => if bool_decide (st = "closed")
                                     then Some now else None
                           end)
                          (Ticket.with_resolvedAt
                             (match Ticket.resolvedAt x with
                              | Some t => Some t
                              | None => if bool_decide (st = "resolved")
                                        then Some now else None
                              end)
                             (Ticket.with_version (Ticket.version x + 1)
                                (Ticket.with_updatedAt now
                                   (Ticket.with_status st x))))))
    as (x' & -> & Hd1 & Hsame & Hdiff).
  { unfold Ticket.assign in Hsave. cbn [Ticket.put Ticket.data Ticket.loaded
      Mongoose.cast_string mbind option_bind Ticket.isNew orb] in Hsave.
    destruct (decide (st = Ticket.status x)) as [Heq|Hne].
    - rewrite (bool_decide_eq_true_2 (Ticket.with_status st x = x)) in Hsave
        by (by apply with_status_same).
      cbn [negb] in Hsave.
      apply save_loaded in Hsave as [(? & ? & _)|[(_ & [= ->] & ->)|(? & _)]];
        [done| |done|done].
      exists x. split; [|done].
      destruct s. unfold with_tickets. cbn in *. by rewrite insert_id.
    - rewrite (bool_decide_eq_false_2 (Ticket.with_status st x = x)) in Hsave
        by (by rewrite with_status_same).
      cbn [negb] in Hsave.
      assert (Ticket.mark (Ticket.name Ticket.Status)
                (Ticket.with_data (Ticket.with_status st x) (Ticket.loaded x))
              = {| Ticket.data := Ticket.with_status st x; Ticket.isNew := false;
                   Ticket.modified := ["status"]; Ticket.invalid := [] |}) as Hdoc
        by reflexivity.
      rewrite Hdoc in Hsave.
      apply save_loaded in Hsave as [(? & ? & _)|[(? & _)|(_ & [= ->] & ->)]];
        [done|done| |done].
      cbn [Ticket.data Ticket._id Ticket.with_status]. rewrite Hxo.
      eexists. split; [done|]. split; [done|]. split; [done|]. intros _.
      rewrite pre_save_loaded_data by done.
      cbn [Ticket.data Ticket.modified Ticket.status Ticket.closedAt
           Ticket.resolvedAt Ticket.with_status Ticket.version].
      rewrite (bool_decide_eq_true_2 ("status" ∈ ["status"])) by (by left).
      cbn [andb]. f_equal; [|f_equal].
      + destruct (Ticket.closedAt x) as [t|].
        * rewrite (bool_decide_eq_true_2 (is_Some (Some t))) by eauto.
          by rewrite andb_false_r.
        * rewrite (bool_decide_eq_false_2 (is_Some None)) by (by intros [? ?]).
          by rewrite andb_true_r.
      + destruct (Ticket.resolvedAt x) as [t|].
        * rewrite (bool_decide_eq_true_2 (is_Some (Some t))) by eauto.
          by rewrite andb_false_r.
        * rewrite (bool_decide_eq_false_2 (is_Some None)) by (by intros [? ?]).
          by rewrite andb_true_r. }
  exists st, x'. eexists. split; [done|]. split; [done|].
  rewrite Hd1. split; [done|]. split; [done|]. split; [done|]. split; [done|].
  cbn [timeline with_timeline with_tickets]. split; [done|]. by rewrite Hxo.
Qed.

Lemma post_status_stamps_witness :
  let now := Sample.T0 + Sample.hour in
  let body := [("status", JStr "resolved")] in
  let out := run (post_status now Sample.agent Sample.t1 body) Sample.db1 in
  ∃ st x' e,
    JS.get body "status" = JStr st ∧ st ∈ Ticket.status_enum
    ∧ out.1 = {| statusCode := 200; payload := TicketOk x' |}
    ∧ tickets out.2 = <[Sample.t1 := x']> (tickets Sample.db1)
    ∧ (st = Ticket.status Sample.ticket1 → x' = Sample.ticket1)
    ∧ (st ≠ Ticket.status Sample.ticket1 →
       x' = Ticket.with_closedAt
              (match Ticket.closedAt Sample.ticket1 with
               | Some t => Some t
               | None => if bool_decide (st = "closed") then Some now else None
               end)
              (Ticket.with_resolvedAt
                 (match Ticket.resolvedAt Sample.ticket1 with
                  | Some t => Some t
                  | None => if bool_decide (st = "resolved") then Some now else None
                  end)
                 (Ticket.with_version (Ticket.version Sample.ticket1 + 1)
                    (Ticket.with_updatedAt now
                       (Ticket.with_status st Sample.ticket1)))))
    ∧ timeline out.2 = timeline Sample.db1 ++ [e]
    ∧ Timeline.ticket e = Sample.t1 ∧ Timeline.action e = "status_changed"
    ∧ Timeline.description e
      = "Status changed from " +:+ Ticket.status Sample.ticket1 +:+ " to " +:+ st
          +:+ " by " +:+ User.name Sample.agent.
Proof.
  intros now body out.
  apply (post_status_stamps now Sample.agent Sample.t1 body Sample.db1 Sample.t1
           Sample.ticket1 out.1 out.2).
  - by vm_compute.
  - exact db1_ticket.
  - reflexivity.
  - apply surjective_pairing.
  - by vm_compute.
Defined.

(** ** The role filter of PATCH *)

Lemma get_set o k v k' :
  JS.get (JS.set o k v) k' = if bool_decide (k' = k) then v else JS.get o k'.
Proof.
  induction o as [|[k0 v0] o IH]; simpl.
  - case_bool_decide; case_bool_decide; congruence.
  - destruct (bool_decide_reflect (k0 = k)) as [->|Hne]; simpl.
    + destruct (bool_decide_reflect (k = k')) as [->|?].
      * by rewrite bool_decide_eq_true_2.
      * by rewrite bool_decide_eq_false_2 by congruence.
    + destruct (bool_decide_reflect (k0 = k')) as [->|?].
      * by rewrite bool_decide_eq_false_2 by congruence.
      * apply IH.
Qed.

Lemma filter_updates_get_fold (allowed : list string) updates acc ks k :
  JS.get (foldl (λ filteredUpdates key,
                   if bool_decide (key ∈ allowed)
                   then JS.set filteredUpdates key (JS.get updates key)
                   else filteredUpdates) acc ks) k
  = if bool_decide (k ∈ allowed ∧ k ∈ ks) then JS.get updates k else JS.get acc k.
Proof.
  revert acc. induction ks as [|k0 ks IH]; intros acc; simpl.
  - rewrite bool_decide_eq_false_2; [done|]. intros [_ ?%elem_of_nil]. done.
  - rewrite IH. destruct (bool_decide_reflect (k ∈ allowed ∧ k ∈ ks)) as [[Ha Hk]|Hn].
    + rewrite bool_decide_eq_true_2; [done|]. split; [done|]. by right.
    + destruct (bool_decide_reflect (k0 ∈ allowed)) as [H0|H0].
      * rewrite get_set. destruct (bool_decide_reflect (k = k0)) as [->|Hne].
        -- rewrite bool_decide_eq_true_2; [done|]. split; [done|]. by left.
        -- rewrite bool_decide_eq_false_2; [done|].
           intros [Ha [->|?]%elem_of_cons]; [done|]. by destruct Hn.
      * rewrite bool_decide_eq_false_2; [done|].
        intros [Ha [->|?]%elem_of_cons]; [done|]. by destruct Hn.
Qed.

Lemma filter_updates_keys_fold (allowed : list string) updates acc ks k :
  k ∈ JS.keys (foldl (λ filteredUpdates key,
                        if bool_decide (key ∈ allowed)
                        then JS.set filteredUpdates key (JS.get updates key)
                        else filteredUpdates) acc ks)
  ↔ k ∈ JS.keys acc ∨ (k ∈ allowed ∧ k ∈ ks).
Proof.
  revert acc. induction ks as [|k0 ks IH]; intros acc; simpl.
  - split; [by left|]. intros [?|[_ ?%elem_of_nil]]; done.
  - rewrite IH. case_bool_decide as H0.
    + rewrite set_keys. case_bool_decide as Hin.
      * rewrite elem_of_cons. intuition (subst; auto).
      * rewrite elem_of_app, list_elem_of_singleton, elem_of_cons.
        intuition (subst; auto).
    + rewrite elem_of_cons. intuition (subst; auto). done.
Qed.

(** X12.  The filter of PATCH, [filteredUpdates]: it has exactly the keys of
    the request that are in the allowed list, each once and with the value
    the request gives it; every other key reads as undefined. *)
Theorem filter_updates_spec (allowed : list string) updates :
  let fu := filter_updates allowed updates in
  (∀ k, JS.get fu k
        = if bool_decide (k ∈ allowed ∧ k ∈ JS.keys updates)
          then JS.get updates k else JUndefined)
  ∧ (∀ k, k ∈ JS.keys fu ↔ k ∈ allowed ∧ k ∈ JS.keys updates)
  ∧ NoDup (JS.keys fu).
Proof.
  intros fu. subst fu. unfold filter_updates. split; [|split].
  - intros k. by rewrite filter_updates_get_fold.
  - intros k. rewrite filter_updates_keys_fold. cbn.
    split; [intros [?%elem_of_nil|?]; done|by right].
  - apply filter_updates_NoDup.
Qed.





(** ** Bulk assignment *)

Lemma with_assignedTo_same a x : Ticket.assignedTo x = a → Ticket.with_assignedTo a x = x.
Proof. intros <-. by destruct x. Qed.

Lemma cast_ids_cons i ids os :
  cast_ids (i :: ids) = Some os →
  ∃ o os', Mongoose.cast_oid_string i = Some o ∧ cast_ids ids = Some os'
           ∧ os = o :: os'.
Proof.
  simpl. destruct (Mongoose.cast_oid_string i) as [o|]; [|done].
  destruct (cast_ids ids) as [os'|]; [|done]. intros [= <-]. eauto.
Qed.

Lemma updateMany_inv ids v s s' n :
  Ticket_updateMany_assignedTo ids v s = (s', inr n) →
  ∃ os a, cast_ids ids = Some os ∧ Mongoose.cast_ref v = Some a
    ∧ (∀ o, tickets s' !! o
            = (λ x, if bool_decide (o ∈ os) then Ticket.with_assignedTo a x else x)
                <$> tickets s !! o)
    ∧ comments s' = comments s ∧ timeline s' = timeline s ∧ users s' = users s
    ∧ n = Z.of_nat (length (filter (λ kx, kx.1 ∈ os ∧ Ticket.assignedTo kx.2 ≠ a)
                              (map_to_list (tickets s)))).
Proof.
  unfold Ticket_updateMany_assignedTo.
  destruct (cast_ids ids) as [os|]; [|done].
  destruct (Mongoose.cast_ref v) as [a|]; [|done].
  intros [= <- <-]. exists os, a. split; [done|]. split; [done|].
  cbn [tickets comments timeline users with_tickets].
  split; [|split; [done|split; [done|split; [done|]]]].
  - intros o. rewrite map_lookup_imap. destruct (tickets s !! o) as [x|]; [|done].
    cbn. f_equal. case_bool_decide; cbn [andb]; [|done].
    case_bool_decide as Ha; cbn [negb]; [|done]. by rewrite with_assignedTo_same.
  - do 2 f_equal. apply list_filter_iff. intros [o x]. cbn.
    rewrite andb_true_iff, negb_true_iff, bool_decide_eq_true, bool_decide_eq_false.
    done.
Qed.

Lemma createTimelineEntry_ok now tv uid action description details s s' :
  createTimelineEntry now tv uid action description details s = (s', inr ()) →
  ∃ tid, Mongoose.cast_id tv = Some tid
    ∧ s' = with_timeline
             (timeline s
              ++ [{| Timeline.ticket := tid; Timeline.user := uid;
                     Timeline.action := action; Timeline.details := details;
                     Timeline.description := description;
                     Timeline.createdAt := now |}]) s.
Proof.
  unfold createTimelineEntry. destruct (Mongoose.cast_id tv) as [tid|]; [|done].
  destruct (Timeline.validate _); [done|]. intros [= <-]. eauto.
Qed.

Lemma log_bulk_inv now user assignedTo ids os s s2 :
  cast_ids ids = Some os →
  log_bulk now user assignedTo ids s = (s2, inr ()) →
  ∃ es, s2 = with_timeline (timeline s ++ es) s
    ∧ Forall2 (λ e o, Timeline.ticket e = o ∧ Timeline.action e = "assigned"
                      ∧ Timeline.user e = User._id user
                      ∧ Timeline.createdAt e = now)
        es (filter (λ o, is_Some (tickets s !! o)) os).
Proof.
  unfold log_bulk. revert os s.
  induction ids as [|i ids IH]; intros os s Hc.
  - injection Hc as <-. intros [= <-]. exists []. split; [|constructor].
    destruct s. unfold with_timeline. cbn. by rewrite app_nil_r.
  - apply cast_ids_cons in Hc as (o & os' & Ho & Hos & ->).
    cbn [for_each].
    intros [(s1 & [] & Hstep & Hrest)|(? & _ & ?)]%bind_inv; [|done].
    apply bind_inv in Hstep as [(s0 & found & Hf & Hstep)|(? & _ & ?)]; [|done].
    rewrite (Ticket_findById_spec i o) in Hf by done. injection Hf as <- <-.
    rewrite filter_cons.
    destruct (tickets s !! o) as [x|] eqn:Hx; cbn [fmap option_fmap option_map] in Hstep.
    + apply bind_inv in Hstep as [(s0 & newUser & Hu & Hstep)|(? & _ & ?)]; [|done].
      apply maybe_find_state in Hu as ->.
      apply createTimelineEntry_ok in Hstep as (tid & Htid & ->).
      cbn in Htid. rewrite Ho in Htid. injection Htid as <-.
      destruct (IH os' _ Hos Hrest) as (es & -> & Hes).
      cbn [tickets with_timeline timeline] in *.
      eexists (_ :: es). split.
      * unfold with_timeline. cbn. by rewrite <- app_assoc.
      * rewrite decide_True by eauto. constructor; [done|]. exact Hes.
    + injection Hstep as <-. destruct (IH os' _ Hos Hrest) as (es & -> & Hes).
      exists es. split; [done|]. rewrite decide_False; [done|]. by intros [? ?].
Qed.

(** X14.  A successful POST /bulk/assign: the ids and the assignee cast;
    every stored ticket whose id is listed holds the assignee afterwards
    and differs from what it was in nothing else (its version and
    [updatedAt] stay), every other ticket is untouched; the count answered
    is the number of stored tickets listed whose assignee was another one;
    comments and users are untouched; and the timeline receives one
    [assigned] entry per listed id that names a stored ticket, in list
    order and as often as the id is listed, whether or not the assignee of
    that ticket changed. *)
Theorem bulk_assign_effect now user body s r s' :
  run (post_bulk_assign now user body) s = (r, s') →
  is_success r = true →
  ∃ ids os a n es,
    JS.get body "ticketIds" = JArr ids ∧ ids ≠ []
    ∧ cast_ids ids = Some os
    ∧ Mongoose.cast_ref (JS.or (JS.get body "assignedTo") JNull) = Some a
    ∧ r = {| statusCode := 200;
             payload := BulkOk (pretty n +:+ " tickets updated") n |}
    ∧ (∀ o, tickets s' !! o
            = (λ x, if bool_decide (o ∈ os) then Ticket.with_assignedTo a x else x)
                <$> tickets s !! o)
    ∧ n = Z.of_nat (length (filter (λ kx, kx.1 ∈ os ∧ Ticket.assignedTo kx.2 ≠ a)
                              (map_to_list (tickets s))))
    ∧ comments s' = comments s ∧ users s' = users s
    ∧ timeline s' = timeline s ++ es
    ∧ Forall2 (λ e o, Timeline.ticket e = o ∧ Timeline.action e = "assigned"
                      ∧ Timeline.user e = User._id user
                      ∧ Timeline.createdAt e = now)
        es (filter (λ o, is_Some (tickets s !! o)) os).
Proof.
  intros Hrun Hok. apply run_success in Hrun; [|done].
  unfold post_bulk_assign in Hrun.
  destruct (JS.get body "ticketIds") as [| | | | | |ids] eqn:Hids; try early Hrun.
  destruct ids as [|i ids]; [early Hrun|].
  apply bind_inv in Hrun as [(s0 & assignee & Ha & Hrun)|(? & _ & ?)]; [|done].
  apply maybe_find_state in Ha as ->.
  destruct (_ && _); [early Hrun|].
  apply bind_inv in Hrun as [(s1 & n & Hupd & Hrun)|(? & _ & ?)]; [|done].
  apply bind_inv in Hrun as [(s2 & [] & Hlog & Hrun)|(? & _ & ?)]; [|done].
  injection Hrun as <- <-.
  apply updateMany_inv in Hupd as (os & a & Hos & Hcast & Htk & Hcm & Htl & Hus & Hn).
  fold (log_bulk now user (JS.get body "assignedTo") (i :: ids)) in Hlog.
  apply (log_bulk_inv _ _ _ _ os) in Hlog as (es & -> & Hes); [|done].
  exists (i :: ids), os, a, n, es.
  cbn [tickets comments users timeline with_timeline].
  repeat (split; [done|]). rewrite Htl. split; [done|].
  assert (filter (λ o, is_Some (tickets s1 !! o)) os
          = filter (λ o, is_Some (tickets s !! o)) os) as <-; [|done].
  apply list_filter_iff. intros o. rewrite Htk.
  by rewrite fmap_is_Some.
Qed.

Lemma bulk_assign_effect_witness :
  let body := [("ticketIds", JArr [Sample.t1; Sample.t2; Sample.t1]);
               ("assignedTo", JStr Sample.agent_id)] in
  let out := run (post_bulk_assign (Sample.T0 + 1) Sample.admin body) Sample.db1 in
  ∃ ids os a n es,
    JS.get body "ticketIds" = JArr ids ∧ ids ≠ []
    ∧ cast_ids ids = Some os
    ∧ Mongoose.cast_ref (JS.or (JS.get body "assignedTo") JNull) = Some a
    ∧ out.1 = {| statusCode := 200;
                 payload := BulkOk (pretty n +:+ " tickets updated") n |}
    ∧ (∀ o, tickets out.2 !! o
            = (λ x, if bool_decide (o ∈ os) then Ticket.with_assignedTo a x else x)
                <$> tickets Sample.db1 !! o)
    ∧ n = Z.of_nat (length (filter (λ kx, kx.1 ∈ os ∧ Ticket.assignedTo kx.2 ≠ a)
                              (map_to_list (tickets Sample.db1))))
    ∧ comments out.2 = comments Sample.db1 ∧ users out.2 = users Sample.db1
    ∧ timeline out.2 = timeline Sample.db1 ++ es
    ∧ Forall2 (λ e o, Timeline.ticket e = o ∧ Timeline.action e = "assigned"
                      ∧ Timeline.user e = User._id Sample.admin
                      ∧ Timeline.createdAt e = Sample.T0 + 1)
        es (filter (λ o, is_Some (tickets Sample.db1 !! o)) os).
Proof.
  intros body out.
  apply (bulk_assign_effect (Sample.T0 + 1) Sample.admin body Sample.db1 out.1 out.2).
  - apply surjective_pairing.
  - by vm_compute.
Defined.

(** ** The read side *)

(** X15.  The time-left virtuals and the breach check agree.  On a valid
    ticket with clear stored flags, neither virtual throws;
    [timeToResponse] is null exactly when the ticket is answered, and then
    the check reports no response breach; otherwise it is the time to the
    response deadline, never negative, it is 0 whenever the check reports
    a response breach, and while it is positive the check reports none.
    The same holds of [timeToResolution], [resolvedAt] and the resolution
    breach. *)
Theorem time_left_and_breach now x :
  schema_valid x → flags_clear x →
  let y := Ticket.checkSLABreaches now x in
  (∃ v, timeToResponse now x = inr v
        ∧ (v = None ↔ is_Some (Ticket.firstResponseAt x))
        ∧ (v = None → Ticket.isResponseBreached (Ticket.sla_ y) = false)
        ∧ ∀ n, v = Some n →
            0 ≤ n
            ∧ (Ticket.isResponseBreached (Ticket.sla_ y) = true → n = 0)
            ∧ (0 < n → Ticket.isResponseBreached (Ticket.sla_ y) = false))
  ∧ (∃ v, timeToResolution now x = inr v
          ∧ (v = None ↔ is_Some (Ticket.resolvedAt x))
          ∧ (v = None → Ticket.isResolutionBreached (Ticket.sla_ y) = false)
          ∧ ∀ n, v = Some n →
              0 ≤ n
              ∧ (Ticket.isResolutionBreached (Ticket.sla_ y) = true → n = 0)
              ∧ (0 < n → Ticket.isResolutionBreached (Ticket.sla_ y) = false)).
Proof.
  intros (_ & _ & [rd Hrd] & [sd Hsd] & _) [Hf1 Hf2] y. subst y.
  destruct (checkSLABreaches_flags now x) as [-> ->].
  rewrite Hf1, Hf2, Hrd, Hsd. cbn [orb Ticket.past].
  unfold timeToResponse, timeToResolution. rewrite Hrd, Hsd.
  split.
  - destruct (bool_decide_reflect (is_Some (Ticket.firstResponseAt x))) as [Hs|Hs];
      cbn [negb andb]; eexists; (split; [done|]).
    + split; [done|]. split; [done|]. by intros n.
    + split; [split; [done|by intros ?]|]. split; [done|].
      intros n [= <-]. rewrite Z.ltb_lt.
      split; [lia|]. split; [lia|]. intros ?. apply Z.ltb_ge. lia.
  - destruct (bool_decide_reflect (is_Some (Ticket.resolvedAt x))) as [Hs|Hs];
      cbn [negb andb]; eexists; (split; [done|]).
    + split; [done|]. split; [done|]. by intros n.
    + split; [split; [done|by intros ?]|]. split; [done|].
      intros n [= <-]. rewrite Z.ltb_lt.
      split; [lia|]. split; [lia|]. intros ?. apply Z.ltb_ge. lia.
Qed.

Lemma ticket1_valid : schema_valid Sample.ticket1.
Proof.
  unfold schema_valid. split; [by vm_compute|]. split; [by vm_compute|].
  cbn. repeat split; eauto; done.
Qed.

Lemma time_left_and_breach_witness :
  let now := Sample.T0 + 3 * Sample.hour in
  let y := Ticket.checkSLABreaches now Sample.ticket1 in
  (∃ v, timeToResponse now Sample.ticket1 = inr v
        ∧ (v = None ↔ is_Some (Ticket.firstResponseAt Sample.ticket1))
        ∧ (v = None → Ticket.isResponseBreached (Ticket.sla_ y) = false)
        ∧ ∀ n, v = Some n →
            0 ≤ n
            ∧ (Ticket.isResponseBreached (Ticket.sla_ y) = true → n = 0)
            ∧ (0 < n → Ticket.isResponseBreached (Ticket.sla_ y) = false))
  ∧ (∃ v, timeToResolution now Sample.ticket1 = inr v
          ∧ (v = None ↔ is_Some (Ticket.resolvedAt Sample.ticket1))
          ∧ (v = None → Ticket.isResolutionBreached (Ticket.sla_ y) = false)
          ∧ ∀ n, v = Some n →
              0 ≤ n
              ∧ (Ticket.isResolutionBreached (Ticket.sla_ y) = true → n = 0)
              ∧ (0 < n → Ticket.isResolutionBreached (Ticket.sla_ y) = false)).
Proof.
  apply (time_left_and_breach (Sample.T0 + 3 * Sample.hour) Sample.ticket1).
  - exact ticket1_valid.
  - by vm_compute.
Defined.

Lemma Ticket_find_stored q s x :
  x ∈ Ticket_find q s → q x = true ∧ ∃ o, tickets s !! o = Some x.
Proof.
  unfold Ticket_find. intros [Hq Hin]%list_elem_of_filter. split; [done|].
  apply list_elem_of_fmap in Hin as ([o x'] & -> & Hin).
  exists o. by apply elem_of_map_to_list.
Qed.

Lemma Ticket_find_none q s :
  (∀ o x, tickets s !! o = Some x → q x = false) → Ticket_find q s = [].
Proof.
  intros Hq. destruct (Ticket_find q s) as [|x l] eqn:E; [done|].
  assert (x ∈ Ticket_find q s) as Hin by (rewrite E; by left).
  apply Ticket_find_stored in Hin as (Hx & o & Ho). rewrite (Hq _ _ Ho) in Hx. done.
Qed.

(** X16.  GET /sla/breached lists no ticket, whatever the clock and however
    overdue the tickets are: it selects on the stored breach flags, and no
    request the server has served stored a raised one. *)
Theorem sla_breached_lists_nothing w :
  reachable w → get_sla_breached (store w) = (store w, inr []).
Proof.
  intros Hw. unfold get_sla_breached. rewrite Ticket_find_none; [done|].
  intros o x Hx. destruct (reachable_no_stored_flag w Hw o x Hx) as [-> ->]. done.
Qed.

Lemma sla_breached_lists_nothing_witness :
  let w := (app (Sample.T0 + 100 * Sample.hour) Sample.t2
              {| auth := Bearer Sample.agent_id; idempotency_key := None;
                 target := GetTicket Sample.t1 |}
              (app Sample.T0 Sample.t1
                 (Sample.post Sample.john_id "k1" (CreateTicket Sample.urgent_body))
                 Sample.fresh_world).2).2 in
  get_sla_breached (store w) = (store w, inr []).
Proof.
  intros w. apply (sla_breached_lists_nothing w).
  apply reachable_step, reachable_step, reachable_start. reflexivity.
Defined.

Lemma filter_length_le {A} (P Q : A → Prop) `{∀ x, Decision (P x)}
    `{∀ x, Decision (Q x)} (l : list A) :
  (∀ x, P x → Q x) → (length (filter P l) ≤ length (filter Q l))%nat.
Proof.
  intros HPQ. induction l as [|x l IH]; [done|].
  rewrite !filter_cons. destruct (decide (P x)) as [HP|HP].
  - rewrite decide_True by auto. simpl. lia.
  - destruct (decide (Q x)); simpl; lia.
Qed.

Lemma count_le (p q : Ticket.t → bool) s :
  (∀ x, p x = true → q x = true) →
  0 ≤ Ticket_countDocuments p s ≤ Ticket_countDocuments q s.
Proof.
  intros Hpq. unfold Ticket_countDocuments, Ticket_find. split; [lia|].
  apply inj_le. by apply filter_length_le.
Qed.

Lemma filter_ext_in {A} (P Q : A → Prop) `{∀ x, Decision (P x)}
    `{∀ x, Decision (Q x)} (l : list A) :
  (∀ x, x ∈ l → P x ↔ Q x) → filter P l = filter Q l.
Proof.
  induction l as [|x l IH]; intros HPQ; [done|].
  rewrite !filter_cons. rewrite IH by (intros y Hy; apply HPQ; by right).
  destruct (decide (P x)) as [HP|HP].
  - rewrite decide_True; [done|]. apply HPQ; [by left|done].
  - rewrite decide_False; [done|]. intros HQ. apply HP, HPQ; [by left|done].
Qed.

Lemma count_ext (p q : Ticket.t → bool) s :
  (∀ o x, tickets s !! o = Some x → p x = q x) →
  Ticket_countDocuments p s = Ticket_countDocuments q s.
Proof.
  intros Hpq. unfold Ticket_countDocuments, Ticket_find. do 2 f_equal.
  apply filter_ext_in. intros x Hin.
  apply list_elem_of_fmap in Hin as ([o x'] & -> & Hin).
  apply elem_of_map_to_list in Hin. cbn. by rewrite (Hpq _ _ Hin).
Qed.

(** X17.  The agent dashboard reads and does not write.  Its counts are
    consistent: the tickets in progress, the breached ones and those
    pending a response are each among the open tickets assigned to the
    agent, so none of these counts exceeds [assignedToMe]; and [breached]
    counts exactly the open tickets assigned to the agent on which the
    breach check, run at the same time, raises a flag, so the dashboard and
    the ticket view agree on which tickets are overdue. *)
Theorem dashboard_counts now startOfToday user w :
  reachable w →
  ∃ st, get_agent_dashboard now startOfToday user (store w) = (store w, inr st)
    ∧ 0 ≤ inProgress st ≤ assignedToMe st
    ∧ 0 ≤ breached st ≤ assignedToMe st
    ∧ 0 ≤ pendingResponse st ≤ assignedToMe st
    ∧ 0 ≤ resolvedToday st
    ∧ breached st
      = Ticket_countDocuments
          (λ x, bool_decide (Ticket.assignedTo x = Ref (User._id user))
                && negb (bool_decide (Ticket.status x ∈ ["closed"; "resolved"]))
                && (Ticket.isResponseBreached
                      (Ticket.sla_ (Ticket.checkSLABreaches now x))
                    || Ticket.isResolutionBreached
                         (Ticket.sla_ (Ticket.checkSLABreaches now x))))
          (store w).
Proof.
  intros Hw. eexists. split; [reflexivity|].
  cbn [assignedToMe inProgress breached pendingResponse resolvedToday].
  split; [|split; [|split; [|split]]].
  - apply count_le. intros x [Hm Hs%bool_decide_eq_true]%andb_true_iff.
    rewrite Hm. cbn [andb]. apply negb_true_iff, bool_decide_eq_false.
    rewrite Hs, !elem_of_cons, elem_of_nil. intuition discriminate.
  - apply count_le. by intros x [? _]%andb_true_iff.
  - apply count_le.
    intros x [[Hm Hs%bool_decide_eq_true]%andb_true_iff _]%andb_true_iff.
    rewrite Hm. cbn [andb]. apply negb_true_iff, bool_decide_eq_false.
    revert Hs. rewrite !elem_of_cons, elem_of_nil.
    intros [->|[->|[]]]; intuition discriminate.
  - unfold Ticket_countDocuments. lia.
  - apply count_ext. intros o x Hx.
    destruct (read_reports_breach w now o x Hw Hx) as [-> ->].
    reflexivity.
Qed.

Lemma dashboard_counts_witness :
  let w := (app (Sample.T0 + 1) Sample.t2
              (Sample.post Sample.agent_id "k2"
                 (Assign Sample.t1 [("assignedTo", JStr Sample.agent_id)]))
              (app Sample.T0 Sample.t1
                 (Sample.post Sample.john_id "k1" (CreateTicket Sample.urgent_body))
                 Sample.fresh_world).2).2 in
  let now := Sample.T0 + 3 * Sample.hour in
  ∃ st, get_agent_dashboard now Sample.T0 Sample.agent (store w) = (store w, inr st)
    ∧ 0 ≤ inProgress st ≤ assignedToMe st
    ∧ 0 ≤ breached st ≤ assignedToMe st
    ∧ 0 ≤ pendingResponse st ≤ assignedToMe st
    ∧ 0 ≤ resolvedToday st
    ∧ breached st
      = Ticket_countDocuments
          (λ x, bool_decide (Ticket.assignedTo x = Ref (User._id Sample.agent))
                && negb (bool_decide (Ticket.status x ∈ ["closed"; "resolved"]))
                && (Ticket.isResponseBreached
                      (Ticket.sla_ (Ticket.checkSLABreaches now x))
                    || Ticket.isResolutionBreached
                         (Ticket.sla_ (Ticket.checkSLABreaches now x))))
          (store w).
Proof.
  intros w now. apply (dashboard_counts now Sample.T0 Sample.agent w).
  apply reachable_step, reachable_step, reachable_start. reflexivity.
Defined.

(** ** Internal errors *)






















(** ** A request that fails has written nothing *)










Lemma pre_save_isNew now d :
  Ticket.isNew (Ticket.pre_save now d) = Ticket.isNew d.
Proof.
  unfold Ticket.pre_save. destruct d as [x n m i]. simpl.
  repeat (case_match; simpl); done.
Qed.






































(** ** When the audit write fails *)

Lemma save_loaded_ok now d s :
  Ticket.isNew d = false → Ticket.modified d ≠ [] → Ticket.validate d = None →
  save now d s
  = (with_tickets
       (<[Ticket._id (Ticket.data d) := Ticket.data (Ticket.pre_save now d)]>
          (tickets s)) s,
     inr (committed (Ticket.pre_save now d))).
Proof.
  intros Hn Hm Hv. destruct (save now d s) as [s' r] eqn:Hsave.
  pose proof Hsave as Hinv.
  apply save_loaded_inv in Hinv as [(e & -> & _)|[(? & _)|(_ & _ & -> & ->)]];
    [|done..].
  unfold save in Hsave. rewrite Hv, pre_save_isNew, Hn in Hsave.
  by destruct (Ticket.isModified _).
Qed.

(** X20.  The audit write is not optional: POST /:id/status writes the
    ticket first and the timeline entry after it, and nothing catches a
    failure of the second.  When the description of the entry exceeds the
    500 characters of the timeline schema (which takes a display name of
    some 460 characters), the new status is stored, with the version one
    higher and [updatedAt] at the time of the request, no timeline entry is
    written, and the request is answered 400 VALIDATION_ERROR on the field
    [description]. *)
Theorem audit_failure_keeps_write now user id body s o x st :
  Mongoose.cast_id (JStr id) = Some o →
  tickets s !! o = Some x →
  Ticket._id x = o →
  JS.get body "status" = JStr st → st ∈ Ticket.status_enum →
  st ≠ Ticket.status x →
  (500 < String.length ("Status changed from " +:+ Ticket.status x +:+ " to "
                          +:+ st +:+ " by " +:+ User.name user))%nat →
  ∃ x', run (post_status now user id body) s
        = ({| statusCode := 400;
              payload := Failure "VALIDATION_ERROR" (Some "description")
                           (Msg "Description cannot exceed 500 characters") |},
           with_tickets (<[o := x']> (tickets s)) s)
    ∧ Ticket.status x' = st
    ∧ Ticket.version x' = Ticket.version x + 1
    ∧ Ticket.updatedAt x' = now.
Proof.
  intros Hid Hx Hxo Hbody Hin Hne Hlen.
  set (d := {| Ticket.data := Ticket.with_status st x; Ticket.isNew := false;
               Ticket.modified := ["status"]; Ticket.invalid := [] |}).
  assert (Ticket.assign Ticket.Status (JStr st) (Ticket.loaded x) = d) as Hdoc.
  { unfold Ticket.assign. cbn [Ticket.put Ticket.data Ticket.loaded
      Mongoose.cast_string mbind option_bind Ticket.isNew orb].
    rewrite (bool_decide_eq_false_2 (Ticket.with_status st x = x))
      by (by rewrite with_status_same).
    reflexivity. }
  assert (Ticket.validate d = None) as Hv.
  { unfold Ticket.validate, d. cbn [Ticket.invalid Ticket.isNew Ticket.modified
      Ticket.data Ticket.first_error].
    unfold Ticket.validate_path. simpl. by rewrite bool_decide_eq_true_2. }
  destruct (pre_save_modified now d eq_refl ltac:(done))
    as (Hid' & Hver & Hup & _ & _ & _ & Hst & _).
  exists (Ticket.data (Ticket.pre_save now d)).
  split; [|by rewrite Hst, Hver, Hup].
  unfold post_status, run. rewrite Hbody. cbn [JS.includes].
  rewrite bool_decide_eq_true_2 by done. cbn [negb].
  unfold bind at 1. rewrite (Ticket_findById_spec _ _ _ Hid), Hx.
  cbn [fmap option_fmap option_map Ticket.data Ticket.loaded].
  rewrite Hdoc. unfold bind at 1.
  rewrite (save_loaded_ok now d s eq_refl ltac:(done) Hv).
  unfold bind at 1, createTimelineEntry. cbn [Mongoose.cast_id].
  unfold Timeline.validate. cbn [Timeline.action Timeline.description to_string].
  rewrite bool_decide_eq_true_2 by repeat constructor.
  rewrite bool_decide_eq_false_2 by (intros Heq; rewrite Heq in Hlen; simpl in Hlen; lia).
  rewrite bool_decide_eq_true_2 by done.
  cbn [errorHandler]. by rewrite <- Hxo.
Qed.

Lemma audit_failure_keeps_write_witness :
  let user := Sample.person "eeeeeeeeeeeeeeeeeeeeeeee"
                (String.string_of_list_ascii (replicate 480 "x"%char)) "agent" in
  let body := [("status", JStr "resolved")] in
  ∃ x', run (post_status (Sample.T0 + 1) user Sample.t1 body) Sample.db1
        = ({| statusCode := 400;
              payload := Failure "VALIDATION_ERROR" (Some "description")
                           (Msg "Description cannot exceed 500 characters") |},
           with_tickets (<[Sample.t1 := x']> (tickets Sample.db1)) Sample.db1)
    ∧ Ticket.status x' = "resolved"
    ∧ Ticket.version x' = Ticket.version Sample.ticket1 + 1
    ∧ Ticket.updatedAt x' = Sample.T0 + 1.
Proof.
  intros user body.
  apply (audit_failure_keeps_write (Sample.T0 + 1) user Sample.t1 body Sample.db1
           Sample.t1 Sample.ticket1 "resolved").
  - by vm_compute.
  - exact db1_ticket.
  - reflexivity.
  - reflexivity.
  - apply (bool_decide_unpack _). by vm_compute.
  - by vm_compute.
  - vm_compute. lia.
Defined.

(** ** The audit trail *)

Lemma logs_silent {A} (P : Timeline.t → Prop) (m : M A) :
  (∀ s s' r, m s = (s', r) → timeline s' = timeline s) → logs P m.
Proof.
  intros Hm s s' r H. exists []. rewrite app_nil_r. split; [by eapply Hm|done].
Qed.

Lemma logs_bind {A B} (P : Timeline.t → Prop) (m : M A) (k : A → M B) :
  logs P m → (∀ a, logs P (k a)) → logs P (bind m k).
Proof.
  intros Hm Hk s s' r [(s1 & a & Hms & Hks)|(e & Hms & _)]%bind_inv.
  - destruct (Hm _ _ _ Hms) as (es1 & H1 & HP1).
    destruct (Hk _ _ _ _ Hks) as (es2 & H2 & HP2).
    exists (es1 ++ es2). split; [by rewrite H2, H1, app_assoc|].
    by apply Forall_app.
  - by eapply Hm.
Qed.

Lemma logs_for_each {A} (P : Timeline.t → Prop) (l : list A) (f : A → M unit) :
  (∀ x, logs P (f x)) → logs P (for_each l f).
Proof.
  intros Hf. induction l as [|x l IH]; simpl.
  - apply logs_silent. by intros s s' r [= <- _].
  - apply logs_bind; [apply Hf|]. intros _. apply IH.
Qed.

Lemma logs_createTimelineEntry now tv uid action description details :
  logs (filed now uid (Some action))
    (createTimelineEntry now tv uid action description details).
Proof.
  intros s s' r. unfold createTimelineEntry.
  destruct (Mongoose.cast_id tv) as [tid|].
  2:{ intros [= <- _]. exists []. by rewrite app_nil_r. }
  destruct (Timeline.validate _) eqn:Hv; intros [= <- _].
  - exists []. by rewrite app_nil_r.
  - eexists [_]. split; [reflexivity|]. apply Forall_singleton. by repeat split.
Qed.

Lemma save_timeline now d s s' r : save now d s = (s', r) → timeline s' = timeline s.
Proof. unfold save. repeat case_match; by intros [= <- _]. Qed.

Lemma Comment_create_timeline now t a content type first s s' r :
  Comment_create now t a content type first s = (s', r) →
  timeline s' = timeline s.
Proof. unfold Comment_create. repeat case_match; by intros [= <- _]. Qed.

Lemma updateMany_timeline ids v s s' r :
  Ticket_updateMany_assignedTo ids v s = (s', r) → timeline s' = timeline s.
Proof. unfold Ticket_updateMany_assignedTo. repeat case_match; by intros [= <- _]. Qed.

Lemma read_timeline {A} (m : M A) :
  (∀ s s' r, m s = (s', r) → s' = s) →
  ∀ s s' r, m s = (s', r) → timeline s' = timeline s.
Proof. intros Hm s s' r H. by apply Hm in H as ->. Qed.

Lemma logs_dispatch now new_id user rt :
  logs (filed now (User._id user) (route_action rt)) (dispatch now new_id user rt).
Proof.
  destruct rt; cbn [dispatch route_action];
    unfold authorize, post_ticket, patch_ticket, post_comment, post_assign,
      post_status, post_priority, post_bulk_assign;
    repeat first
      [ apply logs_createTimelineEntry
      | apply logs_silent, save_timeline
      | apply logs_silent, Comment_create_timeline
      | apply logs_silent, updateMany_timeline
      | apply logs_silent, read_timeline, Ticket_findById_state
      | apply logs_silent, read_timeline, maybe_find_state
      | apply logs_silent, read_timeline, User_findById_state
      | apply logs_silent, read_timeline, Comment_count_state
      | apply logs_silent, read_timeline, change_description_state
      | apply logs_silent, read_timeline, get_ticket_state
      | apply logs_bind; [|intros ?]
      | apply logs_for_each; intros ?
      | progress cbv [forbidden not_found invalid_assignee stale_update]
      | apply logs_silent; by intros ? ? ? [= <- _]
      | case_match ].
Qed.

(** X21.  The audit trail of the ticket routes: a request only appends
    to the timeline, whatever its outcome, and every entry it appends
    passes the validators of the timeline schema, is stamped with the time
    of the request, names as its user the authenticated requester, and is
    filed under the one action of its route: [created] for POST /,
    [updated] for PATCH /:id (status and priority changes included),
    [commented] for POST /:id/comments, [assigned] for POST /:id/assign and
    POST /bulk/assign (unassignments included), [status_changed] for POST
    /:id/status and [priority_changed] for POST /:id/priority.  Reading a
    ticket appends nothing, and no route files an entry under
    [unassigned], [resolved], [closed], [reopened] or [sla_breach]. *)
Theorem timeline_entries_of_route now new_id req s :
  let out := run (router now new_id req) s in
  ∃ es, timeline out.2 = timeline s ++ es
    ∧ (route_action (target req) = None → es = [])
    ∧ ∀ e, e ∈ es →
        Some (Timeline.action e) = route_action (target req)
        ∧ (Timeline.action e ∉ ["unassigned"; "resolved"; "closed"; "reopened";
                                "sla_breach"])
        ∧ Timeline.createdAt e = now
        ∧ Timeline.validate e = None
        ∧ ∃ id o u, auth req = Bearer id
            ∧ Mongoose.cast_id (JStr id) = Some o
            ∧ users s !! o = Some u ∧ User.isActive u = true
            ∧ Timeline.user e = User._id u.
Proof.
  intros out. subst out.
  assert (∀ s', timeline s' = timeline s →
            ∃ es, timeline s' = timeline s ++ es
              ∧ (route_action (target req) = None → es = [])
              ∧ ∀ e, e ∈ es →
                  Some (Timeline.action e) = route_action (target req)
                  ∧ (Timeline.action e ∉ ["unassigned"; "resolved"; "closed";
                                          "reopened"; "sla_breach"])
                  ∧ Timeline.createdAt e = now
                  ∧ Timeline.validate e = None
                  ∧ ∃ id o u, auth req = Bearer id
                      ∧ Mongoose.cast_id (JStr id) = Some o
                      ∧ users s !! o = Some u ∧ User.isActive u = true
                      ∧ Timeline.user e = User._id u) as Hnone.
  { intros s' Hs'. exists []. rewrite app_nil_r. split; [done|]. split; [done|].
    by intros e ?%elem_of_nil. }
  unfold router, authenticate, run.
  destruct (auth req) as [| |id] eqn:Ha; [by apply Hnone..|].
  destruct (Mongoose.cast_id (JStr id)) as [o|] eqn:Hc; [|by apply Hnone].
  destruct (users s !! o) as [u|] eqn:Hu; [|by apply Hnone].
  destruct (User.isActive u) eqn:Hact; [|by apply Hnone]. cbn [negb].
  set (user := User.with_lastLoginAt (Some now) u).
  set (s1 := with_users (<[o:=user]> (users s)) s).
  destruct (dispatch now new_id user (target req) s1) as [s' r] eqn:Hd.
  destruct (logs_dispatch _ _ _ _ _ _ _ Hd) as (es & Hes & HP).
  exists es. split; [by destruct r|]. rewrite Forall_forall in HP.
  split.
  - intros Hnone'. destruct es as [|e es]; [done|].
    destruct (HP e ltac:(by left)) as (Hact' & _). by rewrite Hnone' in Hact'.
  - intros e He. destruct (HP e He) as (Hact' & Huser & Hnow & Hval).
    split; [done|]. split; [|split; [done|split; [done|]]].
    + destruct (target req); simpl in Hact'; try done;
        injection Hact' as ->; rewrite !elem_of_cons, elem_of_nil;
        intuition discriminate.
    + exists id, o, u. by repeat split.
Qed.

(** ** Internal notes *)

(** X22.  An internal note is not internal to the detail view: GET /:id
    returns every comment of the ticket, whatever its type, to whoever may
    read the ticket, and the creator of a ticket may.  After a successful
    POST /:id/comments with type [internal_note], the creator's next read
    of the ticket is answered 200 with the comments of the ticket in
    creation order, the note last, stored with type [internal_note] under
    the id of its author. *)
Theorem creator_reads_internal_note now now' staff creator id body s r s1 o x :
  well_formed s →
  Mongoose.cast_id (JStr id) = Some o →
  tickets s !! o = Some x →
  User._id creator = Ticket.createdBy x →
  JS.get body "type" = JStr "internal_note" →
  run (post_comment now staff id body) s = (r, s1) →
  is_success r = true →
  ∃ c x' tl,
    r = {| statusCode := 201; payload := CommentOk c |}
    ∧ Comment.type c = "internal_note"
    ∧ Comment.author c = User._id staff
    ∧ run (get_ticket now' creator id) s1
      = ({| statusCode := 200;
            payload := DetailOk x'
                         (filter (λ c', Comment.ticket c' = o) (comments s) ++ [c])
                         tl |}, s1).
Proof.
  intros Hw Hid Hx Hcr Hty Hrun Hok.
  destruct Hw as (Hk & Hu & _ & _).
  destruct (Hk _ _ Hx) as (Hxo & _ & [c0 Hc0] & _).
  pose proof (Hu _ _ Hc0) as Hc0id.
  pose proof (run_success _ _ _ _ Hrun Hok) as Hh.
  destruct (post_comment_shape _ _ _ _ _ _ _ Hh) as [Hs|Hf].
  2:{ destruct Hf as (code & f & m & Hp & Hin). exfalso.
      unfold is_success in Hok. apply bool_decide_eq_true in Hok.
      unfold handler_codes in Hin. rewrite !elem_of_cons, elem_of_nil in Hin.
      repeat (destruct Hin as [[= _ Hc]|Hin]; [lia|]). done. }
  destruct r as [code [| |c| |]]; simpl in Hs; try done. subst code.
  destruct (post_comment_created _ _ _ _ _ _ _ _ _ Hid Hx Hxo Hrun)
    as (Hcs & Hct & Hfirst & Hcast & _ & Hsame & _).
  rewrite Hty in Hcast, Hfirst. cbn in Hcast, Hfirst. injection Hcast as Hcast.
  assert (Comment.isFirstResponse c = false) as Hnf.
  { destruct (Comment.isFirstResponse c); [|done].
    by destruct (proj1 Hfirst eq_refl) as [_ ?]. }
  assert (users s1 = users s) as Hus.
  { exact (users_dispatch now o staff (AddComment id body) _ _ _ Hh). }
  assert (∃ a, Comment.author c = a ∧ a = User._id staff) as (a & Ha & ->).
  { unfold post_comment in Hh. rewrite Hty in Hh. cbn [JS.strict_eq] in Hh.
    destruct (negb (JS.truthy _)); [done|].
    apply bind_inv in Hh as [(s0 & found & Hf & Hh)|(? & _ & ?)]; [|done].
    rewrite (Ticket_findById_spec _ _ _ Hid), Hx in Hf. injection Hf as <- <-.
    cbn [fmap option_fmap option_map Ticket.loaded Ticket.data] in Hh.
    destruct (negb (bool_decide _) && _); [done|].
    destruct (_ && bool_decide (User.role staff = "user")); [done|].
    apply bind_inv in Hh as [(s0 & n & Hn & Hh)|(? & _ & ?)]; [|done].
    apply bind_inv in Hh as [(s2 & cm & Hcm & Hh)|(? & _ & ?)]; [|done].
    apply Comment_create_inv in Hcm as (_ & _ & Hau & _).
    apply bind_inv in Hh as [(s3 & [] & _ & Hh)|(? & _ & ?)]; [|done].
    apply bind_inv in Hh as [(s4 & [] & _ & Hh)|(? & _ & ?)]; [|done].
    injection Hh as _ <-. eauto. }
  exists c, (Ticket.checkSLABreaches now' x).
  eexists. split; [done|]. split; [done|]. split; [done|].
  unfold get_ticket, run, bind at 1.
  rewrite (Ticket_findById_spec _ _ _ Hid), (Hsame Hnf), Hx.
  cbn [fmap option_fmap option_map Ticket.loaded Ticket.data].
  unfold bind at 1, User_findById. cbn [Mongoose.cast_id]. rewrite Hus, Hc0.
  assert (∀ k : bool → M response,
            bind (if bool_decide (User.role creator = "user")
                  then ret (negb (bool_decide (User._id c0 = User._id creator)))
                  else ret false) k s1 = k false s1) as ->.
  { intros k. rewrite Hc0id, Hcr.
    rewrite (bool_decide_eq_true_2 (Ticket.createdBy x = Ticket.createdBy x))
      by done.
    destruct (bool_decide (User.role creator = "user")); reflexivity. }
  cbn [respond ret]. rewrite Hcs, filter_app, Hxo.
  rewrite (filter_cons_True _ c) by (by rewrite Hct).
  reflexivity.
Qed.

Lemma db1_well_formed : well_formed Sample.db1.
Proof.
  destruct (post_ticket Sample.T0 Sample.t1 Sample.john Sample.urgent_body
              Sample.empty_db) as [s' r] eqn:Hp.
  assert (is_Some (users Sample.empty_db !! User._id Sample.john)) as Hj
    by (vm_compute; eauto).
  destruct (sound_post_ticket _ _ _ _ _ _ _ empty_db_well_formed Hj Hp)
    as (Hw & _).
  unfold Sample.db1, run. rewrite Hp. by destruct r.
Qed.

Lemma creator_reads_internal_note_witness :
  let body := [("content", JStr "Customer asks every week");
               ("type", JStr "internal_note")] in
  let out := run (post_comment (Sample.T0 + 1) Sample.agent Sample.t1 body)
               Sample.db1 in
  ∃ c x' tl,
    out.1 = {| statusCode := 201; payload := CommentOk c |}
    ∧ Comment.type c = "internal_note"
    ∧ Comment.author c = User._id Sample.agent
    ∧ run (get_ticket (Sample.T0 + 2) Sample.john Sample.t1) out.2
      = ({| statusCode := 200;
            payload := DetailOk x'
                         (filter (λ c', Comment.ticket c' = Sample.t1)
                            (comments Sample.db1) ++ [c])
                         tl |}, out.2).
Proof.
  intros body out.
  apply (creator_reads_internal_note (Sample.T0 + 1) (Sample.T0 + 2) Sample.agent
           Sample.john Sample.t1 body Sample.db1 out.1 out.2 Sample.t1
           Sample.ticket1).
  - exact db1_well_formed.
  - by vm_compute.
  - exact db1_ticket.
  - reflexivity.
  - reflexivity.
  - apply surjective_pairing.
  - by vm_compute.
Defined.

(** ** The order of registration *)

Lemma map_string_length f s :
  String.length (Mongoose.map_string f s) = String.length s.
Proof. induction s as [|a s IH]; simpl; congruence. Qed.

(** X23.  POST /bulk/assign never reaches its handler.  The router
    registers '/:id/assign' before '/bulk/assign', and the pattern of the
    first matches every path the second matches, with [bulk] as the id:
    no path resolves to the bulk handler.  A request for /bulk/assign is
    answered by the assign route: 403 FORBIDDEN for a requester who is
    neither agent nor admin, and for an agent or admin 400 INVALID_ID on
    [_id], because [bulk] is no ObjectId; the database is left as it
    is. *)
Theorem bulk_assign_unreachable :
  (∀ path body b, resolve_post path body ≠ Some (BulkAssign b))
  ∧ (∀ path body, is_Some (match_path [Lit "bulk"; Lit "assign"] path) →
       ∃ id rest, path = id :: rest ∧ lower id = "bulk"
                  ∧ resolve_post path body = Some (Assign id body))
  ∧ (∀ now new_id user id body s, lower id = "bulk" →
       run (dispatch now new_id user (Assign id body)) s
       = (if bool_decide (User.role user ∈ ["agent"; "admin"])
          then {| statusCode := 400;
                  payload := Failure "INVALID_ID" (Some "_id")
                               (Msg "Invalid ID format") |}
          else {| statusCode := 403;
                  payload := Failure "FORBIDDEN" None
                               (Msg "Insufficient permissions") |}, s)).
Proof.
  assert (∀ path body, is_Some (match_path [Lit "bulk"; Lit "assign"] path) →
            ∃ id rest, path = id :: rest ∧ lower id = "bulk"
                       ∧ resolve_post path body = Some (Assign id body)) as Hshadow.
  { intros path body [ps Hm].
    destruct path as [|x [|y [|z path]]]; simpl in Hm; try done.
    - by case_bool_decide.
    - case_bool_decide as Hx; [|done]. case_bool_decide as Hy; [|done].
      exists x, [y]. split; [done|]. split; [done|].
      assert (x ≠ "") as Hne by (by intros ->).
      unfold resolve_post, post_routes. simpl.
      rewrite (bool_decide_eq_false_2 (x = "")) by done.
      destruct (bool_decide (lower y = lower "comments")) eqn:E.
      { apply bool_decide_eq_true in E. rewrite Hy in E. done. }
      simpl. rewrite (bool_decide_eq_true_2 (lower y = lower "assign")) by done.
      done.
    - case_bool_decide; [|done]. by case_bool_decide. }
  split; [|split; [exact Hshadow|]].
  - intros path body b Hr.
    destruct (match_path [Lit "bulk"; Lit "assign"] path) as [ps|] eqn:Hm.
    + destruct (Hshadow path body ltac:(by eexists)) as (id & rest & _ & _ & Hr').
      rewrite Hr' in Hr. discriminate.
    + unfold resolve_post, post_routes in Hr. cbn [first_match] in Hr.
      rewrite Hm in Hr. repeat case_match; simplify_eq.
  - intros now new_id user id body s Hid.
    assert (Mongoose.cast_id (JStr id) = None) as Hc.
    { simpl. unfold Mongoose.cast_oid_string.
      apply (f_equal String.length) in Hid. unfold lower in Hid.
      rewrite map_string_length in Hid. simpl in Hid.
      rewrite bool_decide_eq_false_2; [done|]. rewrite Hid. lia. }
    cbn [dispatch]. unfold authorize, run.
    case_bool_decide; cbn [negb]; [|done].
    unfold post_assign, bind, Ticket_findById. by rewrite Hc.
Qed.

(** ** Assignment *)

Lemma cast_ref_or_null v :
  JS.truthy v = false → Mongoose.cast_ref (JS.or v JNull) = Some Null.
Proof. unfold JS.or. by intros ->. Qed.

Lemma cast_ref_truthy v o :
  JS.truthy v = true → Mongoose.cast_id v = Some o →
  Mongoose.cast_ref (JS.or v JNull) = Some (Ref o).
Proof.
  unfold JS.or. intros -> Hc. destruct v; try done; simpl in *.
  - by rewrite Hc.
  - by injection Hc as ->.
Qed.

(** X24.  A successful POST /:id/assign.  A request without an assignee
    (absent, null, or any other falsy value) stores null; otherwise the
    assignee is a user of the directory with role agent or admin and the
    ticket refers to that user.  When the reference differs from the
    stored one the ticket is saved with it, the version one higher and
    [updatedAt] at the time of the request, and nothing else changed; when
    it is the stored one the ticket is not written.  Either way one
    [assigned] entry is appended to the timeline, whose description names
    the new assignee, or else the former one, or else [agent]. *)
Theorem post_assign_effect now user id body s o x r s' :
  Mongoose.cast_id (JStr id) = Some o →
  tickets s !! o = Some x →
  Ticket._id x = o →
  run (post_assign now user id body) s = (r, s') →
  is_success r = true →
  let v := JS.get body "assignedTo" in
  ∃ a x' e oldUser newUser,
    (if JS.truthy v
     then ∃ o' u, Mongoose.cast_id v = Some o' ∧ users s !! o' = Some u
                  ∧ User.role u ∈ ["agent"; "admin"] ∧ a = Ref o'
                  ∧ newUser = Some u
     else a = Null ∧ newUser = None)
    ∧ oldUser = match Ticket.assignedTo x with
                | Ref o' => users s !! o'
                | _ => None
                end
    ∧ r = {| statusCode := 200; payload := TicketOk x' |}
    ∧ tickets s' = <[o := x']> (tickets s)
    ∧ comments s' = comments s ∧ users s' = users s
    ∧ (a = Ticket.assignedTo x → x' = x)
    ∧ (a ≠ Ticket.assignedTo x →
       x' = Ticket.with_version (Ticket.version x + 1)
              (Ticket.with_updatedAt now (Ticket.with_assignedTo a x)))
    ∧ timeline s' = timeline s ++ [e]
    ∧ Timeline.ticket e = o ∧ Timeline.action e = "assigned"
    ∧ Timeline.description e
      = "Ticket " +:+ (if JS.truthy v then "assigned to" else "unassigned from")
          +:+ " " +:+ name_or newUser (name_or oldUser "agent").
Proof.
  intros Hid Hx Hxo Hrun Hok v. apply run_success in Hrun; [|done].
  unfold post_assign in Hrun. fold v in Hrun.
  apply bind_inv in Hrun as [(s0 & found & Hf & Hrun)|(? & _ & ?)]; [|done].
  rewrite (Ticket_findById_spec _ _ _ Hid), Hx in Hf. injection Hf as <- <-.
  cbn [fmap option_fmap option_map Ticket.loaded Ticket.data] in Hrun.
  destruct (_ && _ && _); [early Hrun|].
  apply bind_inv in Hrun as [(s0 & assignee & Ha & Hrun)|(? & _ & ?)]; [|done].
  pose proof (maybe_find_state _ _ _ _ Ha) as ->.
  destruct (JS.truthy v && not_assignable assignee) eqn:Hna; [early Hrun|].
  apply bind_inv in Hrun as [(s1 & d1 & Hsave & Hrun)|(? & _ & ?)]; [|done].
  apply bind_inv in Hrun as [(s2 & oldUser & Ho & Hrun)|(? & _ & ?)]; [|done].
  pose proof (maybe_find_state _ _ _ _ Ho) as ->.
  apply bind_inv in Hrun as [(s2 & newUser & Hn & Hrun)|(? & _ & ?)]; [|done].
  pose proof (maybe_find_state _ _ _ _ Hn) as ->.
  apply bind_inv in Hrun as [(s2 & [] & Hlog & Hrun)|(? & _ & ?)]; [|done].
  injection Hrun as <- <-.
  apply createTimelineEntry_ok in Hlog as (tid & [= <-] & ->).
  (* the assignee *)
  assert (∃ a, Mongoose.cast_ref (JS.or v JNull) = Some a
               ∧ if JS.truthy v
                 then ∃ o' u, Mongoose.cast_id v = Some o' ∧ users s !! o' = Some u
                              ∧ User.role u ∈ ["agent"; "admin"] ∧ a = Ref o'
                              ∧ newUser = Some u
                 else a = Null ∧ newUser = None) as (a & Hcast & Hwho).
  { destruct (JS.truthy v) eqn:Hv.
    - unfold User_findById in Ha, Hn.
      destruct (Mongoose.cast_id v) as [o'|] eqn:Hc; [|done].
      injection Ha as <-. injection Hn as <-.
      cbn [andb] in Hna. unfold not_assignable in Hna.
      cbn [users with_tickets] in *.
      assert (users s1 = users s) as Hus by (by eapply users_save).
      destruct (users s !! o') as [u|] eqn:Hu; [|done].
      apply negb_false_iff, bool_decide_eq_true in Hna.
      exists (Ref o'). split; [by apply cast_ref_truthy|].
      exists o', u. rewrite Hus, Hu. done.
    - injection Hn as <-. exists Null. split; [by apply cast_ref_or_null|done]. }
  (* the former assignee *)
  assert (users s1 = users s) as Hus by (by eapply users_save).
  assert (oldUser = match Ticket.assignedTo x with
                    | Ref o' => users s !! o'
                    | _ => None
                    end) as Hold.
  { destruct (Ticket.assignedTo x) as [| |o']; cbn in Ho; try by injection Ho as <-.
    unfold User_findById in Ho. cbn in Ho. injection Ho as <-. by rewrite Hus. }
  (* the write *)
  unfold Ticket.assign in Hsave.
  cbn [Ticket.put Ticket.data Ticket.loaded Ticket.isNew orb] in Hsave.
  rewrite Hcast in Hsave. cbn [mbind option_bind] in Hsave.
  destruct (decide (a = Ticket.assignedTo x)) as [Heq|Hne].
  - rewrite (bool_decide_eq_true_2 (Ticket.with_assignedTo a x = x)) in Hsave
      by (by apply with_assignedTo_same).
    cbn [negb] in Hsave.
    apply save_loaded in Hsave as [(? & ? & _)|[(_ & [= ->] & ->)|(? & _)]];
      [done| |done|done].
    exists a, x. eexists. exists oldUser, newUser.
    split; [done|]. split; [done|]. split; [done|].
    split; [cbn; by rewrite insert_id|].
    split; [done|]. split; [done|]. split; [done|]. split; [done|].
    split; [done|]. by rewrite Hxo.
  - assert (Ticket.with_assignedTo a x ≠ x) as Hne'.
    { intros H. apply (f_equal Ticket.assignedTo) in H. done. }
    rewrite (bool_decide_eq_false_2 (Ticket.with_assignedTo a x = x)) in Hsave
      by done.
    cbn [negb] in Hsave.
    assert (Ticket.mark (Ticket.name Ticket.AssignedTo)
              (Ticket.with_data (Ticket.with_assignedTo a x) (Ticket.loaded x))
            = {| Ticket.data := Ticket.with_assignedTo a x; Ticket.isNew := false;
                 Ticket.modified := ["assignedTo"]; Ticket.invalid := [] |}) as Hdoc
      by reflexivity.
    rewrite Hdoc in Hsave.
    apply save_loaded in Hsave as [(? & ? & _)|[(? & _)|(_ & [= ->] & ->)]];
      [done|done| |done].
    cbn [Ticket.data Ticket._id Ticket.with_assignedTo] in *. rewrite Hxo.
    exists a. eexists. eexists. exists oldUser, newUser.
    split; [done|]. split; [done|]. split; [done|]. split; [done|].
    split; [done|]. split; [done|]. split; [done|].
    split; [|by rewrite ?Hxo].
    intros _. cbn [Ticket.data committed]. rewrite pre_save_loaded_data by done.
    cbn [Ticket.data Ticket.modified].
    rewrite (bool_decide_eq_false_2 ("status" ∈ ["assignedTo"]))
      by (rewrite elem_of_cons, elem_of_nil; intuition discriminate).
    cbn [andb]. by destruct x.
Qed.

Lemma post_assign_effect_witness :
  let body := [("assignedTo", JStr Sample.agent_id)] in
  let out := run (post_assign (Sample.T0 + 1) Sample.admin Sample.t1 body)
               Sample.db1 in
  let v := JS.get body "assignedTo" in
  ∃ a x' e oldUser newUser,
    (if JS.truthy v
     then ∃ o' u, Mongoose.cast_id v = Some o' ∧ users Sample.db1 !! o' = Some u
                  ∧ User.role u ∈ ["agent"; "admin"] ∧ a = Ref o'
                  ∧ newUser = Some u
     else a = Null ∧ newUser = None)
    ∧ oldUser = match Ticket.assignedTo Sample.ticket1 with
                | Ref o' => users Sample.db1 !! o'
                | _ => None
                end
    ∧ out.1 = {| statusCode := 200; payload := TicketOk x' |}
    ∧ tickets out.2 = <[Sample.t1 := x']> (tickets Sample.db1)
    ∧ comments out.2 = comments Sample.db1 ∧ users out.2 = users Sample.db1
    ∧ (a = Ticket.assignedTo Sample.ticket1 → x' = Sample.ticket1)
    ∧ (a ≠ Ticket.assignedTo Sample.ticket1 →
       x' = Ticket.with_version (Ticket.version Sample.ticket1 + 1)
              (Ticket.with_updatedAt (Sample.T0 + 1)
                 (Ticket.with_assignedTo a Sample.ticket1)))
    ∧ timeline out.2 = timeline Sample.db1 ++ [e]
    ∧ Timeline.ticket e = Sample.t1 ∧ Timeline.action e = "assigned"
    ∧ Timeline.description e
      = "Ticket " +:+ (if JS.truthy v then "assigned to" else "unassigned from")
          +:+ " " +:+ name_or newUser (name_or oldUser "agent").
Proof.
  intros body out.
  apply (post_assign_effect (Sample.T0 + 1) Sample.admin Sample.t1 body Sample.db1
           Sample.t1 Sample.ticket1 out.1 out.2).
  - by vm_compute.
  - exact db1_ticket.
  - reflexivity.
  - apply surjective_pairing.
  - by vm_compute.
Defined.

(** ** Accounts *)





